(** * macLLM input field: the tag-aware text codec

    A shallow embedding of the pill rendering pass
    ([build_input_attributed_with_caret], [display_string_for_tag],
    [_collect_prefixes], [find_token_range] in [macllm/ui/tag_render.py])
    and of the plain-text extraction ([_plain_text_from_view] in
    [macllm/ui/input_field.py]), followed by the properties of the codec.

    Conventions of the embedding.
    - A Python character is its code point, a string is a list of them.
      Cocoa counts UTF-16 units where Python counts code points: a length
      or an index that the source takes from Cocoa or hands to it is in
      UTF-16 units ([alength], [attributes_at]), one that it takes from a
      Python string is in characters ([len], [nth_error]).  The two agree
      on the Basic Multilingual Plane only.
    - An [NSAttributedString] is the list of its characters, each with the
      two attributes the codec reads or writes: the attachment (the pill
      image, represented by the label drawn on it) and the raw text stored
      under [TAG_ATTR_NAME].  Fonts and colours are left out.
    - A Python call that may raise returns an [exc]; [try ... except
      Exception] is [try_except].
    - The [while] loop of the rendering pass is run with fuel; the index
      [i] is represented by the unread suffix [text[i:]]. *)

From Stdlib Require Import String Ascii List ZArith NArith Bool Lia.
Import ListNotations.

(** ** Characters and strings *)

Definition char := N.
Definition text := list char.

Definition SPACE : char := 32%N.
Definition NEWLINE : char := 10%N.
Definition TAB : char := 9%N.
Definition CR : char := 13%N.
Definition QUOTE : char := 34%N.
Definition AT : char := 64%N.
(** U+FFFC, the object replacement character an attachment occupies. *)
Definition OBJ : char := 65532%N.

Definition of_string (s : string) : text :=
  map N_of_ascii (list_ascii_of_string s).

Definition char_eqb : char -> char -> bool := N.eqb.

Fixpoint text_eqb (a b : text) : bool :=
  match a, b with
  | [], [] => true
  | x :: a', y :: b' => char_eqb x y && text_eqb a' b'
  | _, _ => false
  end.

(** [s.startswith(prefix)] *)
Fixpoint startswith (prefix s : text) : bool :=
  match prefix, s with
  | [], _ => true
  | p :: prefix', c :: s' => char_eqb p c && startswith prefix' s'
  | _ :: _, [] => false
  end.

(** [s.endswith(suffix)] *)
Definition endswith (suffix s : text) : bool :=
  startswith (rev suffix) (rev s).

(** [c in s] *)
Definition char_in (c : char) (s : text) : bool := existsb (char_eqb c) s.

(** [x in xs] for a set of strings; a set is kept as the list of its
    elements, of which only membership is ever asked. *)
Definition text_in (x : text) (xs : list text) : bool := existsb (text_eqb x) xs.

(** [any(token.startswith(p) for p in prefixes)] *)
Definition any_startswith (token : text) (prefixes : list text) : bool :=
  existsb (fun p => startswith p token) prefixes.

Definition is_empty (s : text) : bool :=
  match s with [] => true | _ :: _ => false end.

(** [ch in (' ', '\n', '\t')] *)
Definition is_delim (ch : char) : bool :=
  char_eqb ch SPACE || char_eqb ch NEWLINE || char_eqb ch TAB.

(** [next_delim in (' ', '\n', '\t')], where [next_delim] may be [None]. *)
Definition in_delims (next_delim : option char) : bool :=
  match next_delim with
  | Some c => is_delim c
  | None => false
  end.

(** ** Exceptions *)

Inductive exception : Type :=
| ValueError
| PluginError.   (* any [Exception] raised inside a plugin *)

Inductive exc (A : Type) : Type :=
| Return (a : A)
| Raise (e : exception).

Arguments Return {A} a.
Arguments Raise {A} e.

Definition bind {A B : Type} (c : exc A) (k : A -> exc B) : exc B :=
  match c with
  | Return a => k a
  | Raise e => Raise e
  end.

Notation "x <- c ;; k" := (bind c (fun x => k))
  (at level 61, c at next level, right associativity).

(** [try: c  except Exception: handler] *)
Definition try_except {A : Type} (c : exc A) (handler : exc A) : exc A :=
  match c with
  | Return a => Return a
  | Raise _ => handler
  end.

(** ** Plugins *)

(** The duck-typed plugin object: [get_prefixes()] and
    [display_string(raw_tag)] may raise; [PATH_PREFIXES] is read with
    [getattr(p, "PATH_PREFIXES", [])], so a plugin without it has [].
    A plugin answers the same way each time it is asked during a pass. *)
Record plugin : Type := {
  get_prefixes : exc (list text);
  PATH_PREFIXES : list text;
  display_string : text -> exc text
}.

(** One round of the [for p in plugins] loop of [_collect_prefixes]. *)
Definition collect_one (acc : list text * list text * list text) (p : plugin)
  : list text * list text * list text :=
  let '(normal, path_like, prefix_only) := acc in
  let '(normal, prefix_only) :=
    match get_prefixes p with
    | Return prs =>
        (normal ++ prs,
         prefix_only ++ filter (endswith (of_string "://")) prs)
    | Raise _ => (normal, prefix_only)
    end in
  (normal, path_like ++ PATH_PREFIXES p, prefix_only).

(** Returns [(normal, path_like, prefix_only)]. *)
Definition _collect_prefixes (plugins : list plugin)
  : list text * list text * list text :=
  fold_left collect_one plugins ([], [], []).

(** [try: prefixes = set(p.get_prefixes())  except Exception: prefixes = set()] *)
Definition prefixes_of (p : plugin) : list text :=
  match get_prefixes p with
  | Return prs => prs
  | Raise _ => []
  end.

(** The flag [matched] of [display_string_for_tag] for one plugin. *)
Definition matched (raw_tag : text) (p : plugin) : bool :=
  any_startswith raw_tag (prefixes_of p)
  || any_startswith raw_tag (PATH_PREFIXES p).

Fixpoint display_string_for_tag (raw_tag : text) (plugins : list plugin)
  : exc text :=
  match plugins with
  | [] => Return raw_tag
  | p :: plugins' =>
      if matched raw_tag p
      then try_except (display_string p raw_tag) (Return raw_tag)
      else display_string_for_tag raw_tag plugins'
  end.

(** ** [urllib.parse.urlparse]

    The standard library's [urlsplit], as far as [scheme] and [netloc] go.
    Two checks of the library are not modelled and are taken as
    parameters: the validation of a bracketed host (an IPv6 literal) and
    the NFKC check of a netloc that is not ASCII. *)

Record urllib : Type := {
  bracketed_netloc_ok : text -> bool;   (* [_check_bracketed_netloc] returns *)
  nfkc_netloc_ok : text -> bool         (* the NFKC test of [_checknetloc] passes *)
}.

Record ParseResult : Type := {
  scheme : text;
  netloc : text
}.

Definition in_range (lo hi c : N) : bool := (lo <=? c)%N && (c <=? hi)%N.

Definition is_ascii_alpha (c : char) : bool :=
  in_range 65 90 c || in_range 97 122 c.

(** [c in scheme_chars]: letters, digits, [+], [-], [.] *)
Definition is_scheme_char (c : char) : bool :=
  is_ascii_alpha c || in_range 48 57 c
  || char_eqb c 43%N || char_eqb c 45%N || char_eqb c 46%N.

Definition lower_char (c : char) : char :=
  if in_range 65 90 c then (c + 32)%N else c.

Fixpoint dropwhile (f : char -> bool) (s : text) : text :=
  match s with
  | [] => []
  | c :: s' => if f c then dropwhile f s' else s
  end.

Fixpoint takewhile (f : char -> bool) (s : text) : text :=
  match s with
  | [] => []
  | c :: s' => if f c then c :: takewhile f s' else []
  end.

(** [s.find(c)], [None] for -1. *)
Fixpoint find_char (c : char) (s : text) : option nat :=
  match s with
  | [] => None
  | x :: s' =>
      if char_eqb x c then Some O
      else option_map S (find_char c s')
  end.

Definition is_netloc_end (c : char) : bool :=
  char_eqb c 47%N || char_eqb c 63%N || char_eqb c 35%N.   (* / ? # *)

Section Urlparse.

Variable lib : urllib.

Definition urlparse (url : text) : exc ParseResult :=
  let url := dropwhile (fun c => (c <=? 32)%N) url in
  let url := filter (fun c => negb (char_eqb c TAB || char_eqb c CR
                                    || char_eqb c NEWLINE)) url in
  let '(scheme, url) :=
    match find_char 58%N url with
    | Some (S i') =>
        let i := S i' in
        if is_ascii_alpha (hd 0%N url) && forallb is_scheme_char (firstn i url)
        then (map lower_char (firstn i url), skipn (S i) url)
        else ([], url)
    | _ => ([], url)
    end in
  netloc <-
    (if startswith (of_string "//") url then
       let netloc := takewhile (fun c => negb (is_netloc_end c)) (skipn 2 url) in
       let has_open := char_in 91%N netloc in
       let has_close := char_in 93%N netloc in
       if (has_open && negb has_close) || (has_close && negb has_open)
       then Raise ValueError            (* "Invalid IPv6 URL" *)
       else
         _ <- (if has_open && has_close && negb (bracketed_netloc_ok lib netloc)
               then Raise ValueError
               else Return tt) ;;
         Return netloc
     else Return []) ;;
  _ <- (if is_empty netloc || forallb (fun c => (c <? 128)%N) netloc
           || nfkc_netloc_ok lib netloc
        then Return tt
        else Raise ValueError) ;;
  Return {| scheme := scheme; netloc := netloc |}.

End Urlparse.

(** ** Attributed strings *)

(** One character of an [NSAttributedString]: the character, the label of
    its attachment if it has one, and the value stored under
    [TAG_ATTR_NAME] if any. *)
Record achar : Type := {
  ch : char;
  attachment : option text;
  tag : option text
}.

Definition attributed := list achar.

(** The UTF-16 units a character takes in an [NSString]: two outside the
    Basic Multilingual Plane. *)
Definition utf16_units (c : char) : nat := if (c <? 65536)%N then 1 else 2.

Definition utf16_length (s : text) : nat := list_sum (map utf16_units s).

(** [result.length()], which counts UTF-16 units *)
Definition alength (a : attributed) : Z := Z.of_nat (utf16_length (map ch a)).

(** [attributesAtIndex_effectiveRange_(index, None)]: the character that
    holds the UTF-16 unit at [index], with its attributes; [None] past the
    end, where Cocoa raises. *)
Fixpoint attributes_at (storage : attributed) (index : nat) : option achar :=
  match storage with
  | [] => None
  | u :: storage' =>
      if (index <? utf16_units (ch u))%nat then Some u
      else attributes_at storage' (index - utf16_units (ch u))
  end.

(** What a round of [for idx, ch in enumerate(raw_str)] reads: the
    character [c] of the Python string at [idx], with the attributes that
    the storage answers for the index [idx].  A storage has at least as
    many UTF-16 units as characters, so the look-up does not raise. *)
Definition read_at (storage : attributed) (idx : nat) (c : char) : achar :=
  match attributes_at storage idx with
  | Some a => {| ch := c; attachment := attachment a; tag := tag a |}
  | None => {| ch := c; attachment := None; tag := None |}
  end.

(** [len(s)] *)
Definition len (s : text) : Z := Z.of_nat (length s).

(** The typing attributes of the host editor, reduced to the entry they
    may hold under [TAG_ATTR_NAME]. *)
Definition typing_attributes := option text.

(** [base_attrs]: the typing attributes with the tag entry removed when
    [objectForKey_] answers a true value (any string but the empty one).
    With no typing attributes the plain runs get a font and a colour only. *)
Definition base_attrs (typing_attrs : option typing_attributes) : option text :=
  match typing_attrs with
  | None => None
  | Some None => None
  | Some (Some s) => if is_empty s then Some s else None
  end.

(** [make_pill_attachment] followed by [build_tag_attributed]: one
    attachment character that shows [display_text] and stores [raw_text]. *)
Definition build_tag_attributed (raw_text display_text : text) : attributed :=
  [ {| ch := OBJ; attachment := Some display_text; tag := Some raw_text |} ].

(** The characters of a plain run. *)
Definition plain_run (base : option text) (s : text) : attributed :=
  map (fun c => {| ch := c; attachment := None; tag := base |}) s.

(** ** The tokens of the rendering pass *)

(** The scan after the opening at-sign and quote: up to the closing quote, which is
    included, or to the end of the buffer.  Returns what was read and
    [text[i:]]. *)
Fixpoint read_quoted (s : text) : text * text :=
  match s with
  | [] => ([], [])
  | c :: s' =>
      if char_eqb c QUOTE then ([c], s')
      else let '(tok, rest) := read_quoted s' in (c :: tok, rest)
  end.

(** [while i < len(text) and not is_delim(text[i]): i += 1] *)
Fixpoint read_plain (s : text) : text * text :=
  match s with
  | [] => ([], [])
  | c :: s' =>
      if is_delim c then ([], s)
      else let '(tok, rest) := read_plain s' in (c :: tok, rest)
  end.

(** The token that starts at [text[i:]], with the text after it. *)
Definition read_token (s : text) : text * text :=
  match s with
  | a :: q :: s' =>
      if char_eqb a AT && char_eqb q QUOTE
      then let '(tok, rest) := read_quoted s' in (a :: q :: tok, rest)
      else read_plain s
  | _ => read_plain s
  end.

(** ** [build_input_attributed_with_caret] *)

Record state : Type := {
  rest : text;                 (* text[i:] *)
  plain_index : Z;
  result : attributed;
  caret_attr_index : Z;
  caret_set : bool
}.

Section Render.

Variable lib : urllib.
Variable typing_attrs : option typing_attributes.
Variable shortcuts : list text.
Variable plugins : list plugin.
Variable caret_plain_index : Z.

Definition append_plain (res : attributed) (s : text) : attributed :=
  res ++ plain_run (base_attrs typing_attrs) s.

Definition token_is_url_tag (tok : text) : exc bool :=
  if negb (startswith (of_string "@http://") tok
           || startswith (of_string "@https://") tok)
  then Return false
  else
    parsed <- urlparse lib (tl tok) ;;
    Return (negb (is_empty (scheme parsed)) && negb (is_empty (netloc parsed))).

(** The block under "Decide pill type": [Some (raw, display)] when the
    token becomes a pill. *)
Definition decide_pill_type (token : text) (next_delim : option char)
  : exc (option (text * text)) :=
  let '(normal_prefixes, path_prefixes, prefix_only) :=
    _collect_prefixes plugins in
  if text_in token shortcuts && in_delims next_delim then
    Return (Some (token, token))
  else if startswith [AT] token then
    if text_in token normal_prefixes && negb (text_in token prefix_only)
       && in_delims next_delim
    then
      display <- display_string_for_tag token plugins ;;
      Return (Some (token, display))
    else
      is_url <- token_is_url_tag token ;;
      if is_url && in_delims next_delim then
        display <- display_string_for_tag token plugins ;;
        Return (Some (token, display))
      else if any_startswith token path_prefixes && in_delims next_delim then
        display <- display_string_for_tag token plugins ;;
        Return (Some (token, display))
      else Return None
  else Return None.

(** The branch of the loop body for a delimiter [c], with [tl] the text
    after it. *)
Definition after_delimiter (st : state) (c : char) (tl : text) : state :=
  let before_len := alength (result st) in
  let plain_index' := (plain_index st + 1)%Z in
  let latch := negb (caret_set st)
               && (caret_plain_index =? plain_index')%Z in
  {| rest := tl;
     plain_index := plain_index';
     result := append_plain (result st) [c];
     caret_attr_index :=
       if latch then (before_len + 1)%Z else caret_attr_index st;
     caret_set := if latch then true else caret_set st |}.

(** The end of the loop body for a token: a pill when one was decided,
    a plain run otherwise, and the caret. *)
Definition after_token (st : state) (token rest' : text)
  (pill : option (text * text)) : state :=
  let before_len := alength (result st) in
  let token_plain_len := len token in
  let inside :=
    negb (caret_set st)
    && (plain_index st <=? caret_plain_index)%Z
    && (caret_plain_index <=? plain_index st + token_plain_len)%Z in
  match pill with
  | Some (raw, display) =>
      {| rest := rest';
         plain_index := (plain_index st + token_plain_len)%Z;
         result := result st ++ build_tag_attributed raw display;
         caret_attr_index :=
           if inside then (before_len + 1)%Z else caret_attr_index st;
         caret_set := if inside then true else caret_set st |}
  | None =>
      {| rest := rest';
         plain_index := (plain_index st + token_plain_len)%Z;
         result := append_plain (result st) token;
         caret_attr_index :=
           if inside
           then (before_len + (caret_plain_index - plain_index st))%Z
           else caret_attr_index st;
         caret_set := if inside then true else caret_set st |}
  end.

(** One round of the [while i < len(text)] loop. *)
Definition body (st : state) : exc state :=
  match rest st with
  | [] => Return st
  | c :: tl =>
      if is_delim c then Return (after_delimiter st c tl)
      else
        let '(token, rest') := read_token (rest st) in
        let next_delim := hd_error rest' in
        pill <- decide_pill_type token next_delim ;;
        Return (after_token st token rest' pill)
  end.

(** The loop, [None] when the fuel runs out before the text does. *)
Fixpoint loop (fuel : nat) (st : state) : option (exc state) :=
  match rest st with
  | [] => Some (Return st)
  | _ :: _ =>
      match fuel with
      | O => None
      | S fuel' =>
          match body st with
          | Return st' => loop fuel' st'
          | Raise e => Some (Raise e)
          end
      end
  end.

Definition initial (t : text) : state :=
  {| rest := t; plain_index := 0; result := [];
     caret_attr_index := 0; caret_set := false |}.

(** The lines under "Clamp caret". *)
Definition clamp_caret (st : state) : attributed * Z :=
  let caret := if caret_set st then caret_attr_index st
               else alength (result st) in
  let caret := if (caret >? alength (result st))%Z
               then alength (result st) else caret in
  (result st, caret).

Definition build_input_attributed_with_caret (t : text)
  : option (exc (attributed * Z)) :=
  match loop (length t) (initial t) with
  | None => None
  | Some (Raise e) => Some (Raise e)
  | Some (Return st) => Some (Return (clamp_caret st))
  end.

(** One step of the loop, as a relation between the states at its head. *)
Definition step (st st' : state) : Prop :=
  rest st <> [] /\ body st = Return st'.

Inductive reaches : state -> state -> Prop :=
| reaches_refl : forall st, reaches st st
| reaches_step : forall st st' st'',
    step st st' -> reaches st' st'' -> reaches st st''.

End Render.

(** ** [find_token_range] *)

(** The backward scan: [start] walks left from the caret over [before],
    the characters left of it, nearest first. *)
Fixpoint scan_left (before : text) (in_quotes : bool) (start : nat) : nat :=
  match before, start with
  | c :: before', S start' =>
      if char_eqb c QUOTE then scan_left before' (negb in_quotes) start'
      else if is_delim c && negb in_quotes then start
      else scan_left before' in_quotes start'
  | _, _ => start
  end.

(** The forward scan over [text[end:]]. *)
Fixpoint scan_right (after : text) (in_quotes : bool) (end_ : nat) : nat :=
  match after with
  | [] => end_
  | c :: after' =>
      if char_eqb c QUOTE then scan_right after' (negb in_quotes) (S end_)
      else if is_delim c && negb in_quotes then end_
      else scan_right after' in_quotes (S end_)
  end.

Definition find_token_range (t : text) (caret_index : Z) : nat * nat :=
  let caret_index := if (caret_index <? 0)%Z then 0%Z else caret_index in
  let caret_index := if (caret_index >? len t)%Z then len t else caret_index in
  let caret := Z.to_nat caret_index in
  (scan_left (rev (firstn caret t)) false caret,
   scan_right (skipn caret t) false caret).

(** ** [_plain_text_from_view] *)

(** [piece.endswith((" ", "\n", "\t"))] *)
Definition ends_with_delim (piece : text) : bool :=
  match rev piece with
  | [] => false
  | c :: _ => is_delim c
  end.

(** The body of [for idx, ch in enumerate(raw_str)], where [u] is the
    character [ch] with the attributes [attrs] read for it, [next_char] is
    [raw_str[idx + 1]] if there is one and [pieces] is the list [result]
    of the source. *)
Definition extract_char (pieces : list text) (u : achar)
  (next_char : option achar) : list text :=
  if char_eqb (ch u) OBJ then
    match tag u with
    | None => pieces          (* unknown attachment: [continue] *)
    | Some tag_text =>
        let pieces :=
          match rev pieces with
          | [] => pieces
          | last_piece :: _ =>
              if negb (ends_with_delim last_piece)
              then pieces ++ [[SPACE]] else pieces
          end in
        let pieces := pieces ++ [tag_text] in
        match next_char with
        | Some next_char =>
            if negb (is_delim (ch next_char))
            then pieces ++ [[SPACE]] else pieces
        | None => pieces
        end
    end
  else pieces ++ [[ch u]].

Definition extract_step (storage : attributed) (pieces : list text) (idx : nat)
  : list text :=
  match nth_error storage idx with
  | None => pieces
  | Some u =>
      extract_char pieces (read_at storage idx (ch u))
                   (nth_error storage (idx + 1))
  end.

(** [result] after the first [n] rounds. *)
Definition pieces_after (storage : attributed) (n : nat) : list text :=
  fold_left (extract_step storage) (seq 0 n) [].

(** [str.isspace], which decides what [str.strip()] removes. *)
Definition isspace (c : char) : bool :=
  in_range 9 13 c || in_range 28 32 c || char_eqb c 133%N
  || char_eqb c 160%N || char_eqb c 5760%N || in_range 8192 8202 c
  || char_eqb c 8232%N || char_eqb c 8233%N || char_eqb c 8239%N
  || char_eqb c 8287%N || char_eqb c 12288%N.

Definition strip (s : text) : text :=
  rev (dropwhile isspace (rev (dropwhile isspace s))).

Definition _plain_text_from_view (strip_ends : bool) (storage : attributed)
  : text :=
  let joined := concat (pieces_after storage (length storage)) in
  if strip_ends then strip joined else joined.

(** ** Notions the properties are stated with *)

(** A pill is a character that carries an attachment. *)
Definition is_pill (u : achar) : bool :=
  match attachment u with
  | Some _ => true
  | None => false
  end.

(** The raw texts of the pills of a buffer, in order. *)
Definition pills_of (b : attributed) : list text :=
  flat_map (fun u => if is_pill u
                     then match tag u with Some raw => [raw] | None => [] end
                     else []) b.

Definition plain_char (base : option text) (c : char) : achar :=
  {| ch := c; attachment := None; tag := base |}.

Definition pill_char (raw display : text) : achar :=
  {| ch := OBJ; attachment := Some display; tag := Some raw |}.

(** Every character of the buffer is in the Basic Multilingual Plane, so
    that its UTF-16 units are its characters. *)
Definition bmp_buffer (b : attributed) : bool :=
  forallb (fun u => (ch u <? 65536)%N) b.

(** Every token of the text was recognised: the buffer holds pills and
    delimiters only. *)
Definition only_pills_and_delims (b : attributed) : bool :=
  forallb (fun u => is_pill u || is_delim (ch u)) b.

(** No U+FFFC of the buffer is a plain character. *)
Definition no_plain_placeholder (b : attributed) : bool :=
  forallb (fun u => is_pill u || negb (char_eqb (ch u) OBJ)) b.

(** Every pill opens the buffer or comes right after a plain delimiter;
    [prev_ok] says so of the position the buffer starts at. *)
Fixpoint pills_follow_delims (prev_ok : bool) (b : attributed) : bool :=
  match b with
  | [] => true
  | u :: b' =>
      (if is_pill u then prev_ok else true)
      && pills_follow_delims (negb (is_pill u) && is_delim (ch u)) b'
  end.

(** The extraction loop run over a suffix of the storage, each character
    read with its own attributes. *)
Fixpoint extract_from (pieces : list text) (units : attributed) : list text :=
  match units with
  | [] => pieces
  | u :: units' => extract_from (extract_char pieces u (hd_error units')) units'
  end.

(** The state of a quote toggle that starts in [q], after the characters
    of [s]. *)
Definition quote_state (q : bool) (s : text) : bool :=
  fold_left (fun q c => if char_eqb c QUOTE then negb q else q) s q.

Definition inside_quotes (s : text) : bool := quote_state false s.

(** The shape of what the rendering pass makes of a text: characters
    copied one by one, and tokens that start on a non-delimiter and are
    followed by a delimiter turned into one pill each. *)
Inductive Rendered (base : option text) : text -> attributed -> Prop :=
| Rendered_nil : Rendered base [] []
| Rendered_plain : forall c t b,
    Rendered base t b ->
    Rendered base (c :: t) (plain_char base c :: b)
| Rendered_pill : forall c tok display t b,
    is_delim c = false ->
    in_delims (hd_error t) = true ->
    Rendered base t b ->
    Rendered base ((c :: tok) ++ t) (pill_char (c :: tok) display :: b).

(** The pieces are none yet or end on a delimiter, so that a pill needs
    no space before it. *)
Definition separated (pieces : list text) : bool :=
  match rev pieces with
  | [] => true
  | last_piece :: _ => ends_with_delim last_piece
  end.

(** What holds at the head of the loop: a latched caret lies in the
    rendered buffer and at or before the plain position reached. *)
Definition caret_inv (caret : Z) (st : state) : Prop :=
  (0 <= plain_index st)%Z
  /\ (caret_set st = true ->
      (0 <= caret_attr_index st <= alength (result st))%Z
      /\ (caret <= plain_index st)%Z).

(** ** Sample registries *)

(** A [urllib] whose two unmodelled checks accept everything. *)
Definition lenient_urllib : urllib :=
  {| bracketed_netloc_ok := fun _ => true;
     nfkc_netloc_ok := fun _ => true |}.

(** A plugin in the manner of the file tag: unquoted and quoted paths. *)
Definition file_plugin : plugin :=
  {| get_prefixes := Return [of_string "@/"; of_string "@~"];
     PATH_PREFIXES := [of_string "@/"; of_string "@~";
                       [AT; QUOTE; 47%N]; [AT; QUOTE; 126%N]];
     display_string := fun raw => Return (skipn 1 raw) |}.

Definition url_plugin : plugin :=
  {| get_prefixes := Return [of_string "@http://"; of_string "@https://"];
     PATH_PREFIXES := [];
     display_string := fun raw => Return (skipn 1 raw) |}.

Definition clipboard_plugin : plugin :=
  {| get_prefixes := Return [of_string "@clipboard"];
     PATH_PREFIXES := [];
     display_string := fun _ => Return (of_string "clipboard") |}.

(** A plugin whose label function raises. *)
Definition unlabelled_plugin : plugin :=
  {| get_prefixes := Return [of_string "@window"];
     PATH_PREFIXES := [];
     display_string := fun _ => Raise PluginError |}.

(** A plugin whose prefix accessor raises. *)
Definition broken_plugin : plugin :=
  {| get_prefixes := Raise PluginError;
     PATH_PREFIXES := [];
     display_string := fun _ => Raise PluginError |}.

Definition sample_shortcuts : list text := [of_string "/blog"].

Definition sample_plugins : list plugin :=
  [file_plugin; url_plugin; clipboard_plugin].

(** [@] followed by the quoted string [s]. *)
Definition quoted_tag (s : string) : text :=
  [AT; QUOTE] ++ of_string s ++ [QUOTE].

(** Two states of the loop that differ in the caret only. *)
Definition same_text_state (st1 st2 : state) : Prop :=
  rest st1 = rest st2
  /\ plain_index st1 = plain_index st2
  /\ result st1 = result st2.

(** What two runs of the loop over the same text keep, the caret of the
    first being at least 1 and at most that of the second: a caret of the
    first run that the text read so far covers is latched, and two
    latched carets are in order. *)
Definition caret_order_inv (caret1 caret2 : Z) (st1 st2 : state) : Prop :=
  same_text_state st1 st2
  /\ caret_inv caret1 st1
  /\ caret_inv caret2 st2
  /\ ((1 <= caret1 <= plain_index st1)%Z -> caret_set st1 = true)
  /\ (caret_set st1 = true -> caret_set st2 = true ->
      (caret_attr_index st1 <= caret_attr_index st2)%Z).

(** A text of ASCII characters with no square bracket among them. *)
Definition plain_ascii (s : text) : bool :=
  forallb (fun c => negb (char_eqb c 91%N) && negb (char_eqb c 93%N)
                    && (c <? 128)%N) s.

(** ** Sample texts *)

(** A shortcut, a path, a quoted path, a URL and an exact tag, each
    followed by a delimiter. *)
Definition recognized_text : text :=
  of_string "/blog @/tmp/a.txt" ++ [NEWLINE]
  ++ quoted_tag "~/my file" ++ [TAB]
  ++ of_string "@https://example.com/x?y @clipboard ".

(** A quoted path with a shortcut right after its closing quote. *)
Definition glued_text : text := quoted_tag "/a" ++ of_string "/blog ".

(** A URL tag that is still being typed at the end of the buffer, and the
    state of the loop when its round starts. *)
Definition url_at_end_text : text := of_string "go @http://example.com".

Definition url_at_end_state : state :=
  {| rest := of_string "@http://example.com"; plain_index := 3;
     result := plain_run None (of_string "go ");
     caret_attr_index := 0; caret_set := false |}.

(** [a"b c"] with the space between the two quotes, and a quoted path
    followed by a word. *)
Definition quote_inside_text : text :=
  [97%N; QUOTE] ++ of_string "b c" ++ [QUOTE].

Definition quoted_path_text : text := quoted_tag "my file" ++ of_string " x".

(** ** Sample buffers *)

(** A character, then a quoted path pill and a shortcut pill side by
    side, as the insertion of a suggestion can leave them. *)
Definition adjacent_pills_buffer : attributed :=
  [plain_char None 120%N;
   pill_char (quoted_tag "/a") (of_string "a");
   pill_char (of_string "/blog") (of_string "/blog")].


(** ** [_current_fragment] *)

(** [text_view.string()]: the characters of the storage, a pill being
    U+FFFC. *)
Definition view_string (storage : attributed) : text := map ch storage.

(** The tag fragment before the caret; [cursor] is the location of the
    selection. *)
Definition _current_fragment (full_text : text) (cursor : Z) : text :=
  let cursor := if (cursor >? len full_text)%Z then len full_text
                else if (cursor <? 0)%Z then 0%Z else cursor in
  let cursor := Z.to_nat cursor in
  let start := scan_left (rev (firstn cursor full_text)) false cursor in
  firstn (cursor - start) (skipn start full_text).

(** ** [_caret_on_first_line] *)


(** ** [_insert_tag] *)

(** The two surrogates of a character outside the Basic Multilingual
    Plane. *)
Definition high_surrogate (c : char) : char :=
  (55296 + (c - 65536) / 1024)%N.

Definition low_surrogate (c : char) : char :=
  (56320 + (c - 65536) mod 1024)%N.

Definition with_char (u : achar) (c : char) : achar :=
  {| ch := c; attachment := attachment u; tag := tag u |}.

(** The storage before and from the UTF-16 index [n]; an index inside a
    character leaves one surrogate of it on each side. *)
Fixpoint take_units (n : nat) (storage : attributed) : attributed :=
  match n, storage with
  | O, _ => []
  | _, [] => []
  | S n', u :: storage' =>
      if (utf16_units (ch u) <=? n)%nat
      then u :: take_units (n - utf16_units (ch u)) storage'
      else [with_char u (high_surrogate (ch u))]
  end.

Fixpoint drop_units (n : nat) (storage : attributed) : attributed :=
  match n, storage with
  | O, _ => storage
  | _, [] => []
  | S n', u :: storage' =>
      if (utf16_units (ch u) <=? n)%nat
      then drop_units (n - utf16_units (ch u)) storage'
      else with_char u (low_surrogate (ch u)) :: storage'
  end.

(** The storage and the caret after the fragment before the caret is
    replaced by a pill.  [location] is the location of the selection, in
    UTF-16 units; the source also takes it for the cursor in the Python
    string, and the length of the fragment for a length in UTF-16 units.
    [None] when the range to replace does not lie in the storage, which
    Cocoa refuses.  A tag given as one string is its own label. *)
Definition _insert_tag (storage : attributed) (location : nat)
  (raw_tag display_text : text) : option (attributed * nat) :=
  let fragment := _current_fragment (view_string storage) (Z.of_nat location) in
  let replace_start := (location - length fragment)%nat in
  if (Z.of_nat (replace_start + length fragment) <=? alength storage)%Z then
    Some (take_units replace_start storage
          ++ build_tag_attributed raw_tag display_text
          ++ drop_units (replace_start + length fragment) storage,
          S replace_start)
  else None.

(** ** [_rebuild_buffer_with_pills] *)

(** One round of the loop that counts the plain caret: a pill counts for
    the length of its raw text, any other attachment for nothing. *)
Definition caret_plain_step (caret_plain : Z) (u : achar) : Z :=
  if char_eqb (ch u) OBJ then
    match tag u with
    | Some tag_text =>
        if is_empty tag_text then caret_plain
        else (caret_plain + len tag_text)%Z
    | None => caret_plain
    end
  else (caret_plain + 1)%Z.

(** [caret_plain] for the selection at [location]: the loop over
    [enumerate(raw_str[: rng.location])], where the location of the
    selection, in UTF-16 units, cuts the Python string, and the attributes
    of each character are read at its index in that string. *)
Definition caret_plain_of (storage : attributed) (location : nat) : Z :=
  fold_left (fun caret_plain idx =>
               match nth_error storage idx with
               | Some u =>
                   caret_plain_step caret_plain (read_at storage idx (ch u))
               | None => caret_plain
               end)
            (seq 0 location) 0%Z.

(** The attributed string and the caret that the rebuild puts in the
    view whose storage and selection are given. *)
Definition _rebuild_buffer_with_pills (lib : urllib)
  (typing_attrs : option typing_attributes) (shortcuts : list text)
  (plugins : list plugin) (storage : attributed) (location : nat)
  : option (exc (attributed * Z)) :=
  let plain := _plain_text_from_view false storage in
  let caret_plain := caret_plain_of storage location in
  build_input_attributed_with_caret lib typing_attrs shortcuts plugins
    caret_plain plain.

(** ** [render_text_with_pills] *)

(** [make_pill_attachment]: the attachment alone, with no raw text. *)
Definition make_pill_attachment (label_text : text) : achar :=
  {| ch := OBJ; attachment := Some label_text; tag := None |}.

Record hstate : Type := {
  h_i : nat;
  h_result : attributed
}.

Section History.

Variable shortcuts : list text.
Variable plugins : list plugin.
Variable t : text.

(** One round of the [while i < len(text)] loop of the history view. *)
Definition history_body (st : hstate) : exc hstate :=
  let '(normal_prefixes, path_like, _prefix_only) :=
    _collect_prefixes plugins in
  match nth_error t (h_i st) with
  | None => Return st
  | Some c =>
      if is_delim c then
        Return {| h_i := S (h_i st);
                  h_result := h_result st ++ plain_run None [c] |}
      else
        let '(start, end_) := find_token_range t (Z.of_nat (h_i st)) in
        let token := firstn (end_ - start) (skipn start t) in
        if text_in token shortcuts then
          Return {| h_i := end_;
                    h_result := h_result st ++ [make_pill_attachment token] |}
        else if startswith [AT] token
                && (any_startswith token normal_prefixes
                    || any_startswith token path_like) then
          disp <- display_string_for_tag token plugins ;;
          Return {| h_i := end_;
                    h_result := h_result st ++ [make_pill_attachment disp] |}
        else
          Return {| h_i := end_;
                    h_result := h_result st ++ plain_run None token |}
  end.

Fixpoint history_loop (fuel : nat) (st : hstate) : option (exc hstate) :=
  if (h_i st <? length t)%nat then
    match fuel with
    | O => None
    | S fuel' =>
        match history_body st with
        | Return st' => history_loop fuel' st'
        | Raise e => Some (Raise e)
        end
    end
  else Some (Return st).

Definition render_text_with_pills : option (exc attributed) :=
  match history_loop (length t) {| h_i := 0; h_result := [] |} with
  | None => None
  | Some (Raise e) => Some (Raise e)
  | Some (Return st) => Some (Return (h_result st))
  end.

End History.

(** ** Notions the further properties are stated with *)

(** The plain length of the first [n] characters of a buffer: a pill
    counts for the length of its raw text, another attachment for nothing
    and any other character for one. *)
Definition plain_before (b : attributed) (n : nat) : Z :=
  fold_left caret_plain_step (firstn n b) 0%Z.

(** The characters of a buffer with each pill replaced by its raw text. *)
Definition expand (b : attributed) : text :=
  flat_map (fun u => if is_pill u
                     then match tag u with Some raw => raw | None => [] end
                     else [ch u]) b.

(** Neither a delimiter nor a double quote. *)
Definition is_word_char (c : char) : bool :=
  negb (is_delim c) && negb (char_eqb c QUOTE).

(** The shape of what the history view makes of a text: characters
    copied one by one, and tokens that start on a character that is no
    delimiter and end at the end of the text or before a delimiter, each
    shown as one attachment that stores no raw text.  Such a token is a
    shortcut, shown under its own text, or starts with [@] and is shown
    under the label the plugins give it. *)
Inductive Shown (shortcuts : list text) (plugins : list plugin)
  : text -> attributed -> Prop :=
| Shown_nil : Shown shortcuts plugins [] []
| Shown_plain : forall c t b,
    Shown shortcuts plugins t b ->
    Shown shortcuts plugins (c :: t) (plain_char None c :: b)
| Shown_pill : forall c tok label t b,
    is_delim c = false ->
    (t = [] \/ in_delims (hd_error t) = true) ->
    (text_in (c :: tok) shortcuts = true /\ label = c :: tok)
    \/ (startswith [AT] (c :: tok) = true
        /\ display_string_for_tag (c :: tok) plugins = Return label) ->
    Shown shortcuts plugins t b ->
    Shown shortcuts plugins ((c :: tok) ++ t)
          (make_pill_attachment label :: b).

(** Every shortcut holds a character that the text does not hold, so that
    no part of the text is a shortcut. *)
Definition no_shortcut_fits (shortcuts : list text) (t : text) : bool :=
  forallb (fun s => existsb (fun c => negb (char_in c t)) s) shortcuts.

(** The index [i] is where a token of [t] can start or end: at an end of
    the text, right after a delimiter or on one. *)
Definition at_boundary (t : text) (i : nat) : Prop :=
  i = 0%nat
  \/ (exists pre d, firstn i t = pre ++ [d] /\ is_delim d = true)
  \/ (length t <= i)%nat
  \/ (exists d, nth_error t i = Some d /\ is_delim d = true).

(** ** Further sample buffers *)


(** Typed text with the caret to be put right after the fragment [@cl]. *)
Definition typed_fragment_buffer : attributed :=
  plain_run None (of_string "hi @cl x").

(** * Properties *)

(** ** Characters, strings and tokens *)

Lemma char_eqb_eq : forall a b, char_eqb a b = true <-> a = b.
Proof. intros a b. unfold char_eqb. apply N.eqb_eq. Qed.

Lemma read_quoted_app : forall s tok r, read_quoted s = (tok, r) -> s = tok ++ r.
Proof.
  induction s as [|c s IH]; simpl; intros tok r H.
  - inversion H. reflexivity.
  - destruct (char_eqb c QUOTE).
    + inversion H. reflexivity.
    + destruct (read_quoted s) as [tok' r'] eqn:E.
      inversion H; subst. simpl. f_equal. apply IH. reflexivity.
Qed.

Lemma read_plain_app : forall s tok r, read_plain s = (tok, r) -> s = tok ++ r.
Proof.
  induction s as [|c s IH]; simpl; intros tok r H.
  - inversion H. reflexivity.
  - destruct (is_delim c).
    + inversion H. reflexivity.
    + destruct (read_plain s) as [tok' r'] eqn:E.
      inversion H; subst. simpl. f_equal. apply IH. reflexivity.
Qed.

Lemma read_token_app : forall s tok r, read_token s = (tok, r) -> s = tok ++ r.
Proof.
  intros s tok r H. unfold read_token in H.
  destruct s as [|a [|q s']]; try (apply read_plain_app; exact H).
  destruct (char_eqb a AT && char_eqb q QUOTE) eqn:E.
  - destruct (read_quoted s') as [tok' r'] eqn:Eq.
    inversion H; subst. simpl. do 2 f_equal. apply read_quoted_app. exact Eq.
  - apply read_plain_app. exact H.
Qed.

(** A token that starts on a non-delimiter holds that character. *)
Lemma read_token_head : forall c s tok r,
  is_delim c = false -> read_token (c :: s) = (tok, r) ->
  exists tok', tok = c :: tok'.
Proof.
  intros c s tok r Hc H. unfold read_token in H.
  assert (Hp : forall tok r, read_plain (c :: s) = (tok, r) ->
                             exists tok', tok = c :: tok').
  { intros tok0 r0 H0. simpl in H0. rewrite Hc in H0.
    destruct (read_plain s) as [tok' r'].
    inversion H0. eauto. }
  destruct s as [|q s']; [apply Hp with r; exact H|].
  destruct (char_eqb c AT && char_eqb q QUOTE).
  - destruct (read_quoted s') as [tok' r']. inversion H. eauto.
  - apply Hp with r. exact H.
Qed.

(** ** The label of a tag *)

(** [display_string_for_tag] returns whatever the plugins do. *)
Lemma display_string_for_tag_returns : forall raw_tag plugins,
  exists label, display_string_for_tag raw_tag plugins = Return label.
Proof.
  intros raw_tag plugins. induction plugins as [|p plugins IH]; simpl.
  - eauto.
  - destruct (matched raw_tag p); [|exact IH].
    destruct (display_string p raw_tag); simpl; eauto.
Qed.

(** Plugins that do not match are passed over. *)
Lemma display_string_for_tag_skip : forall raw_tag skipped plugins,
  forallb (fun p => negb (matched raw_tag p)) skipped = true ->
  display_string_for_tag raw_tag (skipped ++ plugins)
  = display_string_for_tag raw_tag plugins.
Proof.
  intros raw_tag skipped plugins. induction skipped as [|p skipped IH]; simpl.
  - reflexivity.
  - intros H. apply andb_prop in H. destruct H as [Hp Hs].
    apply negb_true_iff in Hp. rewrite Hp. apply IH. exact Hs.
Qed.

(** ** The rendering pass, step by step *)

Section RenderFacts.

Variable lib : urllib.
Variable typing_attrs : option typing_attributes.
Variable shortcuts : list text.
Variable plugins : list plugin.
Variable caret : Z.

Let decide := decide_pill_type lib shortcuts plugins.
Let body' := body lib typing_attrs shortcuts plugins caret.
Let loop' := loop lib typing_attrs shortcuts plugins caret.
Let reaches' := reaches lib typing_attrs shortcuts plugins caret.
Let base := base_attrs typing_attrs.

(** [urlparse] raises nothing but [ValueError]. *)
Lemma urlparse_error : forall url e,
  urlparse lib url = Raise e -> e = ValueError.
Proof.
  intros url e. unfold urlparse.
  match goal with
  | |- context [let '(a, b) := ?x in _] => destruct x as [sch u]
  end.
  repeat (match goal with
          | |- context [if ?b then _ else _] => destruct b
          end; cbn [bind]); congruence.
Qed.

Lemma token_is_url_tag_error : forall tok e,
  token_is_url_tag lib tok = Raise e -> e = ValueError.
Proof.
  intros tok e. unfold token_is_url_tag.
  destruct (negb _); [congruence|].
  destruct (urlparse lib (tl tok)) as [parsed|e'] eqn:E; cbn [bind];
    [congruence|].
  intros H. inversion H; subst. eapply urlparse_error. exact E.
Qed.

(** A pill stores the token itself and is made only before a delimiter. *)
Lemma decide_pill_type_some : forall token next_delim raw display,
  decide token next_delim = Return (Some (raw, display)) ->
  raw = token /\ in_delims next_delim = true.
Proof.
  intros token next_delim raw display. unfold decide, decide_pill_type.
  destruct (_collect_prefixes plugins) as [[normal path] ponly].
  destruct (in_delims next_delim).
  - intros H. split; [|reflexivity].
    destruct (text_in token shortcuts && true); [congruence|].
    destruct (startswith [AT] token); [|congruence].
    destruct (display_string_for_tag_returns token plugins) as [d Hd].
    rewrite Hd in H. simpl in H.
    destruct (text_in token normal && negb (text_in token ponly) && true);
      [congruence|].
    destruct (token_is_url_tag lib token) as [u|]; simpl in H; [|congruence].
    destruct (u && true); [congruence|].
    destruct (any_startswith token path && true); congruence.
  - rewrite !andb_false_r.
    destruct (startswith [AT] token); [|congruence].
    destruct (token_is_url_tag lib token) as [u|]; simpl; [|congruence].
    rewrite andb_false_r. congruence.
Qed.

(** No exception of a plugin leaves the decision. *)
Lemma decide_pill_type_error : forall token next_delim e,
  decide token next_delim = Raise e -> e = ValueError.
Proof.
  intros token next_delim e. unfold decide, decide_pill_type.
  destruct (_collect_prefixes plugins) as [[normal path] ponly].
  destruct (display_string_for_tag_returns token plugins) as [d Hd].
  rewrite Hd. cbn [bind].
  destruct (text_in token shortcuts && in_delims next_delim); [congruence|].
  destruct (startswith [AT] token); [|congruence].
  destruct (text_in token normal && negb (text_in token ponly)
            && in_delims next_delim); [congruence|].
  destruct (token_is_url_tag lib token) as [u|e'] eqn:Eu; cbn [bind].
  - destruct (u && in_delims next_delim); [congruence|].
    destruct (any_startswith token path && in_delims next_delim); congruence.
  - intros H. inversion H; subst. eapply token_is_url_tag_error. exact Eu.
Qed.

(** The two ways a round of the loop ends normally. *)
Lemma body_cases : forall st c tl st',
  rest st = c :: tl ->
  body' st = Return st' ->
  (is_delim c = true /\ st' = after_delimiter typing_attrs caret st c tl)
  \/ (is_delim c = false /\
      exists token rest' pill,
        read_token (rest st) = (token, rest')
        /\ decide token (hd_error rest') = Return pill
        /\ st' = after_token typing_attrs caret st token rest' pill).
Proof.
  intros st c tl st' Hr H. unfold body', body in H. rewrite Hr in H.
  destruct (is_delim c) eqn:Hc.
  - left. split; [reflexivity|]. congruence.
  - right. split; [reflexivity|]. rewrite <- Hr in H.
    destruct (read_token (rest st)) as [token rest'] eqn:Et.
    exists token, rest'.
    fold decide in H.
    destruct (decide token (hd_error rest')) as [pill|] eqn:Ed;
      simpl in H; [|congruence].
    exists pill. repeat split. congruence.
Qed.

(** Every round reads at least one character. *)
Lemma body_progress : forall st c tl st',
  rest st = c :: tl -> body' st = Return st' ->
  (length (rest st') < length (rest st))%nat.
Proof.
  intros st c tl st' Hr H.
  destruct (body_cases _ _ _ _ Hr H) as [[Hc ->]|[Hc (token & rest' & pill & Ht & _ & ->)]].
  - rewrite Hr. simpl. lia.
  - pose proof (read_token_app _ _ _ Ht) as Happ.
    rewrite Hr in Ht. destruct (read_token_head _ _ _ _ Hc Ht) as [tok' ->].
    rewrite Happ. destruct pill as [[raw display]|]; simpl;
      rewrite length_app; simpl; lia.
Qed.

(** With as much fuel as characters the loop runs to its end. *)
Lemma loop_fuel : forall fuel st,
  (length (rest st) <= fuel)%nat -> loop' fuel st <> None.
Proof.
  induction fuel as [|fuel IH]; intros st Hlen; unfold loop'; simpl.
  - destruct (rest st); [discriminate|simpl in Hlen; lia].
  - destruct (rest st) as [|c tl] eqn:Hr; [discriminate|].
    fold body'. destruct (body' st) as [st'|e] eqn:Hb; [|discriminate].
    apply IH. pose proof (body_progress _ _ _ _ Hr Hb) as Hp.
    rewrite Hr in Hp. simpl in *. lia.
Qed.

(** What the loop returns was reached step by step, with nothing left. *)
Lemma loop_reaches : forall fuel st stf,
  loop' fuel st = Some (Return stf) -> reaches' st stf /\ rest stf = [].
Proof.
  induction fuel as [|fuel IH]; intros st stf; unfold loop'; simpl.
  - destruct (rest st) eqn:Hr; [|discriminate].
    intros H. inversion H; subst. split; [constructor | exact Hr].
  - destruct (rest st) as [|c tl] eqn:Hr.
    + intros H. inversion H; subst. split; [constructor | exact Hr].
    + fold body'. destruct (body' st) as [st'|e] eqn:Hb; [|discriminate].
      intros H. destruct (IH _ _ H) as [Hreach Hnil].
      split; [|exact Hnil].
      eapply reaches_step; [|exact Hreach].
      split; [rewrite Hr; discriminate | exact Hb].
Qed.

(** The steps are those of a function: a state on the way to the end of
    the loop leads there too. *)
Lemma reaches_confluent : forall st0 st stf,
  reaches' st0 st -> reaches' st0 stf -> rest stf = [] -> reaches' st stf.
Proof.
  intros st0 st stf H. revert stf.
  induction H as [st|st st' st'' [Hne Hb] Hr IH]; intros stf Hf Hnil.
  - exact Hf.
  - apply IH; [|exact Hnil].
    inversion Hf as [|a b c0 [Hne' Hb'] Hr']; subst.
    + contradiction.
    + assert (b = st') by congruence. subst. exact Hr'.
Qed.

End RenderFacts.

(** ** The caret during the pass *)

Section CaretFacts.

Variable lib : urllib.
Variable typing_attrs : option typing_attributes.
Variable shortcuts : list text.
Variable plugins : list plugin.
Variable caret : Z.

Let step' := step lib typing_attrs shortcuts plugins caret.
Let reaches' := reaches lib typing_attrs shortcuts plugins caret.
Let build := build_input_attributed_with_caret lib typing_attrs shortcuts
               plugins caret.

Lemma utf16_units_bounds : forall c, (1 <= utf16_units c <= 2)%nat.
Proof. intros c. unfold utf16_units. destruct (c <? 65536)%N; lia. Qed.

Lemma alength_cons : forall u a,
  alength (u :: a) = (Z.of_nat (utf16_units (ch u)) + alength a)%Z.
Proof.
  intros u a. unfold alength, utf16_length. cbn [map list_sum].
  apply Nat2Z.inj_add.
Qed.

Lemma alength_app : forall a b, alength (a ++ b) = (alength a + alength b)%Z.
Proof.
  intros a b. induction a as [|u a IH]; [reflexivity|].
  cbn [app]. rewrite !alength_cons, IH. lia.
Qed.

Lemma alength_nonneg : forall a, (0 <= alength a)%Z.
Proof. intros a. unfold alength. lia. Qed.

(** A buffer has at least as many UTF-16 units as characters, and as many
    when its characters are in the Basic Multilingual Plane. *)
Lemma alength_ge_length : forall a, (Z.of_nat (length a) <= alength a)%Z.
Proof.
  induction a as [|u a IH]; [reflexivity|].
  rewrite alength_cons. pose proof (utf16_units_bounds (ch u)).
  cbn [length]. lia.
Qed.

Lemma alength_bmp : forall a,
  bmp_buffer a = true -> alength a = Z.of_nat (length a).
Proof.
  induction a as [|u a IH]; intros H; [reflexivity|].
  cbn [bmp_buffer forallb] in H. apply andb_prop in H. destruct H as [Hu Ha].
  rewrite alength_cons, (IH Ha). unfold utf16_units. rewrite Hu.
  cbn [length]. lia.
Qed.

Lemma bmp_buffer_app : forall a b,
  bmp_buffer (a ++ b) = bmp_buffer a && bmp_buffer b.
Proof. intros a b. apply forallb_app. Qed.

Lemma bmp_prefix : forall a b, bmp_buffer (a ++ b) = true -> bmp_buffer a = true.
Proof.
  intros a b H. rewrite bmp_buffer_app in H. apply andb_prop in H. apply H.
Qed.

Lemma bmp_suffix : forall a b, bmp_buffer (a ++ b) = true -> bmp_buffer b = true.
Proof.
  intros a b H. rewrite bmp_buffer_app in H. apply andb_prop in H. apply H.
Qed.

Lemma alength_plain_run_ge : forall b s,
  (len s <= alength (plain_run b s))%Z.
Proof.
  intros b s. pose proof (alength_ge_length (plain_run b s)) as H.
  unfold plain_run in H at 1. rewrite length_map in H. exact H.
Qed.

Lemma alength_plain_run : forall b s,
  bmp_buffer (plain_run b s) = true -> alength (plain_run b s) = len s.
Proof.
  intros b s H. rewrite (alength_bmp _ H). unfold plain_run, len.
  rewrite length_map. reflexivity.
Qed.

Lemma is_delim_bmp : forall c, is_delim c = true -> (c <? 65536)%N = true.
Proof.
  intros c H. unfold is_delim in H.
  apply orb_prop in H. destruct H as [H|H];
    [apply orb_prop in H; destruct H as [H|H]|];
    apply char_eqb_eq in H; subst; reflexivity.
Qed.

Lemma alength_delimiter : forall b c,
  is_delim c = true -> alength (plain_run b [c]) = 1%Z.
Proof.
  intros b c H. apply alength_plain_run. cbn [plain_run map bmp_buffer forallb ch].
  rewrite (is_delim_bmp _ H). reflexivity.
Qed.

Lemma alength_pill : forall raw display,
  alength (build_tag_attributed raw display) = 1%Z.
Proof. reflexivity. Qed.

Lemma len_nonneg : forall s, (0 <= len s)%Z.
Proof. intros s. unfold len. lia. Qed.

Lemma caret_inv_initial : forall t, caret_inv caret (initial t).
Proof. intros t. split; simpl; [lia | discriminate]. Qed.

Lemma caret_inv_step : forall st st',
  step' st st' -> caret_inv caret st -> caret_inv caret st'.
Proof.
  intros st st' [Hne Hb] [Hp Hc].
  destruct (rest st) as [|c tl] eqn:Hr; [contradiction|].
  pose proof (alength_nonneg (result st)) as Hlen.
  destruct (body_cases _ _ _ _ _ _ _ _ _ Hr Hb)
    as [[Hd ->]|[_ (token & rest' & pill & _ & _ & ->)]].
  - unfold after_delimiter, append_plain, caret_inv; cbn [plain_index result caret_attr_index caret_set].
    rewrite alength_app, (alength_delimiter _ _ Hd).
    split; [lia|].
    destruct (caret_set st); cbn [negb andb].
    + intros _. destruct (Hc eq_refl). lia.
    + destruct (caret =? plain_index st + 1)%Z eqn:E; [|discriminate].
      apply Z.eqb_eq in E. intros _. lia.
  - pose proof (len_nonneg token) as Htok.
    pose proof (alength_plain_run_ge (base_attrs typing_attrs) token) as Hrun.
    destruct pill as [[raw display]|];
      unfold after_token, append_plain, caret_inv;
      cbn [plain_index result caret_attr_index caret_set];
      rewrite alength_app; try rewrite alength_pill;
      (split; [lia|]);
      (destruct (caret_set st); cbn [negb andb];
       [ intros _; destruct (Hc eq_refl); lia
       | destruct (plain_index st <=? caret)%Z eqn:E1; cbn [andb];
           [|discriminate];
         destruct (caret <=? plain_index st + len token)%Z eqn:E2;
           [|discriminate];
         apply Z.leb_le in E1; apply Z.leb_le in E2; intros _; lia ]).
Qed.

Lemma caret_inv_reaches : forall st st',
  reaches' st st' -> caret_inv caret st -> caret_inv caret st'.
Proof.
  intros st st' H. induction H as [st|st st' st'' Hs Hr IH]; intros Hi.
  - exact Hi.
  - apply IH. eapply caret_inv_step; eassumption.
Qed.

(** A latched caret is not moved, and the buffer only grows. *)
Lemma step_keeps : forall st st',
  step' st st' ->
  (exists b, result st' = result st ++ b)
  /\ (caret_set st = true ->
      caret_set st' = true /\ caret_attr_index st' = caret_attr_index st).
Proof.
  intros st st' [Hne Hb].
  destruct (rest st) as [|c tl] eqn:Hr; [contradiction|].
  destruct (body_cases _ _ _ _ _ _ _ _ _ Hr Hb)
    as [[_ ->]|[_ (token & rest' & pill & _ & _ & ->)]].
  - unfold after_delimiter, append_plain; simpl. split; [eauto|].
    intros ->. simpl. auto.
  - destruct pill as [[raw display]|]; unfold after_token, append_plain; simpl;
      (split; [eauto|]); intros ->; simpl; auto.
Qed.

Lemma reaches_keeps : forall st st',
  reaches' st st' ->
  (exists b, result st' = result st ++ b)
  /\ (caret_set st = true ->
      caret_set st' = true /\ caret_attr_index st' = caret_attr_index st).
Proof.
  intros st st' H. induction H as [st|st st' st'' Hs Hr IH].
  - split; [exists []; rewrite app_nil_r; reflexivity | auto].
  - destruct (step_keeps _ _ Hs) as [[b1 Hb1] Hk1].
    destruct IH as [[b2 Hb2] Hk2]. split.
    + exists (b1 ++ b2). rewrite Hb2, Hb1, app_assoc. reflexivity.
    + intros Hset. destruct (Hk1 Hset) as [Hs' Hi'].
      destruct (Hk2 Hs') as [Hs'' Hi'']. split; congruence.
Qed.

(** What [build_input_attributed_with_caret] returns is the clamped caret
    of the state the loop ends in. *)
Lemma build_returns : forall t buf idx,
  build t = Some (Return (buf, idx)) ->
  exists stf, reaches' (initial t) stf /\ rest stf = []
              /\ clamp_caret stf = (buf, idx).
Proof.
  intros t buf idx. unfold build, build_input_attributed_with_caret.
  destruct (loop lib typing_attrs shortcuts plugins caret (length t) (initial t))
    as [[stf|e]|] eqn:El; try discriminate.
  intros H. exists stf.
  destruct (loop_reaches _ _ _ _ _ _ _ _ El) as [Hr Hn].
  repeat split; [exact Hr | exact Hn | congruence].
Qed.

(** The pass never runs out of fuel. *)
Lemma build_terminates : forall t, build t <> None.
Proof.
  intros t. unfold build, build_input_attributed_with_caret.
  pose proof (loop_fuel lib typing_attrs shortcuts plugins caret
                (length t) (initial t)) as H.
  destruct (loop lib typing_attrs shortcuts plugins caret (length t) (initial t))
    as [[stf|e]|]; try discriminate.
  exfalso. apply H; simpl; auto.
Qed.

(** A returned caret lies in the rendered buffer. *)
Lemma build_caret_in_range : forall t buf idx,
  build t = Some (Return (buf, idx)) -> (0 <= idx <= alength buf)%Z.
Proof.
  intros t buf idx H.
  destruct (build_returns _ _ _ H) as (stf & Hr & _ & Hc).
  pose proof (caret_inv_reaches _ _ Hr (caret_inv_initial t)) as [_ Hi].
  unfold clamp_caret in Hc. inversion Hc; subst. clear Hc.
  pose proof (alength_nonneg (result stf)).
  destruct (caret_set stf).
  - destruct (Hi eq_refl) as [Hb _].
    destruct (caret_attr_index stf >? alength (result stf))%Z; lia.
  - destruct (alength (result stf) >? alength (result stf))%Z; lia.
Qed.

(** No exception of a plugin leaves the pass. *)
Lemma build_error : forall t e,
  build t = Some (Raise e) -> e = ValueError.
Proof.
  intros t e. unfold build, build_input_attributed_with_caret.
  generalize (initial t) as st. generalize (length t) as fuel.
  induction fuel as [|fuel IH]; intros st; simpl.
  - destruct (rest st); discriminate.
  - destruct (rest st) as [|c tl] eqn:Hr; [discriminate|].
    destruct (body lib typing_attrs shortcuts plugins caret st) as [st'|e']
      eqn:Hb.
    + apply IH.
    + intros H. inversion H; subst. clear H.
      unfold body in Hb. rewrite Hr in Hb.
      destruct (is_delim c); [discriminate|]. rewrite <- Hr in Hb.
      destruct (read_token (rest st)) as [token rest'].
      destruct (decide_pill_type lib shortcuts plugins token (hd_error rest'))
        as [pill|e''] eqn:Ed; cbn [bind] in Hb; [discriminate|].
      inversion Hb; subst. eapply decide_pill_type_error. exact Ed.
Qed.

End CaretFacts.

(** ** The shape of the rendered buffer *)

Lemma Rendered_plain_run : forall base s t b,
  Rendered base t b -> Rendered base (s ++ t) (plain_run base s ++ b).
Proof.
  intros base. induction s as [|c s IH]; intros t b H; simpl.
  - exact H.
  - apply Rendered_plain. apply IH. exact H.
Qed.

(** A rendering of a text that starts on a delimiter starts with it. *)
Lemma Rendered_delim_head : forall base t b,
  Rendered base t b -> in_delims (hd_error t) = true ->
  exists d b', is_delim d = true /\ b = plain_char base d :: b'.
Proof.
  intros base t b H Hd. destruct H as [|c t b H|c tok display t b Hc Hn H].
  - discriminate.
  - simpl in Hd. eauto.
  - simpl in Hd. congruence.
Qed.

Section ShapeFacts.

Variable lib : urllib.
Variable typing_attrs : option typing_attributes.
Variable shortcuts : list text.
Variable plugins : list plugin.
Variable caret : Z.

Let reaches' := reaches lib typing_attrs shortcuts plugins caret.
Let build := build_input_attributed_with_caret lib typing_attrs shortcuts
               plugins caret.
Let base := base_attrs typing_attrs.

(** From any state on, the loop appends a rendering of the unread text. *)
Lemma reaches_rendered : forall st stf,
  reaches' st stf -> rest stf = [] ->
  exists b, result stf = result st ++ b /\ Rendered base (rest st) b.
Proof.
  intros st stf H. induction H as [st|st st' st'' [Hne Hb] Hr IH]; intros Hnil.
  - exists []. rewrite app_nil_r, Hnil. split; [reflexivity | constructor].
  - destruct (IH Hnil) as (b' & Hres & Hshape). clear IH.
    destruct (rest st) as [|c tl] eqn:Hrest; [contradiction|].
    destruct (body_cases _ _ _ _ _ _ _ _ _ Hrest Hb)
      as [[Hc ->]|[Hc (token & rest' & pill & Ht & Hd & ->)]].
    + exists (plain_char base c :: b'). split.
      * rewrite Hres. unfold after_delimiter, append_plain. simpl.
        rewrite <- app_assoc. reflexivity.
      * apply Rendered_plain. exact Hshape.
    + pose proof (read_token_app _ _ _ Ht) as Happ.
      rewrite Hrest in Ht, Happ. rewrite Happ.
      destruct (read_token_head _ _ _ _ Hc Ht) as [tok' ->].
      destruct pill as [[raw display]|].
      * destruct (decide_pill_type_some _ _ _ _ _ _ _ Hd) as [-> Hnext].
        exists (pill_char (c :: tok') display :: b'). split.
        -- rewrite Hres. unfold after_token, build_tag_attributed. simpl.
           rewrite <- app_assoc. reflexivity.
        -- apply Rendered_pill; assumption.
      * exists (plain_run base (c :: tok') ++ b'). split.
        -- rewrite Hres. unfold after_token, append_plain.
           cbn [result]. rewrite <- app_assoc. reflexivity.
        -- apply Rendered_plain_run. exact Hshape.
Qed.

Lemma build_rendered : forall t buf idx,
  build t = Some (Return (buf, idx)) -> Rendered base t buf.
Proof.
  intros t buf idx H.
  destruct (build_returns _ _ _ _ _ _ _ _ H) as (stf & Hr & Hnil & Hc).
  destruct (reaches_rendered _ _ Hr Hnil) as (b & Hres & Hshape).
  unfold clamp_caret in Hc. inversion Hc; subst. rewrite Hres. exact Hshape.
Qed.

End ShapeFacts.

(** ** The extraction, unit by unit *)

(** In front of the index, characters of the Basic Multilingual Plane
    only: the attributes read at the index of a character are its own. *)
Lemma attributes_at_bmp : forall storage idx,
  bmp_buffer (firstn idx storage) = true ->
  attributes_at storage idx = nth_error storage idx.
Proof.
  induction storage as [|u storage IH]; intros idx H.
  - destruct idx; reflexivity.
  - destruct idx as [|idx]; cbn [attributes_at nth_error].
    + pose proof (utf16_units_bounds (ch u)).
      destruct (Nat.ltb_spec 0 (utf16_units (ch u))); [reflexivity | lia].
    + cbn [firstn bmp_buffer forallb] in H. apply andb_prop in H.
      destruct H as [Hu Hrest]. unfold utf16_units. rewrite Hu.
      cbn [Nat.ltb Nat.leb]. rewrite Nat.sub_succ, Nat.sub_0_r.
      apply IH. exact Hrest.
Qed.

(** The index of a character is an index of the storage in UTF-16 units
    too: the look-up of a round of the extraction does not raise. *)
Lemma attributes_at_in_range : forall storage idx,
  (idx < length storage)%nat -> attributes_at storage idx <> None.
Proof.
  induction storage as [|u storage IH]; intros idx H; [simpl in H; lia|].
  cbn [attributes_at]. pose proof (utf16_units_bounds (ch u)).
  destruct (Nat.ltb_spec idx (utf16_units (ch u))); [discriminate|].
  apply IH. cbn [length] in H. lia.
Qed.

Lemma bmp_firstn : forall n b,
  bmp_buffer b = true -> bmp_buffer (firstn n b) = true.
Proof.
  intros n b H. rewrite <- (firstn_skipn n b) in H.
  apply (bmp_prefix _ _ H).
Qed.

Lemma read_at_bmp : forall storage idx u,
  bmp_buffer (firstn idx storage) = true ->
  nth_error storage idx = Some u ->
  read_at storage idx (ch u) = u.
Proof.
  intros storage idx u H Hu. unfold read_at.
  rewrite (attributes_at_bmp _ _ H), Hu. destruct u; reflexivity.
Qed.

Lemma extract_step_bmp : forall storage pieces idx,
  bmp_buffer (firstn idx storage) = true ->
  extract_step storage pieces idx
  = match nth_error storage idx with
    | None => pieces
    | Some u => extract_char pieces u (nth_error storage (idx + 1))
    end.
Proof.
  intros storage pieces idx H. unfold extract_step.
  destruct (nth_error storage idx) as [u|] eqn:Hu; [|reflexivity].
  rewrite (read_at_bmp _ _ _ H Hu). reflexivity.
Qed.

Lemma extract_step_shift : forall pre units pieces,
  bmp_buffer (pre ++ units) = true ->
  fold_left (extract_step (pre ++ units))
            (seq (length pre) (length units)) pieces
  = extract_from pieces units.
Proof.
  intros pre units. revert pre.
  induction units as [|u units IH]; intros pre pieces Hbmp; simpl.
  - reflexivity.
  - rewrite (extract_step_bmp _ _ _ (bmp_firstn _ _ Hbmp)).
    replace (pre ++ u :: units) with ((pre ++ [u]) ++ units) in *
      by (rewrite <- app_assoc; reflexivity).
    replace (S (length pre)) with (length (pre ++ [u]))
      by (rewrite length_app; simpl; lia).
    rewrite (IH _ _ Hbmp). f_equal.
    rewrite <- app_assoc. simpl.
    rewrite nth_error_app2 by lia. rewrite Nat.sub_diag. simpl.
    rewrite nth_error_app2 by lia.
    replace (length pre + 1 - length pre)%nat with 1%nat by lia.
    simpl. destruct units; reflexivity.
Qed.

Lemma pieces_after_all : forall storage,
  bmp_buffer storage = true ->
  pieces_after storage (length storage) = extract_from [] storage.
Proof.
  intros storage H. unfold pieces_after.
  apply (extract_step_shift [] storage [] H).
Qed.

Lemma is_delim_not_OBJ : forall c, is_delim c = true -> char_eqb c OBJ = false.
Proof.
  intros c H. unfold is_delim in H.
  apply orb_prop in H. destruct H as [H|H];
    [apply orb_prop in H; destruct H as [H|H]|];
    apply char_eqb_eq in H; subst; reflexivity.
Qed.

Lemma separated_snoc : forall pieces piece,
  separated (pieces ++ [piece]) = ends_with_delim piece.
Proof.
  intros pieces piece. unfold separated. rewrite rev_app_distr. reflexivity.
Qed.

(** Where no placeholder is plain and every pill follows a delimiter, the
    extraction writes the text back. *)
Lemma extract_rendered : forall base t b,
  Rendered base t b ->
  no_plain_placeholder b = true ->
  forall prev pieces,
    pills_follow_delims prev b = true ->
    (prev = true -> separated pieces = true) ->
    concat (extract_from pieces b) = concat pieces ++ t.
Proof.
  intros base t b H.
  induction H as [|c t b H IH|c tok display t b Hc Hn H IH];
    intros Hclean prev pieces Hpf Hsep.
  - simpl. rewrite app_nil_r. reflexivity.
  - simpl in Hclean, Hpf. apply andb_prop in Hclean. destruct Hclean as [Hu Hclean].
    apply negb_true_iff in Hu.
    cbn [extract_from]. unfold extract_char. cbn [ch plain_char].
    rewrite Hu.
    rewrite (IH Hclean (is_delim c) (pieces ++ [[c]])).
    + rewrite concat_app. simpl. rewrite <- app_assoc. reflexivity.
    + exact Hpf.
    + intros Hd. rewrite separated_snoc. unfold ends_with_delim. simpl. exact Hd.
  - simpl in Hclean, Hpf. apply andb_prop in Hpf. destruct Hpf as [Hprev Hpf].
    cbn [extract_from]. unfold extract_char.
    cbn [ch tag pill_char].
    replace (char_eqb OBJ OBJ) with true by reflexivity.
    assert (Hlead : match rev pieces with
                    | [] => pieces
                    | last_piece :: _ =>
                        if negb (ends_with_delim last_piece)
                        then pieces ++ [[SPACE]] else pieces
                    end = pieces).
    { specialize (Hsep Hprev). unfold separated in Hsep.
      destruct (rev pieces) as [|l ?]; [reflexivity|]. rewrite Hsep. reflexivity. }
    rewrite Hlead.
    destruct (Rendered_delim_head _ _ _ H Hn) as (d & b' & Hd & Hb).
    rewrite Hb at 1. cbn [hd_error plain_char ch]. rewrite Hd. cbn [negb].
    transitivity (concat (pieces ++ [c :: tok]) ++ t).
    + apply (IH Hclean false); [exact Hpf | discriminate].
    + rewrite concat_app. simpl. rewrite app_nil_r, <- app_assoc. reflexivity.
Qed.

(** A buffer of pills and delimiters has every pill after a delimiter. *)
Lemma Rendered_pills_follow : forall base t b,
  Rendered base t b ->
  only_pills_and_delims b = true ->
  forall prev,
    (prev = true \/ hd_error (map is_pill b) <> Some true) ->
    pills_follow_delims prev b = true.
Proof.
  intros base t b H.
  induction H as [|c t b H IH|c tok display t b Hc Hn H IH];
    intros Honly prev Hprev.
  - reflexivity.
  - simpl in Honly. apply andb_prop in Honly. destruct Honly as [Hd Honly].
    simpl in *. rewrite Hd. apply IH; auto.
  - simpl in Honly. destruct Hprev as [->|Hp]; [|exfalso; apply Hp; reflexivity].
    simpl. apply IH; [exact Honly|]. right.
    destruct (Rendered_delim_head _ _ _ H Hn) as (d & b' & Hd & ->).
    simpl. discriminate.
Qed.

Lemma only_pills_and_delims_clean : forall b,
  only_pills_and_delims b = true -> no_plain_placeholder b = true.
Proof.
  induction b as [|u b IH]; simpl; intros H; [reflexivity|].
  apply andb_prop in H. destruct H as [Hu Hb].
  rewrite (IH Hb), andb_true_r.
  destruct (is_pill u); [reflexivity|]. simpl in *.
  rewrite (is_delim_not_OBJ _ Hu). reflexivity.
Qed.

(** ** The buffer does not depend on the caret *)

Section CaretIrrelevant.

Variable lib : urllib.
Variable typing_attrs : option typing_attributes.
Variable shortcuts : list text.
Variable plugins : list plugin.
Variables caret1 caret2 : Z.

Let body1 := body lib typing_attrs shortcuts plugins caret1.
Let body2 := body lib typing_attrs shortcuts plugins caret2.
Let loop1 := loop lib typing_attrs shortcuts plugins caret1.
Let loop2 := loop lib typing_attrs shortcuts plugins caret2.

Lemma body_caret_irrelevant : forall st1 st2,
  same_text_state st1 st2 ->
  match body1 st1, body2 st2 with
  | Return st1', Return st2' => same_text_state st1' st2'
  | Raise e1, Raise e2 => e1 = e2
  | _, _ => False
  end.
Proof.
  intros st1 st2 (Hrest & Hplain & Hres).
  unfold body1, body2, body. rewrite <- Hrest.
  destruct (rest st1) as [|c tl] eqn:Hr.
  - repeat split; congruence.
  - destruct (is_delim c).
    + unfold after_delimiter, same_text_state; simpl.
      rewrite Hplain, Hres. repeat split.
    + destruct (read_token (c :: tl)) as [token rest'].
      destruct (decide_pill_type lib shortcuts plugins token (hd_error rest'))
        as [[[raw display]|]|e]; cbn [bind];
        unfold after_token, same_text_state; simpl;
        try rewrite Hplain; try rewrite Hres; repeat split.
Qed.

Lemma loop_caret_irrelevant : forall fuel st1 st2,
  same_text_state st1 st2 ->
  match loop1 fuel st1, loop2 fuel st2 with
  | Some (Return st1'), Some (Return st2') => same_text_state st1' st2'
  | Some (Raise e1), Some (Raise e2) => e1 = e2
  | None, None => True
  | _, _ => False
  end.
Proof.
  induction fuel as [|fuel IH]; intros st1 st2 Hs;
    pose proof Hs as (Hrest & _); unfold loop1, loop2; simpl; rewrite <- Hrest;
    destruct (rest st1) as [|c tl]; try exact Hs; try exact I.
  pose proof (body_caret_irrelevant _ _ Hs) as Hb.
  fold body1 body2.
  destruct (body1 st1) as [st1'|e1], (body2 st2) as [st2'|e2];
    try contradiction.
  - apply IH. exact Hb.
  - exact Hb.
Qed.

Lemma build_caret_irrelevant : forall t buf idx,
  build_input_attributed_with_caret lib typing_attrs shortcuts plugins
    caret1 t = Some (Return (buf, idx)) ->
  exists idx',
    build_input_attributed_with_caret lib typing_attrs shortcuts plugins
      caret2 t = Some (Return (buf, idx')).
Proof.
  intros t buf idx. unfold build_input_attributed_with_caret.
  assert (Hs : same_text_state (initial t) (initial t))
    by (repeat split).
  pose proof (loop_caret_irrelevant (length t) _ _ Hs) as H.
  fold loop1 loop2.
  destruct (loop1 (length t) (initial t)) as [[st1|e1]|];
    destruct (loop2 (length t) (initial t)) as [[st2|e2]|];
    try contradiction; try discriminate.
  destruct H as (_ & _ & Hres).
  unfold clamp_caret. intros Heq. inversion Heq; subst.
  rewrite Hres. eexists. reflexivity.
Qed.

End CaretIrrelevant.

(** ** Round trip and re-rendering *)

(** Extraction undoes the rendering of a buffer of characters of the
    Basic Multilingual Plane in which no placeholder is plain and every
    pill opens the buffer or follows a delimiter. *)
Lemma extract_build : forall lib typing_attrs shortcuts plugins caret t buf idx,
  build_input_attributed_with_caret lib typing_attrs shortcuts plugins
    caret t = Some (Return (buf, idx)) ->
  bmp_buffer buf = true ->
  no_plain_placeholder buf = true ->
  pills_follow_delims true buf = true ->
  _plain_text_from_view false buf = t.
Proof.
  intros lib typing_attrs shortcuts plugins caret t buf idx Hb Hbmp Hclean Hpf.
  unfold _plain_text_from_view. rewrite (pieces_after_all _ Hbmp).
  apply build_rendered in Hb.
  apply (extract_rendered _ _ _ Hb Hclean true [] Hpf). reflexivity.
Qed.

(** A rendering that holds pills and delimiters only holds characters of
    the Basic Multilingual Plane only. *)
Lemma Rendered_only_bmp : forall base t b,
  Rendered base t b ->
  only_pills_and_delims b = true -> bmp_buffer b = true.
Proof.
  intros base t b H.
  induction H as [|c t b H IH|c tok display t b Hc Hn H IH]; intros Honly.
  - reflexivity.
  - cbn [only_pills_and_delims forallb] in Honly.
    apply andb_prop in Honly. destruct Honly as [Hd Honly].
    cbn [is_pill plain_char attachment ch orb] in Hd.
    cbn [bmp_buffer forallb plain_char ch].
    rewrite (is_delim_bmp _ Hd). apply (IH Honly).
  - cbn [only_pills_and_delims forallb] in Honly.
    apply andb_prop in Honly. destruct Honly as [_ Honly].
    cbn [bmp_buffer forallb pill_char ch].
    replace (OBJ <? 65536)%N with true by reflexivity.
    apply (IH Honly).
Qed.

(** C1. Round trip: when a text is made of recognized tokens, each
    followed by a delimiter, so that its rendering for the caret 0 holds
    pills and delimiters only, the extraction without stripping returns
    the text. *)
Theorem round_trip_of_recognized_text :
  forall lib typing_attrs shortcuts plugins t buf idx,
  build_input_attributed_with_caret lib typing_attrs shortcuts plugins
    0 t = Some (Return (buf, idx)) ->
  only_pills_and_delims buf = true ->
  _plain_text_from_view false buf = t.
Proof.
  intros lib typing_attrs shortcuts plugins t buf idx Hb Honly.
  apply (extract_build _ _ _ _ _ _ _ _ Hb).
  - pose proof Hb as Hr. apply build_rendered in Hr.
    apply (Rendered_only_bmp _ _ _ Hr Honly).
  - apply only_pills_and_delims_clean. exact Honly.
  - apply build_rendered in Hb.
    apply (Rendered_pills_follow _ _ _ Hb Honly). left. reflexivity.
Qed.

Lemma round_trip_of_recognized_text_witness :
  exists buf idx,
    build_input_attributed_with_caret lenient_urllib None sample_shortcuts
      sample_plugins 0 recognized_text = Some (Return (buf, idx))
    /\ only_pills_and_delims buf = true
    /\ length (pills_of buf) = 5%nat
    /\ _plain_text_from_view false buf = recognized_text.
Proof.
  eexists. eexists.
  split; [vm_compute; reflexivity|].
  split; [vm_compute; reflexivity|].
  split; [vm_compute; reflexivity|].
  eapply (round_trip_of_recognized_text lenient_urllib None sample_shortcuts
            sample_plugins recognized_text);
    [vm_compute; reflexivity | vm_compute; reflexivity].
Defined.

(** C3, as the code has it.  Re-rendering the extracted text gives the
    very same buffer, hence the same pills, whenever the first rendering
    holds characters of the Basic Multilingual Plane only, has no plain
    U+FFFC, and each of its pills opens the buffer or follows a delimiter;
    the extracted text is then the text itself.  The raw texts stored on
    the pills may hold any character. *)
Theorem rerender_same_buffer :
  forall lib typing_attrs shortcuts plugins t caret caret' buf idx,
  build_input_attributed_with_caret lib typing_attrs shortcuts plugins
    caret t = Some (Return (buf, idx)) ->
  bmp_buffer buf = true ->
  no_plain_placeholder buf = true ->
  pills_follow_delims true buf = true ->
  _plain_text_from_view false buf = t
  /\ exists idx',
       build_input_attributed_with_caret lib typing_attrs shortcuts plugins
         caret' (_plain_text_from_view false buf) = Some (Return (buf, idx')).
Proof.
  intros lib typing_attrs shortcuts plugins t caret caret' buf idx Hb Hw Hc Hp.
  pose proof (extract_build _ _ _ _ _ _ _ _ Hb Hw Hc Hp) as Ht.
  split; [exact Ht|]. rewrite Ht.
  eapply build_caret_irrelevant. exact Hb.
Qed.

Lemma rerender_same_buffer_witness :
  exists buf idx idx',
    build_input_attributed_with_caret lenient_urllib None sample_shortcuts
      sample_plugins 3 (of_string "/blog hello") = Some (Return (buf, idx))
    /\ pills_of buf = [of_string "/blog"]
    /\ _plain_text_from_view false buf = of_string "/blog hello"
    /\ build_input_attributed_with_caret lenient_urllib None sample_shortcuts
         sample_plugins 8 (_plain_text_from_view false buf)
       = Some (Return (buf, idx')).
Proof.
  eexists. eexists.
  assert (H := rerender_same_buffer lenient_urllib None sample_shortcuts
                 sample_plugins (of_string "/blog hello") 3 8).
  edestruct H as (Ht & idx' & Hb);
    [vm_compute; reflexivity | vm_compute; reflexivity
     | vm_compute; reflexivity | vm_compute; reflexivity |].
  exists idx'.
  split; [vm_compute; reflexivity|].
  split; [vm_compute; reflexivity|].
  split; [exact Ht | exact Hb].
Defined.

(** C3, as stated, fails: a quoted path glued to a shortcut is plain at
    first; the extraction puts a space before the shortcut pill, and on
    the second pass the quoted path, now followed by a delimiter, becomes
    a pill too. *)
Lemma rerender_adds_a_pill :
  exists buf idx buf' idx',
    build_input_attributed_with_caret lenient_urllib None sample_shortcuts
      sample_plugins 0 glued_text = Some (Return (buf, idx))
    /\ build_input_attributed_with_caret lenient_urllib None sample_shortcuts
         sample_plugins 0 (_plain_text_from_view false buf)
       = Some (Return (buf', idx'))
    /\ pills_of buf = [of_string "/blog"]
    /\ pills_of buf' = [quoted_tag "/a"; of_string "/blog"]
    /\ pills_of buf' <> pills_of buf.
Proof.
  eexists. eexists. eexists. eexists.
  split; [vm_compute; reflexivity|].
  split; [vm_compute; reflexivity|].
  split; [vm_compute; reflexivity|].
  split; [vm_compute; reflexivity|].
  vm_compute. discriminate.
Qed.

(** ** Tokens at the end of the buffer *)

Section EndOfBuffer.

Variable lib : urllib.
Variable typing_attrs : option typing_attributes.
Variable shortcuts : list text.
Variable plugins : list plugin.
Variable caret : Z.

Let decide := decide_pill_type lib shortcuts plugins.
Let body' := body lib typing_attrs shortcuts plugins caret.
Let loop' := loop lib typing_attrs shortcuts plugins caret.
Let reaches' := reaches lib typing_attrs shortcuts plugins caret.
Let build := build_input_attributed_with_caret lib typing_attrs shortcuts
               plugins caret.

(** With no delimiter after the token every rule fails; the URL test is
    still run on a token that starts with an at-sign. *)
Lemma decide_pill_type_no_delim : forall token next_delim,
  in_delims next_delim = false ->
  decide token next_delim
  = if startswith [AT] token
    then (_ <- token_is_url_tag lib token ;; Return None)
    else Return None.
Proof.
  intros token next_delim Hn. unfold decide, decide_pill_type.
  destruct (_collect_prefixes plugins) as [[normal path] ponly].
  rewrite Hn, !andb_false_r.
  destruct (startswith [AT] token); [|reflexivity].
  destruct (token_is_url_tag lib token) as [u|e]; cbn [bind]; [|reflexivity].
  rewrite andb_false_r. reflexivity.
Qed.

Lemma loop_unfold : forall fuel st c tl,
  rest st = c :: tl ->
  loop' (S fuel) st
  = match body' st with
    | Return st' => loop' fuel st'
    | Raise e => Some (Raise e)
    end.
Proof. intros fuel st c tl H. unfold loop'. simpl. rewrite H. reflexivity. Qed.

Lemma loop_done : forall fuel st, rest st = [] -> loop' fuel st = Some (Return st).
Proof. intros fuel st H. unfold loop'. destruct fuel; simpl; rewrite H; reflexivity. Qed.

Lemma body_delimiter : forall st c tl,
  rest st = c :: tl -> is_delim c = true ->
  body' st = Return (after_delimiter typing_attrs caret st c tl).
Proof. intros st c tl H Hc. unfold body', body. rewrite H, Hc. reflexivity. Qed.

Lemma body_token : forall st c tl token rest',
  rest st = c :: tl -> is_delim c = false ->
  read_token (rest st) = (token, rest') ->
  body' st
  = (pill <- decide token (hd_error rest') ;;
     Return (after_token typing_attrs caret st token rest' pill)).
Proof.
  intros st c tl token rest' H Hc Ht. unfold body', body.
  rewrite H, Hc. rewrite <- H, Ht. reflexivity.
Qed.

(** A state with nothing to read is the last one. *)
Lemma reaches_final : forall st stf,
  reaches' st stf -> rest st = [] -> stf = st.
Proof.
  intros st stf H Hnil. destruct H as [st|st st' st'' [Hne _] _].
  - reflexivity.
  - contradiction.
Qed.

(** The round that reads a token, on the way to the end of the pass. *)
Lemma token_round : forall t st c tl token rest' buf idx,
  reaches' (initial t) st ->
  rest st = c :: tl -> is_delim c = false ->
  read_token (rest st) = (token, rest') ->
  build t = Some (Return (buf, idx)) ->
  exists pill stf,
    decide token (hd_error rest') = Return pill
    /\ reaches' (after_token typing_attrs caret st token rest' pill) stf
    /\ rest stf = []
    /\ clamp_caret stf = (buf, idx).
Proof.
  intros t st c tl token rest' buf idx Hreach Hr Hc Ht Hb.
  destruct (build_returns _ _ _ _ _ _ _ _ Hb) as (stf & Hall & Hnil & Hclamp).
  pose proof (reaches_confluent _ _ _ _ _ _ _ _ Hreach Hall Hnil) as Hfrom.
  inversion Hfrom as [|a st' b [Hne Hbody] Hrest]; subst.
  - rewrite Hnil in Hr. discriminate.
  - fold body' in Hbody. rewrite (body_token _ _ _ _ _ Hr Hc Ht) in Hbody.
    destruct (decide token (hd_error rest')) as [pill|e] eqn:Hd;
      cbn [bind] in Hbody; [|discriminate].
    inversion Hbody; subst. exists pill, stf. auto.
Qed.

End EndOfBuffer.

(** C5. End of buffer never converts: when the token read in some round
    of the pass reaches the end of the buffer, no rule makes a pill of it,
    and the buffer the pass returns ends with that token as a plain run. *)
Theorem end_of_buffer_never_converts :
  forall lib typing_attrs shortcuts plugins caret t st c tl token,
  reaches lib typing_attrs shortcuts plugins caret (initial t) st ->
  rest st = c :: tl -> is_delim c = false ->
  read_token (rest st) = (token, []) ->
  (forall pill,
     decide_pill_type lib shortcuts plugins token None <> Return (Some pill))
  /\ (forall buf idx,
        build_input_attributed_with_caret lib typing_attrs shortcuts plugins
          caret t = Some (Return (buf, idx)) ->
        buf = result st ++ plain_run (base_attrs typing_attrs) token
        /\ pills_of (plain_run (base_attrs typing_attrs) token) = []).
Proof.
  intros lib typing_attrs shortcuts plugins caret t st c tl token
         Hreach Hr Hc Ht.
  assert (Hno : forall pill,
            decide_pill_type lib shortcuts plugins token None
            <> Return (Some pill)).
  { intros [raw display] H.
    apply decide_pill_type_some in H. destruct H as [_ H]. discriminate. }
  split; [exact Hno|].
  intros buf idx Hb.
  destruct (token_round _ _ _ _ _ _ _ _ _ _ _ _ _ Hreach Hr Hc Ht Hb)
    as (pill & stf & Hd & Hfrom & Hnil & Hclamp).
  simpl in Hd. destruct pill as [pill|]; [elim (Hno pill); exact Hd|].
  apply reaches_final in Hfrom; [|reflexivity]. subst stf.
  unfold clamp_caret in Hclamp. inversion Hclamp; subst. clear Hclamp.
  split; [reflexivity|].
  unfold pills_of, plain_run. clear.
  induction token as [|x token IH]; simpl; [reflexivity | exact IH].
Qed.

Lemma end_of_buffer_never_converts_witness :
  token_is_url_tag lenient_urllib (of_string "@http://example.com")
  = Return true
  /\ exists buf idx,
       build_input_attributed_with_caret lenient_urllib None sample_shortcuts
         sample_plugins 22 url_at_end_text = Some (Return (buf, idx))
       /\ buf = result url_at_end_state
                ++ plain_run None (of_string "@http://example.com").
Proof.
  split; [vm_compute; reflexivity|].
  eexists. eexists. split; [vm_compute; reflexivity|].
  assert (Hreach : reaches lenient_urllib None sample_shortcuts sample_plugins
                     22 (initial url_at_end_text) url_at_end_state).
  { eapply reaches_step; [split; [discriminate | vm_compute; reflexivity]|].
    eapply reaches_step; [split; [discriminate | vm_compute; reflexivity]|].
    apply reaches_refl. }
  refine (proj1 (proj2 (end_of_buffer_never_converts lenient_urllib None
                          sample_shortcuts sample_plugins 22 url_at_end_text
                          url_at_end_state 64%N (of_string "http://example.com")
                          (of_string "@http://example.com")
                          Hreach eq_refl eq_refl eq_refl) _ 22%Z _)).
  vm_compute. reflexivity.
Defined.

(** ** The caret and the pills *)

Lemma clamp_below : forall v n : Z,
  (v <= n)%Z -> (if (v >? n)%Z then n else v) = v.
Proof.
  intros v n H. destruct (v >? n)%Z eqn:E; [|reflexivity].
  apply Z.gtb_lt in E. lia.
Qed.

(** C4. Pill atomicity: when a round of the pass turns its token into a
    pill, the pill is the character of the returned buffer at the length
    the buffer had; a caret not latched before that lies in the closed
    plain span of the token is returned right after the pill, and so is
    every caret past the start of the span, which no earlier round can
    have latched; the returned index is never strictly between the two
    edges of the pill. *)
Theorem caret_lands_after_pill :
  forall lib typing_attrs shortcuts plugins caret t st c tl token rest'
         raw display buf idx,
  reaches lib typing_attrs shortcuts plugins caret (initial t) st ->
  rest st = c :: tl -> is_delim c = false ->
  read_token (rest st) = (token, rest') ->
  decide_pill_type lib shortcuts plugins token (hd_error rest')
  = Return (Some (raw, display)) ->
  build_input_attributed_with_caret lib typing_attrs shortcuts plugins
    caret t = Some (Return (buf, idx)) ->
  nth_error buf (length (result st)) = Some (pill_char raw display)
  /\ (caret_set st = false ->
      (plain_index st <= caret <= plain_index st + len token)%Z ->
      idx = (alength (result st) + 1)%Z)
  /\ ((plain_index st < caret <= plain_index st + len token)%Z ->
      idx = (alength (result st) + 1)%Z)
  /\ ~ (alength (result st) < idx < alength (result st) + 1)%Z.
Proof.
  intros lib typing_attrs shortcuts plugins caret t st c tl token rest'
         raw display buf idx Hreach Hr Hc Ht Hd Hb.
  destruct (token_round _ _ _ _ _ _ _ _ _ _ _ _ _ Hreach Hr Hc Ht Hb)
    as (pill & stf & Hd' & Hfrom & Hnil & Hclamp).
  rewrite Hd in Hd'. inversion Hd'; subst pill. clear Hd'.
  destruct (reaches_keeps _ _ _ _ _ _ _ Hfrom) as [[b Hres] Hkeep].
  unfold after_token, build_tag_attributed in Hres, Hkeep.
  cbn [result caret_set caret_attr_index] in Hres, Hkeep.
  unfold clamp_caret in Hclamp. injection Hclamp as Hbuf Hidx.
  subst buf idx.
  assert (Hlatched : caret_set st = false ->
            (plain_index st <= caret <= plain_index st + len token)%Z ->
            (if caret_set stf then caret_attr_index stf
             else alength (result stf)) = (alength (result st) + 1)%Z).
  { intros Hset [H1 H2].
    rewrite Hset in Hkeep. cbn [negb andb] in Hkeep.
    apply Z.leb_le in H1. apply Z.leb_le in H2. rewrite H1, H2 in Hkeep.
    destruct (Hkeep eq_refl) as [-> ->]. reflexivity. }
  split; [|split; [|split]].
  - rewrite Hres, <- app_assoc. rewrite nth_error_app2 by lia.
    rewrite Nat.sub_diag. reflexivity.
  - intros Hset Hin. rewrite (Hlatched Hset Hin).
    apply clamp_below. rewrite Hres, !alength_app.
    pose proof (alength_nonneg b). rewrite alength_cons. cbn [ch].
    change (utf16_units OBJ) with 1%nat. change (alength []) with 0%Z. lia.
  - intros [H1 H2].
    assert (Hset : caret_set st = false).
    { destruct (caret_set st) eqn:E; [|reflexivity].
      pose proof (caret_inv_reaches _ _ _ _ _ _ _ Hreach
                    (caret_inv_initial _ t)) as [_ Hinv].
      destruct (Hinv E) as [_ Hle]. lia. }
    rewrite (Hlatched Hset) by lia.
    apply clamp_below. rewrite Hres, !alength_app.
    pose proof (alength_nonneg b). rewrite alength_cons. cbn [ch].
    change (utf16_units OBJ) with 1%nat. change (alength []) with 0%Z. lia.
  - lia.
Qed.

Lemma caret_lands_after_pill_witness :
  exists buf,
    build_input_attributed_with_caret lenient_urllib None sample_shortcuts
      sample_plugins 3 (of_string "/blog hello") = Some (Return (buf, 1%Z))
    /\ nth_error buf 0 = Some (pill_char (of_string "/blog") (of_string "/blog")).
Proof.
  eexists. split; [vm_compute; reflexivity|].
  refine (proj1 (caret_lands_after_pill lenient_urllib None sample_shortcuts
                   sample_plugins 3 (of_string "/blog hello")
                   (initial (of_string "/blog hello"))
                   47%N (of_string "blog hello")
                   (of_string "/blog") (of_string " hello")
                   (of_string "/blog") (of_string "/blog") _ 1%Z
                   (reaches_refl _ _ _ _ _ _) eq_refl eq_refl eq_refl eq_refl _)).
  vm_compute. reflexivity.
Defined.

(** C2 does not hold of the code: a caret at 0 in front of a leading
    delimiter is latched by no round and is returned at the end of the
    buffer, past the index returned for the caret at 1.  So it is for the
    text made of a space and a letter, whatever the registries.  (From
    the caret 1 on the rendered caret is monotone:
    [caret_monotone_past_start].) *)
Theorem caret_before_leading_delimiter_jumps :
  forall lib typing_attrs shortcuts plugins,
  exists buf,
    build_input_attributed_with_caret lib typing_attrs shortcuts plugins
      0 (of_string " a") = Some (Return (buf, 2%Z))
    /\ build_input_attributed_with_caret lib typing_attrs shortcuts plugins
         1 (of_string " a") = Some (Return (buf, 1%Z))
    /\ build_input_attributed_with_caret lib typing_attrs shortcuts plugins
         2 (of_string " a") = Some (Return (buf, 2%Z)).
Proof.
  intros lib typing_attrs shortcuts plugins.
  assert (Hrun : forall caret,
    loop lib typing_attrs shortcuts plugins caret 2 (initial (of_string " a"))
    = Some (Return
        (after_token typing_attrs caret
           (after_delimiter typing_attrs caret (initial (of_string " a"))
              32%N (of_string "a"))
           (of_string "a") [] None))).
  { intros caret.
    rewrite (loop_unfold _ _ _ _ _ _ _ 32%N (of_string "a")) by reflexivity.
    rewrite (body_delimiter _ _ _ _ _ _ 32%N (of_string "a"))
      by reflexivity.
    rewrite (loop_unfold _ _ _ _ _ _ _ 97%N []) by reflexivity.
    rewrite (body_token _ _ _ _ _ _ 97%N [] (of_string "a") [])
      by reflexivity.
    rewrite decide_pill_type_no_delim by reflexivity.
    cbn [startswith of_string list_ascii_of_string map N_of_ascii
         char_eqb bind].
    change (char_eqb AT (N_of_ascii "a"%char)) with false.
    cbn [andb bind]. apply loop_done. reflexivity. }
  exists (plain_run (base_attrs typing_attrs) (of_string " a")).
  unfold build_input_attributed_with_caret.
  change (length (of_string " a")) with 2%nat.
  rewrite !Hrun. repeat split.
Qed.

(** C7 does not hold of the code: [urlparse] raises [ValueError] on a
    netloc with an unmatched bracket, and nothing around the URL test
    catches it.  So the pass raises on the text [@http://[], whatever the
    caret and the registries.  (The pass does end on every text, a
    caret it returns is in range, and it returns on every ASCII text
    without square brackets: [build_terminates], [build_caret_in_range],
    [build_returns_on_plain_ascii].) *)
Theorem unmatched_bracket_raises :
  forall lib typing_attrs shortcuts plugins caret,
  build_input_attributed_with_caret lib typing_attrs shortcuts plugins
    caret (of_string "@http://[") = Some (Raise ValueError).
Proof.
  intros lib typing_attrs shortcuts plugins caret.
  unfold build_input_attributed_with_caret.
  change (length (of_string "@http://[")) with 9%nat.
  rewrite (loop_unfold _ _ _ _ _ _ _ 64%N (of_string "http://["))
    by reflexivity.
  rewrite (body_token _ _ _ _ _ _ 64%N (of_string "http://[")
             (of_string "@http://[") []) by reflexivity.
  rewrite decide_pill_type_no_delim by reflexivity.
  replace (token_is_url_tag lib (of_string "@http://["))
    with (@Raise bool ValueError) by (vm_compute; reflexivity).
  reflexivity.
Qed.

(** ** Quotes in the scan of the rendering pass *)

Lemma read_quoted_spec : forall s tok r,
  read_quoted s = (tok, r) ->
  (exists inner, tok = inner ++ [QUOTE] /\ ~ In QUOTE inner)
  \/ (~ In QUOTE tok /\ r = []).
Proof.
  induction s as [|c s IH]; simpl; intros tok r H.
  - inversion H; subst. right. split; [intros []|reflexivity].
  - destruct (char_eqb c QUOTE) eqn:E.
    + apply char_eqb_eq in E. inversion H; subst.
      left. exists []. split; [reflexivity | intros []].
    + destruct (read_quoted s) as [tok' r'] eqn:Eq. inversion H; subst.
      assert (Hc : c <> QUOTE).
      { intros ->. unfold char_eqb in E. rewrite N.eqb_refl in E. discriminate. }
      destruct (IH _ _ eq_refl) as [(inner & -> & Hin)|[Hin ->]].
      * left. exists (c :: inner). split; [reflexivity|].
        intros [Hx|Hx]; [congruence | contradiction].
      * right. split; [|reflexivity].
        intros [Hx|Hx]; [congruence | contradiction].
Qed.

Lemma read_plain_spec : forall s tok r,
  read_plain s = (tok, r) ->
  forallb (fun x => negb (is_delim x)) tok = true
  /\ (r = [] \/ in_delims (hd_error r) = true).
Proof.
  induction s as [|c s IH]; simpl; intros tok r H.
  - inversion H; subst. auto.
  - destruct (is_delim c) eqn:E.
    + inversion H; subst. simpl. auto.
    + destruct (read_plain s) as [tok' r'] eqn:Ep. inversion H; subst.
      destruct (IH _ _ eq_refl) as [Hall Hr]. simpl. rewrite E, Hall. auto.
Qed.

Lemma char_eqb_sym : forall a b, char_eqb a b = char_eqb b a.
Proof. intros a b. unfold char_eqb. apply N.eqb_sym. Qed.

Lemma startswith_at_quote : forall s,
  startswith [AT; QUOTE] s
  = match s with
    | a :: q :: _ => char_eqb a AT && char_eqb q QUOTE
    | _ => false
    end.
Proof.
  intros [|a [|q s]]; cbn [startswith].
  - reflexivity.
  - apply andb_false_r.
  - rewrite andb_true_r, (char_eqb_sym AT a), (char_eqb_sym QUOTE q).
    reflexivity.
Qed.

(** C6, as the code has it.  In a round of the rendering pass that starts
    a token, only a token that opens with an at-sign and a double quote
    takes delimiters in: it runs to the next double quote, included, or to
    the end of the buffer.  Any other token holds no delimiter and ends
    right before the first one, or at the end of the buffer, whatever
    double quotes it holds. *)
Theorem render_scan_quote_rule :
  forall lib typing_attrs shortcuts plugins caret st c tl st',
  rest st = c :: tl -> is_delim c = false ->
  body lib typing_attrs shortcuts plugins caret st = Return st' ->
  exists token,
    rest st = token ++ rest st'
    /\ if startswith [AT; QUOTE] (rest st)
       then exists inner,
              token = AT :: QUOTE :: inner
              /\ ((exists quoted, inner = quoted ++ [QUOTE] /\ ~ In QUOTE quoted)
                  \/ (~ In QUOTE inner /\ rest st' = []))
       else forallb (fun x => negb (is_delim x)) token = true
            /\ (rest st' = [] \/ in_delims (hd_error (rest st')) = true).
Proof.
  intros lib typing_attrs shortcuts plugins caret st c tl st' Hr Hc Hb.
  destruct (body_cases _ _ _ _ _ _ _ _ _ Hr Hb)
    as [[Hc' _]|[_ (token & rest' & pill & Ht & _ & ->)]]; [congruence|].
  exists token.
  assert (Hrest : rest (after_token typing_attrs caret st token rest' pill)
                  = rest').
  { destruct pill as [[raw display]|]; reflexivity. }
  rewrite Hrest. split; [apply read_token_app; exact Ht|].
  rewrite startswith_at_quote. unfold read_token in Ht.
  destruct (rest st) as [|a [|q s']];
    try (apply (read_plain_spec _ _ _ Ht)).
  destruct (char_eqb a AT && char_eqb q QUOTE) eqn:E.
  - apply andb_prop in E. destruct E as [Ea Eq].
    apply char_eqb_eq in Ea. apply char_eqb_eq in Eq. subst a q.
    destruct (read_quoted s') as [inner r] eqn:Einner.
    inversion Ht; subst. exists inner. split; [reflexivity|].
    apply (read_quoted_spec _ _ _ Einner).
  - apply (read_plain_spec _ _ _ Ht).
Qed.

Lemma render_scan_quote_rule_witness :
  exists st',
    body lenient_urllib None sample_shortcuts sample_plugins 0
      (initial quoted_path_text) = Return st'
    /\ rest st' = of_string " x"
    /\ exists token, quoted_path_text = token ++ rest st'.
Proof.
  eexists. split; [vm_compute; reflexivity|].
  split; [reflexivity|].
  destruct (render_scan_quote_rule lenient_urllib None sample_shortcuts
              sample_plugins 0 (initial quoted_path_text)
              AT (QUOTE :: of_string "my file" ++ [QUOTE] ++ of_string " x")
              _ eq_refl eq_refl eq_refl) as (token & Happ & _).
  exists token. exact Happ.
Defined.

(** C6, as stated, fails: in the text [a"b c"] the space is inside quotes,
    and the rendering pass ends the first token there all the same, where
    [find_token_range] reads on to the end. *)
Lemma quoted_delimiter_ends_render_token :
  exists st',
    body lenient_urllib None sample_shortcuts sample_plugins 0
      (initial quote_inside_text) = Return st'
    /\ result st' = plain_run None [97%N; QUOTE; 98%N]
    /\ rest st' = SPACE :: 99%N :: [QUOTE]
    /\ inside_quotes [97%N; QUOTE; 98%N] = true
    /\ find_token_range quote_inside_text 0 = (0%nat, 6%nat).
Proof.
  eexists. repeat split; vm_compute; reflexivity.
Qed.

(** ** The extraction, round by round *)

Lemma pieces_after_S : forall storage n,
  pieces_after storage (S n)
  = extract_step storage (pieces_after storage n) n.
Proof.
  intros storage n. unfold pieces_after.
  rewrite seq_S, fold_left_app. reflexivity.
Qed.

(** The space a pill puts before itself. *)
Lemma leading_space : forall pieces,
  match rev pieces with
  | [] => pieces
  | last_piece :: _ =>
      if negb (ends_with_delim last_piece) then pieces ++ [[SPACE]] else pieces
  end
  = pieces ++ (if separated pieces then [] else [[SPACE]]).
Proof.
  intros pieces. unfold separated.
  destruct (rev pieces) as [|l ls]; [rewrite app_nil_r; reflexivity|].
  destruct (ends_with_delim l); simpl; [rewrite app_nil_r|]; reflexivity.
Qed.

(** A round only appends. *)
Lemma extract_char_extends : forall pieces u next_char,
  exists more, extract_char pieces u next_char = pieces ++ more.
Proof.
  intros pieces u next_char. unfold extract_char.
  destruct (char_eqb (ch u) OBJ); [|eauto].
  destruct (tag u) as [tag_text|]; [|exists []; rewrite app_nil_r; reflexivity].
  rewrite leading_space.
  destruct next_char as [nxt|]; [destruct (negb (is_delim (ch nxt)))|];
    rewrite <- ?app_assoc; eauto.
Qed.

Lemma pieces_after_prefix : forall storage n k,
  exists more,
    pieces_after storage (n + k) = pieces_after storage n ++ more.
Proof.
  intros storage n k. induction k as [|k [more IH]].
  - exists []. rewrite Nat.add_0_r, app_nil_r. reflexivity.
  - rewrite Nat.add_succ_r, pieces_after_S, IH. unfold extract_step.
    destruct (nth_error storage (n + k)) as [u|]; [|eauto].
    destruct (extract_char_extends (pieces_after storage n ++ more)
                (read_at storage (n + k) (ch u))
                (nth_error storage (n + k + 1))) as [more' ->].
    rewrite <- app_assoc. eauto.
Qed.

Lemma bmp_firstn_le : forall n m b,
  (n <= m)%nat ->
  bmp_buffer (firstn m b) = true -> bmp_buffer (firstn n b) = true.
Proof.
  intros n m b Hle H.
  replace (firstn n b) with (firstn n (firstn m b))
    by (rewrite firstn_firstn, Nat.min_l by exact Hle; reflexivity).
  apply bmp_firstn. exact H.
Qed.

(** Adjacent pills with characters of the Basic Multilingual Plane only
    in front of them: the two rounds of the extraction append the raw text
    of the first, one space and the raw text of the second, with nothing
    else between them; so the extracted text holds the two expansions with
    exactly that space between them. *)
Lemma adjacent_pills_one_space :
  forall storage idx u1 u2 raw1 raw2,
  bmp_buffer (firstn (S idx) storage) = true ->
  nth_error storage idx = Some u1 ->
  nth_error storage (S idx) = Some u2 ->
  ch u1 = OBJ -> tag u1 = Some raw1 ->
  ch u2 = OBJ -> tag u2 = Some raw2 ->
  let before := pieces_after storage idx in
  let lead := if separated before then [] else [[SPACE]] in
  let trail := match nth_error storage (S (S idx)) with
               | Some next_char =>
                   if is_delim (ch next_char) then [] else [[SPACE]]
               | None => []
               end in
  pieces_after storage (S (S idx))
  = before ++ lead ++ [raw1; [SPACE]; raw2] ++ trail
  /\ exists later,
       _plain_text_from_view false storage
       = concat before ++ concat lead ++ raw1 ++ [SPACE] ++ raw2 ++ later.
Proof.
  intros storage idx u1 u2 raw1 raw2 Hbmp H1 H2 Hc1 Ht1 Hc2 Ht2
         before lead trail.
  assert (Hpieces : pieces_after storage (S (S idx))
                    = before ++ lead ++ [raw1; [SPACE]; raw2] ++ trail).
  { rewrite !pieces_after_S. fold before.
    rewrite (extract_step_bmp storage _ (S idx)) by exact Hbmp.
    rewrite (extract_step_bmp storage _ idx)
      by (apply (bmp_firstn_le idx (S idx)); [lia | exact Hbmp]).
    replace (idx + 1)%nat with (S idx) by lia.
    replace (S idx + 1)%nat with (S (S idx)) by lia.
    rewrite H1, H2. unfold extract_char at 2.
    rewrite Hc1, Ht1. replace (char_eqb OBJ OBJ) with true by reflexivity.
    rewrite leading_space. fold lead.
    rewrite Hc2. replace (is_delim OBJ) with false by reflexivity. cbn [negb].
    unfold extract_char. rewrite Hc2, Ht2.
    replace (char_eqb OBJ OBJ) with true by reflexivity.
    rewrite leading_space, separated_snoc.
    replace (ends_with_delim [SPACE]) with true by reflexivity.
    rewrite app_nil_r. fold trail.
    assert (Htrail : match nth_error storage (S (S idx)) with
                     | Some next_char =>
                         if negb (is_delim (ch next_char))
                         then (((before ++ lead) ++ [raw1]) ++ [[SPACE]])
                              ++ [raw2] ++ [[SPACE]]
                         else (((before ++ lead) ++ [raw1]) ++ [[SPACE]])
                              ++ [raw2]
                     | None => (((before ++ lead) ++ [raw1]) ++ [[SPACE]])
                               ++ [raw2]
                     end
                     = before ++ lead ++ [raw1; [SPACE]; raw2] ++ trail).
    { unfold trail. destruct (nth_error storage (S (S idx))) as [nxt|];
        [destruct (is_delim (ch nxt))|]; cbn [negb];
        rewrite <- ?app_assoc; reflexivity. }
    rewrite <- Htrail.
    destruct (nth_error storage (S (S idx))) as [nxt|];
      [destruct (negb (is_delim (ch nxt)))|];
      rewrite <- ?app_assoc; reflexivity. }
  split; [exact Hpieces|].
  assert (Hlen : (S (S idx) <= length storage)%nat).
  { apply Nat.le_succ_l. apply nth_error_Some. rewrite H2. discriminate. }
  destruct (pieces_after_prefix storage (S (S idx))
              (length storage - S (S idx))) as [more Hmore].
  replace (S (S idx) + (length storage - S (S idx)))%nat
    with (length storage) in Hmore by lia.
  exists (concat trail ++ concat more).
  unfold _plain_text_from_view. rewrite Hmore, Hpieces.
  rewrite !concat_app. simpl. rewrite app_nil_r, <- !app_assoc. reflexivity.
Qed.

Lemma adjacent_pills_one_space_sample :
  pieces_after adjacent_pills_buffer 3
  = [[120%N]; [SPACE]; quoted_tag "/a"; [SPACE]; of_string "/blog"].
Proof.
  exact (proj1 (adjacent_pills_one_space adjacent_pills_buffer 1 _ _ _ _
                  eq_refl eq_refl eq_refl eq_refl eq_refl eq_refl eq_refl)).
Qed.

(** C8 does not hold of the code.  The extraction reads the attributes
    of the character at [idx] with [attributesAtIndex_effectiveRange_(idx,
    None)], which takes an index in UTF-16 units, while [idx] counts the
    characters of the Python string.  After U+1F600, which takes two
    units, the round of the first pill reads the attributes of U+1F600,
    finds no raw text and skips the pill; the round of the second pill
    reads those of the first and appends the raw text of the first; the
    raw text of the second is lost, and no space stands between two
    expansions.  After a character of the Basic Multilingual Plane the
    same two pills give their two raw texts with one space between them
    ([adjacent_pills_one_space]). *)
Theorem adjacent_pills_after_wide_character :
  forall raw1 display1 raw2 display2,
  attributes_at [plain_char None 128512%N; pill_char raw1 display1;
                 pill_char raw2 display2] 1
  = Some (plain_char None 128512%N)
  /\ attributes_at [plain_char None 128512%N; pill_char raw1 display1;
                    pill_char raw2 display2] 2
     = Some (pill_char raw1 display1)
  /\ _plain_text_from_view false
       [plain_char None 128512%N; pill_char raw1 display1;
        pill_char raw2 display2]
     = 128512%N :: SPACE :: raw1
  /\ _plain_text_from_view false
       [plain_char None 120%N; pill_char raw1 display1;
        pill_char raw2 display2]
     = 120%N :: SPACE :: raw1 ++ SPACE :: raw2.
Proof.
  intros raw1 display1 raw2 display2.
  split; [reflexivity|]. split; [reflexivity|].
  split; cbn; rewrite app_nil_r; reflexivity.
Qed.




(** ** Plugins that fail *)

Lemma text_eqb_eq : forall a b, text_eqb a b = true <-> a = b.
Proof.
  induction a as [|x a IH]; intros [|y b]; simpl; split; intros H;
    try reflexivity; try discriminate.
  - apply andb_prop in H. destruct H as [Hx Ha].
    apply char_eqb_eq in Hx. apply IH in Ha. congruence.
  - inversion H; subst. apply andb_true_intro. split.
    + apply char_eqb_eq. reflexivity.
    + apply IH. reflexivity.
Qed.

Lemma text_in_In : forall x xs, text_in x xs = true <-> In x xs.
Proof.
  intros x xs. unfold text_in. rewrite existsb_exists. split.
  - intros (y & Hy & Heq). apply text_eqb_eq in Heq. subst. exact Hy.
  - intros H. exists x. split; [exact H | apply text_eqb_eq; reflexivity].
Qed.

Lemma collect_one_spec : forall normal path_like prefix_only p,
  collect_one (normal, path_like, prefix_only) p
  = (normal ++ prefixes_of p, path_like ++ PATH_PREFIXES p,
     prefix_only ++ filter (endswith (of_string "://")) (prefixes_of p)).
Proof.
  intros normal path_like prefix_only p. unfold collect_one, prefixes_of.
  destruct (get_prefixes p); simpl; rewrite ?app_nil_r; reflexivity.
Qed.

(** What [_collect_prefixes] gathers: the prefixes of the plugins whose
    accessor returns, the path prefixes of all, and among the former
    those that end with a protocol separator. *)
Lemma collect_prefixes_spec : forall plugins,
  _collect_prefixes plugins
  = (flat_map prefixes_of plugins, flat_map PATH_PREFIXES plugins,
     filter (endswith (of_string "://")) (flat_map prefixes_of plugins)).
Proof.
  intros plugins. unfold _collect_prefixes.
  assert (H : forall normal path_like prefix_only,
    fold_left collect_one plugins (normal, path_like, prefix_only)
    = (normal ++ flat_map prefixes_of plugins,
       path_like ++ flat_map PATH_PREFIXES plugins,
       prefix_only
       ++ filter (endswith (of_string "://")) (flat_map prefixes_of plugins))).
  { induction plugins as [|p plugins IH]; intros normal path_like prefix_only.
    - simpl. rewrite !app_nil_r. reflexivity.
    - cbn [fold_left flat_map]. rewrite collect_one_spec, IH.
      rewrite filter_app, <- !app_assoc. reflexivity. }
  apply (H [] [] []).
Qed.

(** C9, as the code has it.  When the first plugin that matches a tag, by
    a prefix its accessor returned or by a path prefix, raises from
    [display_string], the label is the raw tag; whatever pill the pass
    decides for that tag is labelled with it, and a tag equal to a prefix
    of that plugin that is no protocol prefix does become a pill before a
    delimiter.  A plugin whose [get_prefixes] raises matches by its path
    prefixes only, so that the plugins after it are asked.  The pass
    raises no exception of a plugin. *)
Theorem plugin_failure_fallback :
  forall lib shortcuts raw skipped p later e,
  forallb (fun q => negb (matched raw q)) skipped = true ->
  matched raw p = true ->
  display_string p raw = Raise e ->
  let plugins := skipped ++ p :: later in
  display_string_for_tag raw plugins = Return raw
  /\ (forall next_delim pill,
        decide_pill_type lib shortcuts plugins raw next_delim
        = Return (Some pill) ->
        pill = (raw, raw))
  /\ (forall d,
        is_delim d = true -> startswith [AT] raw = true ->
        text_in raw (prefixes_of p) = true ->
        endswith (of_string "://") raw = false ->
        decide_pill_type lib shortcuts plugins raw (Some d)
        = Return (Some (raw, raw)))
  /\ (forall typing_attrs caret t e',
        build_input_attributed_with_caret lib typing_attrs shortcuts plugins
          caret t = Some (Raise e') ->
        e' = ValueError)
  /\ (forall q e0,
        get_prefixes q = Raise e0 ->
        matched raw q = any_startswith raw (PATH_PREFIXES q)).
Proof.
  intros lib shortcuts raw skipped p later e Hskip Hmatch Hraise plugins.
  assert (Hlabel : display_string_for_tag raw plugins = Return raw).
  { unfold plugins. rewrite display_string_for_tag_skip by exact Hskip.
    simpl. rewrite Hmatch, Hraise. reflexivity. }
  split; [exact Hlabel|]. split; [|split; [|split]].
  - intros next_delim [r l]. unfold decide_pill_type.
    destruct (_collect_prefixes plugins) as [[normal path] ponly].
    rewrite Hlabel. cbn [bind].
    destruct (text_in raw shortcuts && in_delims next_delim); [congruence|].
    destruct (startswith [AT] raw); [|congruence].
    destruct (text_in raw normal && negb (text_in raw ponly)
              && in_delims next_delim); [congruence|].
    destruct (token_is_url_tag lib raw) as [u|]; cbn [bind]; [|congruence].
    destruct (u && in_delims next_delim); [congruence|].
    destruct (any_startswith raw path && in_delims next_delim); congruence.
  - intros d Hd Hat Hin Hproto. unfold decide_pill_type.
    rewrite collect_prefixes_spec, Hlabel. cbn [bind in_delims].
    rewrite Hd, Hat, !andb_true_r.
    destruct (text_in raw shortcuts); [reflexivity|].
    assert (Hnormal : text_in raw (flat_map prefixes_of plugins) = true).
    { apply text_in_In. apply in_flat_map. exists p. split.
      - unfold plugins. apply in_or_app. right. left. reflexivity.
      - apply text_in_In. exact Hin. }
    assert (Honly : text_in raw (filter (endswith (of_string "://"))
                                   (flat_map prefixes_of plugins)) = false).
    { destruct (text_in raw (filter (endswith (of_string "://"))
                               (flat_map prefixes_of plugins))) eqn:E;
        [|reflexivity].
      apply text_in_In in E. apply filter_In in E. destruct E as [_ E].
      congruence. }
    rewrite Hnormal, Honly. reflexivity.
  - intros typing_attrs caret t e' H. eapply build_error. exact H.
  - intros q e0 Hq. unfold matched, prefixes_of. rewrite Hq. reflexivity.
Qed.

Lemma plugin_failure_fallback_witness :
  display_string_for_tag (of_string "@window")
    ([file_plugin] ++ unlabelled_plugin :: [clipboard_plugin])
  = Return (of_string "@window")
  /\ decide_pill_type lenient_urllib sample_shortcuts
       ([file_plugin] ++ unlabelled_plugin :: [clipboard_plugin])
       (of_string "@window") (Some SPACE)
     = Return (Some (of_string "@window", of_string "@window")).
Proof.
  destruct (plugin_failure_fallback lenient_urllib sample_shortcuts
              (of_string "@window") [file_plugin] unlabelled_plugin
              [clipboard_plugin] PluginError eq_refl eq_refl eq_refl)
    as (Hlabel & _ & Hpill & _).
  split; [exact Hlabel|].
  apply Hpill; reflexivity.
Defined.

(** C9, as stated, fails where it says that the raw tag is returned once
    a [get_prefixes] raises: the failing plugin is passed over and the
    label is that of the plugin after it. *)
Lemma raising_prefix_accessor_is_passed_over :
  get_prefixes broken_plugin = Raise PluginError
  /\ display_string_for_tag (of_string "@clipboard")
       [broken_plugin; clipboard_plugin]
     = Return (of_string "clipboard")
  /\ display_string_for_tag (of_string "@clipboard")
       [broken_plugin; clipboard_plugin]
     <> Return (of_string "@clipboard").
Proof.
  split; [reflexivity|]. split; [reflexivity|].
  vm_compute. discriminate.
Qed.

(** ** The order of the rendered carets *)

Ltac use_latches :=
  repeat match goal with
         | H : true = true -> _ |- _ => specialize (H eq_refl)
         | H : false = true -> _ |- _ => clear H
         | H : _ /\ _ |- _ => destruct H
         end.

Ltac split_tests :=
  repeat match goal with
         | |- context [(?a =? ?b)%Z] => destruct (Z.eqb_spec a b)
         | |- context [(?a <=? ?b)%Z] => destruct (Z.leb_spec a b)
         end;
  cbn [negb andb].

Section CaretOrder.

Variable lib : urllib.
Variable typing_attrs : option typing_attributes.
Variable shortcuts : list text.
Variable plugins : list plugin.
Variables caret1 caret2 : Z.
Hypothesis caret1_past_start : (1 <= caret1)%Z.
Hypothesis carets_in_order : (caret1 <= caret2)%Z.

Let body1 := body lib typing_attrs shortcuts plugins caret1.
Let body2 := body lib typing_attrs shortcuts plugins caret2.
Let loop1 := loop lib typing_attrs shortcuts plugins caret1.
Let loop2 := loop lib typing_attrs shortcuts plugins caret2.

Lemma body_caret_order : forall st1 st2 c tl st1' st2',
  caret_order_inv caret1 caret2 st1 st2 ->
  rest st1 = c :: tl ->
  body1 st1 = Return st1' -> body2 st2 = Return st2' ->
  caret_order_inv caret1 caret2 st1' st2'.
Proof.
  intros st1 st2 c tl st1' st2' (Hsame & Hinv1 & Hinv2 & Hcover & Horder)
         Hr1 Hb1 Hb2.
  unfold body1, body2 in Hb1, Hb2.
  assert (Hr2 : rest st2 = c :: tl) by (destruct Hsame as [<- _]; exact Hr1).
  assert (Hsame' : same_text_state st1' st2').
  { pose proof (body_caret_irrelevant lib typing_attrs shortcuts plugins
                  caret1 caret2 st1 st2 Hsame) as H.
    rewrite Hb1, Hb2 in H. exact H. }
  assert (Hinv1' : caret_inv caret1 st1').
  { eapply caret_inv_step; [|exact Hinv1].
    split; [rewrite Hr1; discriminate | exact Hb1]. }
  assert (Hinv2' : caret_inv caret2 st2').
  { eapply caret_inv_step; [|exact Hinv2].
    split; [rewrite Hr2; discriminate | exact Hb2]. }
  split; [exact Hsame'|]. split; [exact Hinv1'|]. split; [exact Hinv2'|].
  clear Hsame' Hinv1' Hinv2'.
  destruct Hsame as (Hrest & Hplain & Hres).
  destruct Hinv1 as [Hp1 Hl1]. destruct Hinv2 as [Hp2 Hl2].
  pose proof (alength_nonneg (result st1)) as Hlen.
  destruct (body_cases _ _ _ _ _ _ _ _ _ Hr1 Hb1)
    as [[Hc ->]|[Hc (token & rest' & pill & Ht & Hd & ->)]];
    destruct (body_cases _ _ _ _ _ _ _ _ _ Hr2 Hb2)
      as [[Hc' ->]|[Hc' (token' & rest'' & pill' & Ht' & Hd' & ->)]];
    try congruence.
  - unfold after_delimiter.
    cbn [plain_index caret_set caret_attr_index].
    rewrite <- Hplain, <- Hres.
    destruct (caret_set st1) eqn:S1, (caret_set st2) eqn:S2;
      use_latches; split_tests; split; intros; try reflexivity;
      try discriminate; try lia.
  - rewrite <- Hrest, Ht in Ht'. inversion Ht'; subst token' rest''.
    rewrite Hd in Hd'. inversion Hd'; subst pill'. clear Ht' Hd'.
    pose proof (len_nonneg token) as Htok.
    destruct pill as [[raw display]|]; unfold after_token;
      cbn [plain_index caret_set caret_attr_index];
      rewrite <- Hplain, <- Hres;
      destruct (caret_set st1) eqn:S1, (caret_set st2) eqn:S2;
      use_latches; split_tests; split; intros; try reflexivity;
      try discriminate; try lia.
Qed.

Lemma loop_caret_order : forall fuel st1 st2 stf1 stf2,
  caret_order_inv caret1 caret2 st1 st2 ->
  loop1 fuel st1 = Some (Return stf1) ->
  loop2 fuel st2 = Some (Return stf2) ->
  caret_order_inv caret1 caret2 stf1 stf2.
Proof.
  induction fuel as [|fuel IH]; intros st1 st2 stf1 stf2 Hinv;
    pose proof Hinv as ((Hrest & _) & _); unfold loop1, loop2; simpl;
    rewrite <- Hrest; destruct (rest st1) as [|c tl] eqn:Hr;
    try discriminate;
    try (intros H1 H2; inversion H1; inversion H2; subst; exact Hinv).
  fold body1 body2.
  destruct (body1 st1) as [st1'|] eqn:Hb1; [|discriminate].
  destruct (body2 st2) as [st2'|] eqn:Hb2; [|discriminate].
  apply IH. eapply body_caret_order; eassumption.
Qed.

(** What holds of caret monotonicity: past the position 0 the rendered
    caret does not decrease when the plain caret grows. *)
Lemma caret_monotone_past_start : forall t buf1 idx1 buf2 idx2,
  build_input_attributed_with_caret lib typing_attrs shortcuts plugins
    caret1 t = Some (Return (buf1, idx1)) ->
  build_input_attributed_with_caret lib typing_attrs shortcuts plugins
    caret2 t = Some (Return (buf2, idx2)) ->
  (idx1 <= idx2)%Z.
Proof.
  intros t buf1 idx1 buf2 idx2. unfold build_input_attributed_with_caret.
  fold loop1 loop2.
  destruct (loop1 (length t) (initial t)) as [[stf1|]|] eqn:E1;
    try discriminate.
  destruct (loop2 (length t) (initial t)) as [[stf2|]|] eqn:E2;
    try discriminate.
  assert (Hinit : caret_order_inv caret1 caret2 (initial t) (initial t)).
  { split; [repeat split|].
    split; [apply caret_inv_initial|]. split; [apply caret_inv_initial|].
    simpl. split; [lia | discriminate]. }
  pose proof (loop_caret_order _ _ _ _ _ Hinit E1 E2)
    as ((_ & Hplain & Hres) & [_ Hl1] & [_ Hl2] & Hcover & Horder).
  unfold clamp_caret. intros H1 H2. inversion H1; inversion H2; subst.
  clear H1 H2. rewrite <- Hres in *.
  pose proof (alength_nonneg (result stf1)) as Hlen.
  destruct (caret_set stf1) eqn:S1, (caret_set stf2) eqn:S2; use_latches;
    try (assert (false = true) by (apply Hcover; lia); discriminate);
    rewrite ?clamp_below by lia; lia.
Qed.

End CaretOrder.

(** ** Quotes in [find_token_range] *)

(** The forward scan of [find_token_range] does toggle on quotes: every
    delimiter it passes is inside quotes, and it stops at the end of the
    text or on a delimiter outside quotes. *)
Lemma scan_right_quotes : forall after q e,
  exists n,
    scan_right after q e = (e + n)%nat
    /\ (n <= length after)%nat
    /\ (forall k, (k < n)%nat -> is_delim (nth k after 0%N) = true ->
                  quote_state q (firstn k after) = true)
    /\ ((n < length after)%nat ->
        is_delim (nth n after 0%N) = true
        /\ quote_state q (firstn n after) = false).
Proof.
  induction after as [|c after IH]; intros q e.
  - exists 0%nat. simpl. repeat split; try lia.
  - cbn [scan_right]. destruct (char_eqb c QUOTE) eqn:Eq.
    + destruct (IH (negb q) (S e)) as (n & Hn & Hle & Hin & Hend).
      exists (S n). rewrite Hn. simpl length.
      split; [lia|]. split; [lia|]. split.
      * intros [|k] Hk Hd.
        -- apply char_eqb_eq in Eq. subst c. discriminate.
        -- cbn [firstn]. unfold quote_state. cbn [fold_left]. rewrite Eq.
           apply Hin; [lia | exact Hd].
      * intros Hlt. cbn [firstn nth]. unfold quote_state. cbn [fold_left].
        rewrite Eq. apply Hend. lia.
    + destruct (is_delim c && negb q) eqn:Ed.
      * exists 0%nat. apply andb_prop in Ed. destruct Ed as [Hd Hq].
        apply negb_true_iff in Hq. subst q. simpl length.
        split; [lia|]. split; [lia|]. split; [intros k Hk; lia|].
        intros _. split; [exact Hd | reflexivity].
      * destruct (IH q (S e)) as (n & Hn & Hle & Hin & Hend).
        exists (S n). rewrite Hn. simpl length.
        split; [lia|]. split; [lia|]. split.
        -- intros [|k] Hk Hd.
           ++ cbn [nth] in Hd. rewrite Hd in Ed. simpl in Ed.
              apply negb_false_iff in Ed. subst q. reflexivity.
           ++ cbn [firstn]. unfold quote_state. cbn [fold_left]. rewrite Eq.
              apply Hin; [lia | exact Hd].
        -- intros Hlt. cbn [firstn nth]. unfold quote_state. cbn [fold_left].
           rewrite Eq. apply Hend. lia.
Qed.

(** ** Texts on which the pass returns *)

Lemma plain_ascii_app : forall a b,
  plain_ascii (a ++ b) = plain_ascii a && plain_ascii b.
Proof. intros a b. unfold plain_ascii. apply forallb_app. Qed.

Lemma plain_ascii_skipn : forall n s,
  plain_ascii s = true -> plain_ascii (skipn n s) = true.
Proof.
  intros n s H. rewrite <- (firstn_skipn n s), plain_ascii_app in H.
  apply andb_prop in H. apply H.
Qed.

Lemma plain_ascii_dropwhile : forall f s,
  plain_ascii s = true -> plain_ascii (dropwhile f s) = true.
Proof.
  intros f s. induction s as [|c s IH]; simpl; intros H; [reflexivity|].
  destruct (f c); [|exact H].
  apply andb_prop in H. apply IH, H.
Qed.

Lemma plain_ascii_takewhile : forall f s,
  plain_ascii s = true -> plain_ascii (takewhile f s) = true.
Proof.
  intros f s. induction s as [|c s IH]; simpl; intros H; [reflexivity|].
  apply andb_prop in H. destruct H as [Hc Hs].
  destruct (f c); [|reflexivity]. simpl. rewrite Hc. apply IH, Hs.
Qed.

Lemma plain_ascii_filter : forall f s,
  plain_ascii s = true -> plain_ascii (filter f s) = true.
Proof.
  intros f s. induction s as [|c s IH]; simpl; intros H; [reflexivity|].
  apply andb_prop in H. destruct H as [Hc Hs].
  destruct (f c); [simpl; rewrite Hc|]; apply IH, Hs.
Qed.

Lemma plain_ascii_checks : forall s,
  plain_ascii s = true ->
  char_in 91%N s = false /\ char_in 93%N s = false
  /\ forallb (fun c => (c <? 128)%N) s = true.
Proof.
  unfold plain_ascii, char_in.
  induction s as [|c s IH]; cbn [forallb existsb]; intros H; [auto|].
  apply andb_prop in H. destruct H as [Hc Hs].
  apply andb_prop in Hc. destruct Hc as [Hc H128].
  apply andb_prop in Hc. destruct Hc as [H91 H93].
  apply negb_true_iff in H91. apply negb_true_iff in H93.
  destruct (IH Hs) as (-> & -> & ->).
  rewrite (char_eqb_sym 91%N c), (char_eqb_sym 93%N c), H91, H93, H128. auto.
Qed.

Section Returns.

Variable lib : urllib.
Variable typing_attrs : option typing_attributes.
Variable shortcuts : list text.
Variable plugins : list plugin.
Variable caret : Z.

Lemma urlparse_returns : forall url,
  plain_ascii url = true -> exists parsed, urlparse lib url = Return parsed.
Proof.
  intros url H. unfold urlparse.
  set (url1 := filter _ (dropwhile _ url)).
  assert (H1 : plain_ascii url1 = true)
    by (apply plain_ascii_filter, plain_ascii_dropwhile, H).
  set (split := match find_char 58%N url1 with
                | Some (S i') => _
                | _ => _
                end).
  assert (H2 : plain_ascii (snd split) = true).
  { unfold split. destruct (find_char 58%N url1) as [[|i']|]; try exact H1.
    destruct (is_ascii_alpha (hd 0%N url1)
              && forallb is_scheme_char (firstn (S i') url1));
      [apply plain_ascii_skipn|]; exact H1. }
  destruct split as [sch url2]. cbn [snd] in H2.
  destruct (startswith (of_string "//") url2).
  - set (netloc := takewhile _ (skipn 2 url2)).
    assert (H3 : plain_ascii netloc = true)
      by (apply plain_ascii_takewhile, plain_ascii_skipn, H2).
    destruct (plain_ascii_checks _ H3) as (-> & -> & Hascii).
    cbn [andb orb negb bind]. rewrite Hascii, orb_true_r. cbn [orb bind].
    eauto.
  - cbn [bind is_empty orb]. eauto.
Qed.

Lemma token_is_url_tag_returns : forall tok,
  plain_ascii tok = true -> exists b, token_is_url_tag lib tok = Return b.
Proof.
  intros tok H. unfold token_is_url_tag.
  destruct (negb _); [eauto|].
  destruct (urlparse_returns (tl tok)) as [parsed ->].
  - destruct tok as [|c tok]; [reflexivity|].
    simpl in H. apply andb_prop in H. apply H.
  - cbn [bind]. eauto.
Qed.

Lemma decide_pill_type_returns : forall token next_delim,
  plain_ascii token = true ->
  exists pill,
    decide_pill_type lib shortcuts plugins token next_delim = Return pill.
Proof.
  intros token next_delim H. unfold decide_pill_type.
  destruct (_collect_prefixes plugins) as [[normal path] ponly].
  destruct (display_string_for_tag_returns token plugins) as [d ->].
  destruct (token_is_url_tag_returns token H) as [u ->].
  cbn [bind].
  repeat match goal with
         | |- context [if ?b then _ else _] => destruct b
         end; eauto.
Qed.

Lemma loop_returns : forall fuel st,
  (length (rest st) <= fuel)%nat ->
  plain_ascii (rest st) = true ->
  exists stf,
    loop lib typing_attrs shortcuts plugins caret fuel st = Some (Return stf).
Proof.
  induction fuel as [|fuel IH]; intros st Hlen Hascii; simpl.
  - destruct (rest st); [eauto | simpl in Hlen; lia].
  - destruct (rest st) as [|c tl] eqn:Hr; [eauto|].
    assert (Hbody : exists st',
              body lib typing_attrs shortcuts plugins caret st = Return st'
              /\ plain_ascii (rest st') = true).
    { unfold body. rewrite Hr. destruct (is_delim c).
      - eexists. split; [reflexivity|]. simpl.
        simpl in Hascii. apply andb_prop in Hascii. apply Hascii.
      - rewrite <- Hr. destruct (read_token (rest st)) as [token rest'] eqn:Ht.
        pose proof (read_token_app _ _ _ Ht) as Happ.
        rewrite Hr in Happ. rewrite Happ, plain_ascii_app in Hascii.
        apply andb_prop in Hascii. destruct Hascii as [Htok Hrest].
        destruct (decide_pill_type_returns token (hd_error rest') Htok)
          as [pill ->].
        cbn [bind]. eexists. split; [reflexivity|].
        destruct pill as [[raw display]|]; exact Hrest. }
    destruct Hbody as (st' & Hb & Hascii').
    rewrite Hb. apply IH; [|exact Hascii'].
    pose proof (body_progress _ _ _ _ _ _ _ _ _ Hr Hb) as Hp.
    rewrite Hr in Hp. simpl in *. lia.
Qed.

(** On a text of ASCII characters without square brackets the pass
    returns a buffer and a caret. *)
Lemma build_returns_on_plain_ascii : forall t,
  plain_ascii t = true ->
  exists buf idx,
    build_input_attributed_with_caret lib typing_attrs shortcuts plugins
      caret t = Some (Return (buf, idx)).
Proof.
  intros t H. unfold build_input_attributed_with_caret.
  destruct (loop_returns (length t) (initial t)) as [stf ->];
    [simpl; lia | exact H |].
  unfold clamp_caret. eauto.
Qed.

End Returns.

(** * Further properties *)

(** ** The scans of [find_token_range] and [_current_fragment] *)

Lemma is_delim_not_QUOTE : forall c, is_delim c = true -> char_eqb c QUOTE = false.
Proof.
  intros c H. unfold is_delim in H.
  apply orb_prop in H. destruct H as [H|H];
    [apply orb_prop in H; destruct H as [H|H]|];
    apply char_eqb_eq in H; subst; reflexivity.
Qed.

Lemma scan_left_le : forall before q start,
  (scan_left before q start <= start)%nat.
Proof.
  induction before as [|c before IH]; intros q [|start]; simpl; try lia.
  destruct (char_eqb c QUOTE); [specialize (IH (negb q) start); lia|].
  destruct (is_delim c && negb q); [lia|].
  specialize (IH q start). lia.
Qed.

(** Where the backward scan stops: at the start of the text or right
    after a delimiter. *)
Lemma scan_left_split : forall before q,
  exists passed kept,
    before = passed ++ kept
    /\ scan_left before q (length before) = length kept
    /\ (kept = [] \/ exists d kept', kept = d :: kept' /\ is_delim d = true).
Proof.
  induction before as [|c before IH]; intros q.
  - exists [], []. simpl. auto.
  - cbn [scan_left length]. destruct (char_eqb c QUOTE).
    + destruct (IH (negb q)) as (passed & kept & -> & Hs & Hk).
      exists (c :: passed), kept. auto.
    + destruct (is_delim c && negb q) eqn:E.
      * exists [], (c :: before). apply andb_prop in E. destruct E as [Hd _].
        repeat split. right. eauto.
      * destruct (IH q) as (passed & kept & -> & Hs & Hk).
        exists (c :: passed), kept. auto.
Qed.

(** The backward scan passes characters that hold no quote, and no
    delimiter unless it is inside quotes. *)
Lemma scan_left_through : forall passed kept q n,
  forallb (fun c => negb (char_eqb c QUOTE) && (q || negb (is_delim c)))
          passed = true ->
  scan_left (passed ++ kept) q (n + length passed) = scan_left kept q n.
Proof.
  induction passed as [|c passed IH]; intros kept q n H.
  - simpl. rewrite Nat.add_0_r. reflexivity.
  - cbn [forallb] in H. apply andb_prop in H. destruct H as [Hc Hp].
    apply andb_prop in Hc. destruct Hc as [Hq Hd].
    apply negb_true_iff in Hq.
    cbn [app length]. rewrite Nat.add_succ_r. cbn [scan_left]. rewrite Hq.
    replace (is_delim c && negb q) with false.
    + apply IH. exact Hp.
    + destruct q; [symmetry; apply andb_false_r|].
      simpl in Hd. apply negb_true_iff in Hd. rewrite Hd. reflexivity.
Qed.

Lemma scan_left_stop : forall kept n,
  (kept = [] \/ exists d kept', kept = d :: kept' /\ is_delim d = true) ->
  scan_left kept false n = n.
Proof.
  intros kept n [->|(d & kept' & -> & Hd)].
  - destruct n; reflexivity.
  - destruct n; [reflexivity|]. cbn [scan_left].
    rewrite (is_delim_not_QUOTE _ Hd), Hd. reflexivity.
Qed.

(** The forward scan passes characters that hold no quote, and no
    delimiter unless it is inside quotes. *)
Lemma scan_right_through : forall passed after q e,
  forallb (fun c => negb (char_eqb c QUOTE) && (q || negb (is_delim c)))
          passed = true ->
  scan_right (passed ++ after) q e = scan_right after q (e + length passed).
Proof.
  induction passed as [|c passed IH]; intros after q e H.
  - simpl. rewrite Nat.add_0_r. reflexivity.
  - cbn [forallb] in H. apply andb_prop in H. destruct H as [Hc Hp].
    apply andb_prop in Hc. destruct Hc as [Hq Hd].
    apply negb_true_iff in Hq.
    cbn [app length scan_right]. rewrite Hq.
    replace (is_delim c && negb q) with false.
    + rewrite IH by exact Hp. f_equal. lia.
    + destruct q; [symmetry; apply andb_false_r|].
      simpl in Hd. apply negb_true_iff in Hd. rewrite Hd. reflexivity.
Qed.

Lemma scan_right_stop : forall after e,
  (after = [] \/ exists d after', after = d :: after' /\ is_delim d = true) ->
  scan_right after false e = e.
Proof.
  intros after e [->|(d & after' & -> & Hd)]; [reflexivity|].
  cbn [scan_right]. rewrite (is_delim_not_QUOTE _ Hd), Hd. reflexivity.
Qed.

Lemma word_chars_pass : forall q w,
  forallb is_word_char w = true ->
  forallb (fun c => negb (char_eqb c QUOTE) && (q || negb (is_delim c))) w
  = true.
Proof.
  intros q w H. rewrite forallb_forall in *. intros c Hc.
  specialize (H c Hc). unfold is_word_char in H.
  apply andb_prop in H. destruct H as [Hd Hq]. rewrite Hq, Hd.
  destruct q; reflexivity.
Qed.

Lemma forallb_rev : forall (f : char -> bool) s,
  forallb f (rev s) = forallb f s.
Proof.
  intros f s. induction s as [|c s IH]; [reflexivity|].
  simpl. rewrite forallb_app, IH. simpl. rewrite andb_true_r. apply andb_comm.
Qed.

Lemma forallb_firstn : forall (f : char -> bool) n s,
  forallb f s = true -> forallb f (firstn n s) = true.
Proof.
  intros f n s H. rewrite <- (firstn_skipn n s), forallb_app in H.
  apply andb_prop in H. apply H.
Qed.

Lemma forallb_skipn : forall (f : char -> bool) n s,
  forallb f s = true -> forallb f (skipn n s) = true.
Proof.
  intros f n s H. rewrite <- (firstn_skipn n s), forallb_app in H.
  apply andb_prop in H. apply H.
Qed.

(** The caret the two scans start from. *)
Lemma clamp_fragment : forall t cursor,
  (if (cursor >? len t)%Z then len t
   else if (cursor <? 0)%Z then 0%Z else cursor)
  = Z.max 0 (Z.min cursor (len t)).
Proof.
  intros t cursor. pose proof (len_nonneg t).
  destruct (Z.gtb_spec cursor (len t)); [lia|].
  destruct (Z.ltb_spec cursor 0); lia.
Qed.

Lemma clamp_token_range : forall t caret,
  (let caret := if (caret <? 0)%Z then 0%Z else caret in
   if (caret >? len t)%Z then len t else caret)
  = Z.max 0 (Z.min caret (len t)).
Proof.
  intros t caret. pose proof (len_nonneg t). cbv zeta.
  destruct (Z.ltb_spec caret 0).
  - destruct (Z.gtb_spec 0 (len t)); lia.
  - destruct (Z.gtb_spec caret (len t)); lia.
Qed.

Lemma find_token_range_unfold : forall t caret,
  find_token_range t caret
  = let c := Z.to_nat (Z.max 0 (Z.min caret (len t))) in
    (scan_left (rev (firstn c t)) false c, scan_right (skipn c t) false c).
Proof.
  intros t caret. unfold find_token_range. cbv zeta.
  pose proof (clamp_token_range t caret) as E. cbv zeta in E.
  rewrite E. reflexivity.
Qed.

Lemma _current_fragment_unfold : forall t cursor,
  _current_fragment t cursor
  = let c := Z.to_nat (Z.max 0 (Z.min cursor (len t))) in
    let start := scan_left (rev (firstn c t)) false c in
    firstn (c - start) (skipn start t).
Proof.
  intros t cursor. unfold _current_fragment. cbv zeta.
  rewrite (clamp_fragment t cursor). reflexivity.
Qed.

Lemma clamped_in_text : forall t caret,
  (Z.to_nat (Z.max 0 (Z.min caret (len t))) <= length t)%nat.
Proof. intros t caret. unfold len. lia. Qed.

Lemma nth_error_middle : forall (a : text) x b,
  nth_error (a ++ x :: b) (length a) = Some x.
Proof.
  intros a x b. rewrite nth_error_app2 by lia.
  rewrite Nat.sub_diag. reflexivity.
Qed.

(** ** [find_token_range] *)

(** X1. For every text and every caret, in range or not, the token range
    holds the clamped caret and lies in the text; it starts at the start
    of the text or right after a delimiter, and ends at the end of the
    text or on a delimiter. *)
Theorem find_token_range_delimited : forall t caret,
  let c := Z.to_nat (Z.max 0 (Z.min caret (len t))) in
  let r := find_token_range t caret in
  (fst r <= c <= snd r)%nat /\ (snd r <= length t)%nat
  /\ (fst r = 0%nat
      \/ exists d, nth_error t (fst r - 1) = Some d /\ is_delim d = true)
  /\ (snd r = length t
      \/ exists d, nth_error t (snd r) = Some d /\ is_delim d = true).
Proof.
  intros t caret c r. unfold r. rewrite find_token_range_unfold. fold c.
  cbv zeta. cbn [fst snd].
  pose proof (clamped_in_text t caret) as Hc. fold c in Hc.
  pose proof (scan_left_le (rev (firstn c t)) false c) as Hl.
  destruct (scan_right_quotes (skipn c t) false c)
    as (n & Hn & Hle & _ & Hend).
  rewrite length_skipn in Hle, Hend.
  destruct (scan_left_split (rev (firstn c t)) false)
    as (passed & kept & Hsplit & Hs & Hk).
  rewrite length_rev, length_firstn, Nat.min_l in Hs by exact Hc.
  rewrite Hn, Hs. repeat split; try lia.
  - destruct Hk as [->|(d & kept' & -> & Hd)]; [left; reflexivity|].
    right. exists d. split; [|exact Hd].
    apply (f_equal (@rev char)) in Hsplit.
    rewrite rev_involutive, rev_app_distr in Hsplit. cbn [rev] in Hsplit.
    rewrite <- (firstn_skipn c t), Hsplit, <- !app_assoc. cbn [app length].
    rewrite Nat.sub_1_r. cbn [Nat.pred].
    rewrite <- (length_rev kept'). apply nth_error_middle.
  - destruct (Nat.eq_dec (c + n) (length t)) as [E|E]; [left; exact E|].
    right. destruct Hend as [Hd _]; [lia|].
    exists (nth n (skipn c t) 0%N). split; [|exact Hd].
    rewrite <- nth_error_skipn. apply nth_error_nth'.
    rewrite length_skipn. lia.
Qed.

(** X2. On a word without quotes that is delimited on both sides, every
    caret from the start of the word to its end gives the range of the
    word. *)
Theorem find_token_range_of_word : forall pre w post caret,
  forallb is_word_char w = true ->
  (pre = [] \/ exists pre' d, pre = pre' ++ [d] /\ is_delim d = true) ->
  (post = [] \/ exists d post', post = d :: post' /\ is_delim d = true) ->
  (len pre <= caret <= len pre + len w)%Z ->
  find_token_range (pre ++ w ++ post) caret
  = (length pre, (length pre + length w)%nat).
Proof.
  intros pre w post caret Hw Hpre Hpost Hcaret.
  rewrite find_token_range_unfold. cbv zeta.
  assert (Hj : exists j, (j <= length w)%nat
                         /\ Z.to_nat (Z.max 0 (Z.min caret
                                                 (len (pre ++ w ++ post))))
                            = (length pre + j)%nat).
  { exists (Z.to_nat (caret - len pre)). unfold len in *.
    rewrite !length_app. split; lia. }
  destruct Hj as (j & Hj & ->).
  rewrite firstn_app_2, skipn_app.
  replace (length pre + j - length pre)%nat with j by lia.
  rewrite (skipn_all2 pre) by lia. cbn [app].
  rewrite firstn_app, skipn_app.
  replace (j - length w)%nat with 0%nat by lia. cbn [firstn skipn].
  rewrite app_nil_r, rev_app_distr.
  f_equal.
  - replace (length pre + j)%nat
      with (length pre + length (rev (firstn j w)))%nat
      by (rewrite length_rev, length_firstn; lia).
    rewrite scan_left_through.
    + apply scan_left_stop.
      destruct Hpre as [->|(pre' & d & -> & Hd)]; [left; reflexivity|].
      right. rewrite rev_app_distr. cbn. eauto.
    + apply word_chars_pass. rewrite forallb_rev.
      apply forallb_firstn. exact Hw.
  - rewrite scan_right_through
      by (apply word_chars_pass, forallb_skipn; exact Hw).
    rewrite scan_right_stop by exact Hpost.
    rewrite length_skipn. lia.
Qed.

Lemma find_token_range_of_word_witness :
  find_token_range (of_string "hello world foo") 8 = (6%nat, 11%nat).
Proof.
  apply (find_token_range_of_word (of_string "hello ") (of_string "world")
           (of_string " foo") 8).
  - reflexivity.
  - right. exists (of_string "hello"), SPACE. split; reflexivity.
  - right. exists SPACE, (of_string "foo"). split; reflexivity.
  - vm_compute. split; discriminate.
Defined.

(** X3. The forward scan of [find_token_range] honours quotes: every
    delimiter from the clamped caret to the end of the range is inside
    quotes opened after the caret, and a range that ends before the end
    of the text ends outside quotes. *)
Theorem find_token_range_quoted_delimiters : forall t caret,
  let c := Z.to_nat (Z.max 0 (Z.min caret (len t))) in
  let e := snd (find_token_range t caret) in
  (forall k d,
     (c <= k < e)%nat -> nth_error t k = Some d -> is_delim d = true ->
     quote_state false (firstn (k - c) (skipn c t)) = true)
  /\ ((e < length t)%nat ->
      quote_state false (firstn (e - c) (skipn c t)) = false).
Proof.
  intros t caret c e. unfold e. rewrite find_token_range_unfold. fold c.
  cbv zeta. cbn [snd].
  pose proof (clamped_in_text t caret) as Hc. fold c in Hc.
  destruct (scan_right_quotes (skipn c t) false c)
    as (n & Hn & Hle & Hin & Hend).
  rewrite length_skipn in Hle, Hend. rewrite Hn. split.
  - intros k d Hk Hnth Hd. apply Hin; [lia|].
    replace k with (c + (k - c))%nat in Hnth by lia.
    rewrite <- nth_error_skipn in Hnth.
    erewrite nth_error_nth; [exact Hd | exact Hnth].
  - intros Hlt. replace (c + n - c)%nat with n by lia.
    apply Hend. lia.
Qed.

Lemma find_token_range_quoted_delimiters_witness :
  snd (find_token_range quote_inside_text 0) = 6%nat
  /\ quote_state false (firstn 3 quote_inside_text) = true.
Proof.
  split; [reflexivity|].
  apply (proj1 (find_token_range_quoted_delimiters quote_inside_text 0)
           3%nat SPACE); [vm_compute; lia | reflexivity | reflexivity].
Defined.

(** ** [_current_fragment] *)






(** ** The registries *)

Lemma In_prefixes_of : forall p x,
  In x (prefixes_of p)
  <-> exists prs, get_prefixes p = Return prs /\ In x prs.
Proof.
  intros p x. unfold prefixes_of. destruct (get_prefixes p) as [prs|e].
  - split; [eauto|]. intros (prs' & H & Hin). inversion H; subst. exact Hin.
  - split; [intros []|]. intros (prs' & H & _). discriminate.
Qed.

(** X7. What [_collect_prefixes] returns: the normal prefixes are those of
    the plugins whose [get_prefixes] returns, the path prefixes are those
    of all plugins, whether their [get_prefixes] raises or not, and the
    prefix-only ones are the normal prefixes that end with [://]. *)
Theorem collected_prefix_sets : forall plugins x,
  let '(normal, path_like, prefix_only) := _collect_prefixes plugins in
  (In x normal
   <-> exists p prs, In p plugins /\ get_prefixes p = Return prs /\ In x prs)
  /\ (In x path_like <-> exists p, In p plugins /\ In x (PATH_PREFIXES p))
  /\ (In x prefix_only
      <-> In x normal /\ endswith (of_string "://") x = true).
Proof.
  intros plugins x. rewrite collect_prefixes_spec.
  split; [|split].
  - rewrite in_flat_map. split.
    + intros (p & Hp & Hx). apply In_prefixes_of in Hx.
      destruct Hx as (prs & Hg & Hin). eauto.
    + intros (p & prs & Hp & Hg & Hin). exists p. split; [exact Hp|].
      apply In_prefixes_of. eauto.
  - apply in_flat_map.
  - apply filter_In.
Qed.

(** X8. The first plugin that matches a tag gives its label; the plugins
    after it are not asked. *)
Theorem display_string_first_match : forall raw_tag skipped p later label,
  forallb (fun q => negb (matched raw_tag q)) skipped = true ->
  matched raw_tag p = true ->
  display_string p raw_tag = Return label ->
  display_string_for_tag raw_tag (skipped ++ p :: later) = Return label.
Proof.
  intros raw_tag skipped p later label Hskip Hmatch Hlabel.
  rewrite display_string_for_tag_skip by exact Hskip.
  simpl. rewrite Hmatch, Hlabel. reflexivity.
Qed.

Lemma display_string_first_match_witness :
  display_string_for_tag (of_string "@clipboard")
    ([file_plugin; url_plugin] ++ clipboard_plugin :: [unlabelled_plugin])
  = Return (of_string "clipboard").
Proof.
  apply display_string_first_match; reflexivity.
Defined.

(** X9. A tag that no plugin matches is its own label. *)
Theorem display_string_without_match : forall raw_tag plugins,
  forallb (fun q => negb (matched raw_tag q)) plugins = true ->
  display_string_for_tag raw_tag plugins = Return raw_tag.
Proof.
  intros raw_tag plugins H.
  rewrite <- (app_nil_r plugins).
  rewrite display_string_for_tag_skip by exact H. reflexivity.
Qed.

Lemma display_string_without_match_witness :
  display_string_for_tag (of_string "@unknown") sample_plugins
  = Return (of_string "@unknown").
Proof.
  apply display_string_without_match. reflexivity.
Defined.

(** ** The rendering pass as a whole *)

(** X10. Neither the buffer nor whether the pass raises depends on the
    caret. *)
Theorem rendered_buffer_ignores_caret :
  forall lib typing_attrs shortcuts plugins caret1 caret2 t,
  match build_input_attributed_with_caret lib typing_attrs shortcuts plugins
          caret1 t,
        build_input_attributed_with_caret lib typing_attrs shortcuts plugins
          caret2 t with
  | Some (Return (buf1, _)), Some (Return (buf2, _)) => buf1 = buf2
  | Some (Raise e1), Some (Raise e2) => e1 = e2
  | None, None => True
  | _, _ => False
  end.
Proof.
  intros lib typing_attrs shortcuts plugins caret1 caret2 t.
  unfold build_input_attributed_with_caret.
  assert (Hs : same_text_state (initial t) (initial t)) by (repeat split).
  pose proof (loop_caret_irrelevant lib typing_attrs shortcuts plugins
                caret1 caret2 (length t) _ _ Hs) as H.
  destruct (loop lib typing_attrs shortcuts plugins caret1 (length t)
              (initial t)) as [[st1|e1]|];
    destruct (loop lib typing_attrs shortcuts plugins caret2 (length t)
                (initial t)) as [[st2|e2]|];
    try contradiction; try exact H; try exact I.
  unfold clamp_caret. apply H.
Qed.

(** X11. From the caret 1 on, the rendered caret does not decrease when
    the plain caret grows. *)
Theorem rendered_caret_monotone_from_one :
  forall lib typing_attrs shortcuts plugins caret1 caret2 t
         buf1 idx1 buf2 idx2,
  (1 <= caret1)%Z -> (caret1 <= caret2)%Z ->
  build_input_attributed_with_caret lib typing_attrs shortcuts plugins
    caret1 t = Some (Return (buf1, idx1)) ->
  build_input_attributed_with_caret lib typing_attrs shortcuts plugins
    caret2 t = Some (Return (buf2, idx2)) ->
  (idx1 <= idx2)%Z.
Proof.
  intros lib typing_attrs shortcuts plugins caret1 caret2 t
         buf1 idx1 buf2 idx2 H1 H12 Hb1 Hb2.
  exact (caret_monotone_past_start lib typing_attrs shortcuts plugins
           caret1 caret2 H1 H12 t buf1 idx1 buf2 idx2 Hb1 Hb2).
Qed.

Lemma rendered_caret_monotone_from_one_witness : (1 <= 2)%Z.
Proof.
  apply (rendered_caret_monotone_from_one lenient_urllib None
           sample_shortcuts sample_plugins 3 6 (of_string "/blog hello")
           (pill_char (of_string "/blog") (of_string "/blog")
            :: plain_run None (of_string " hello")) 1
           (pill_char (of_string "/blog") (of_string "/blog")
            :: plain_run None (of_string " hello")) 2);
    [lia | lia | vm_compute; reflexivity | vm_compute; reflexivity].
Defined.

(** X12. On every text of ASCII characters without square brackets the
    pass returns, for any caret and any registries. *)
Theorem render_pass_returns_on_ascii :
  forall lib typing_attrs shortcuts plugins caret t,
  plain_ascii t = true ->
  exists buf idx,
    build_input_attributed_with_caret lib typing_attrs shortcuts plugins
      caret t = Some (Return (buf, idx)).
Proof.
  intros lib typing_attrs shortcuts plugins caret t H.
  apply build_returns_on_plain_ascii. exact H.
Qed.

Lemma render_pass_returns_on_ascii_witness :
  exists buf idx,
    build_input_attributed_with_caret lenient_urllib None sample_shortcuts
      sample_plugins 4 recognized_text = Some (Return (buf, idx)).
Proof.
  apply render_pass_returns_on_ascii. reflexivity.
Defined.

(** ** Runs of the loop *)

Section Runs.

Variable lib : urllib.
Variable typing_attrs : option typing_attributes.
Variable shortcuts : list text.
Variable plugins : list plugin.

Let step' := step lib typing_attrs shortcuts plugins.
Let reaches' := reaches lib typing_attrs shortcuts plugins.
Let build := build_input_attributed_with_caret lib typing_attrs shortcuts
               plugins.

Lemma reaches_trans : forall caret st1 st2 st3,
  reaches' caret st1 st2 -> reaches' caret st2 st3 -> reaches' caret st1 st3.
Proof.
  intros caret st1 st2 st3 H. induction H as [st|st st' st'' Hs Hr IH].
  - auto.
  - intros H3. eapply reaches_step; [exact Hs | apply IH; exact H3].
Qed.

(** A property that every step keeps holds along a run. *)
Lemma reaches_invariant : forall caret (P : state -> Prop),
  (forall st st', step' caret st st' -> P st -> P st') ->
  forall st st', reaches' caret st st' -> P st -> P st'.
Proof.
  intros caret P Hstep st st' H. induction H as [st|st st' st'' Hs Hr IH].
  - auto.
  - intros HP. apply IH. eapply Hstep; eassumption.
Qed.

(** Every round moves the plain index forward. *)
Lemma step_plain_index : forall caret st st',
  step' caret st st' -> (plain_index st < plain_index st')%Z.
Proof.
  intros caret st st' [Hne Hb].
  destruct (rest st) as [|c tl] eqn:Hr; [contradiction|].
  destruct (body_cases _ _ _ _ _ _ _ _ _ Hr Hb)
    as [[_ ->]|[Hc (token & rest' & pill & Ht & _ & ->)]].
  - simpl. lia.
  - rewrite Hr in Ht. destruct (read_token_head _ _ _ _ Hc Ht) as [tok' ->].
    destruct pill as [[raw display]|]; unfold after_token, len;
      cbn [plain_index length]; lia.
Qed.

Lemma reaches_plain_index : forall caret st st',
  reaches' caret st st' ->
  (plain_index st <= plain_index st')%Z
  /\ (plain_index st = plain_index st' -> st' = st).
Proof.
  intros caret st st' H. induction H as [st|st st' st'' Hs Hr [IH1 IH2]].
  - split; [lia | reflexivity].
  - pose proof (step_plain_index _ _ _ Hs). split; lia.
Qed.

(** The plain index counts the characters read. *)
Lemma reaches_text_accounting : forall caret t st,
  reaches' caret (initial t) st ->
  (plain_index st + len (rest st) = len t)%Z.
Proof.
  intros caret t st H.
  apply (reaches_invariant caret
           (fun s => (plain_index s + len (rest s) = len t)%Z)
           ) with (st := initial t); [|exact H|simpl; lia].
  clear. intros st st' [Hne Hb] Hacc.
  destruct (rest st) as [|c tl] eqn:Hr; [contradiction|].
  destruct (body_cases _ _ _ _ _ _ _ _ _ Hr Hb)
    as [[_ ->]|[Hc (token & rest' & pill & Ht & _ & ->)]].
  - unfold after_delimiter, len in *. cbn [plain_index rest length] in *. lia.
  - pose proof (read_token_app _ _ _ Ht) as Happ. rewrite Hr in Happ.
    rewrite Happ in Hacc. unfold len in *. rewrite length_app in Hacc.
    destruct pill as [[raw display]|]; unfold after_token, len;
      cbn [plain_index rest]; lia.
Qed.

(** A caret is latched at a position that is not negative. *)
Lemma reaches_latched_nonneg : forall caret t st,
  reaches' caret (initial t) st ->
  caret_set st = true -> (0 <= caret)%Z.
Proof.
  intros caret t st H Hlatched.
  assert (Hi : (0 <= plain_index st)%Z
               /\ (caret_set st = true -> (0 <= caret)%Z));
    [|apply Hi; exact Hlatched].
  clear Hlatched.
  apply (reaches_invariant caret
           (fun s => (0 <= plain_index s)%Z
                     /\ (caret_set s = true -> (0 <= caret)%Z)))
    with (st := initial t);
    [|exact H|simpl; split; [lia|discriminate]].
  - clear. intros st st' [Hne Hb] [Hp Hset].
    destruct (rest st) as [|c tl] eqn:Hr; [contradiction|].
    destruct (body_cases _ _ _ _ _ _ _ _ _ Hr Hb)
      as [[_ ->]|[Hc (token & rest' & pill & Ht & _ & ->)]].
    + unfold after_delimiter. cbn [plain_index caret_set]. split; [lia|].
      destruct (caret_set st); cbn [negb andb]; [auto|].
      destruct (Z.eqb_spec caret (plain_index st + 1)); [lia|discriminate].
    + pose proof (len_nonneg token).
      destruct pill as [[raw display]|]; unfold after_token;
        cbn [plain_index caret_set]; (split; [lia|]);
        (destruct (caret_set st); cbn [negb andb]; [auto|]);
        (destruct (Z.leb_spec (plain_index st) caret); cbn [andb];
         [|discriminate]);
        (destruct (Z.leb_spec caret (plain_index st + len token));
         [lia|discriminate]).
Qed.

(** The round in which the caret is latched. *)
Lemma latch_round : forall caret st stf,
  reaches' caret st stf ->
  caret_set st = false -> caret_set stf = true ->
  exists s s1,
    reaches' caret st s /\ step' caret s s1 /\ reaches' caret s1 stf
    /\ caret_set s = false /\ caret_set s1 = true.
Proof.
  intros caret st stf H. induction H as [st|st st' st'' Hs Hr IH].
  - congruence.
  - intros Hunset Hset. destruct (caret_set st') eqn:E.
    + exists st, st'. split; [apply reaches_refl|].
      split; [exact Hs|]. split; [exact Hr|]. split; assumption.
    + destruct (IH eq_refl Hset) as (s & s1 & H1 & H2 & H3 & H4 & H5).
      exists s, s1. split; [eapply reaches_step; eassumption|].
      split; [exact H2|]. split; [exact H3|]. split; assumption.
Qed.

(** Two runs over the same text go through the same rounds. *)
Lemma reaches_lockstep : forall caret1 caret2 st1 st1' st2,
  reaches' caret1 st1 st1' ->
  same_text_state st1 st2 ->
  exists st2', reaches' caret2 st2 st2' /\ same_text_state st1' st2'.
Proof.
  intros caret1 caret2 st1 st1' st2 H. revert st2.
  induction H as [st|st st' st'' [Hne Hb] Hr IH]; intros st2 Hs.
  - exists st2. split; [apply reaches_refl | exact Hs].
  - pose proof (body_caret_irrelevant lib typing_attrs shortcuts plugins
                  caret1 caret2 st st2 Hs) as Hpair.
    rewrite Hb in Hpair.
    destruct (body lib typing_attrs shortcuts plugins caret2 st2)
      as [st2'|] eqn:Hb2; [|contradiction].
    destruct (IH st2' Hpair) as (stf2 & Hreach & Hsame).
    exists stf2. split; [|exact Hsame].
    eapply reaches_step; [|exact Hreach].
    split; [|exact Hb2]. destruct Hs as [<- _]. exact Hne.
Qed.

(** A finished run is what the loop returns. *)
Lemma reaches_loop : forall caret st stf,
  reaches' caret st stf -> rest stf = [] ->
  forall fuel, (length (rest st) <= fuel)%nat ->
  loop lib typing_attrs shortcuts plugins caret fuel st = Some (Return stf).
Proof.
  intros caret st stf H. induction H as [st|st st' st'' [Hne Hb] Hr IH];
    intros Hnil fuel Hfuel.
  - destruct fuel; simpl; rewrite Hnil; reflexivity.
  - destruct (rest st) as [|c tl] eqn:Hrest; [contradiction|].
    pose proof (body_progress _ _ _ _ _ _ _ _ _ Hrest Hb) as Hp.
    rewrite Hrest in Hp.
    destruct fuel as [|fuel]; [simpl in Hfuel; lia|].
    simpl. rewrite Hrest, Hb. apply IH; [exact Hnil|]. simpl in *. lia.
Qed.

Lemma build_of_reaches : forall caret t stf,
  reaches' caret (initial t) stf -> rest stf = [] ->
  build caret t = Some (Return (clamp_caret stf)).
Proof.
  intros caret t stf H Hnil. unfold build, build_input_attributed_with_caret.
  rewrite (reaches_loop _ _ _ H Hnil (length t)) by (simpl; lia).
  reflexivity.
Qed.

End Runs.

(** ** The plain caret of a rendered position *)

Lemma caret_plain_shift : forall l a,
  fold_left caret_plain_step l a
  = (a + fold_left caret_plain_step l 0)%Z.
Proof.
  induction l as [|u l IH]; intros a; simpl; [lia|].
  rewrite IH, (IH (caret_plain_step 0 u)).
  unfold caret_plain_step. destruct (char_eqb (ch u) OBJ); [|lia].
  destruct (tag u) as [tag_text|]; [|lia].
  destruct (is_empty tag_text); lia.
Qed.

Lemma plain_before_prefix : forall a b n,
  (n <= length a)%nat -> plain_before (a ++ b) n = plain_before a n.
Proof.
  intros a b n H. unfold plain_before. rewrite firstn_app.
  replace (n - length a)%nat with 0%nat by lia.
  cbn [firstn]. rewrite app_nil_r. reflexivity.
Qed.

Lemma plain_before_app : forall a b k,
  plain_before (a ++ b) (length a + k)
  = (plain_before a (length a) + plain_before b k)%Z.
Proof.
  intros a b k. unfold plain_before.
  rewrite firstn_app, firstn_all2 by lia.
  replace (length a + k - length a)%nat with k by lia.
  rewrite firstn_all, fold_left_app. apply caret_plain_shift.
Qed.

Lemma plain_before_plain_run : forall base s k,
  forallb (fun c => negb (char_eqb c OBJ)) s = true ->
  plain_before (plain_run base s) k = Z.of_nat (Nat.min k (length s)).
Proof.
  intros base s. unfold plain_before.
  induction s as [|c s IH]; intros k H.
  - rewrite Nat.min_0_r. destruct k; reflexivity.
  - cbn [forallb] in H. apply andb_prop in H. destruct H as [Hc Hs].
    apply negb_true_iff in Hc.
    destruct k as [|k]; [reflexivity|].
    cbn [plain_run map firstn fold_left length].
    rewrite caret_plain_shift. fold (plain_run base s). rewrite (IH k Hs).
    unfold caret_plain_step. cbn [ch]. rewrite Hc.
    rewrite <- Nat.succ_min_distr. lia.
Qed.

Lemma clean_prefix : forall a b,
  no_plain_placeholder (a ++ b) = true -> no_plain_placeholder a = true.
Proof.
  intros a b H. unfold no_plain_placeholder in *. rewrite forallb_app in H.
  apply andb_prop in H. apply H.
Qed.

Lemma clean_suffix : forall a b,
  no_plain_placeholder (a ++ b) = true -> no_plain_placeholder b = true.
Proof.
  intros a b H. unfold no_plain_placeholder in *. rewrite forallb_app in H.
  apply andb_prop in H. apply H.
Qed.

Lemma clean_plain_run : forall base s,
  no_plain_placeholder (plain_run base s) = true ->
  forallb (fun c => negb (char_eqb c OBJ)) s = true.
Proof.
  intros base s. unfold no_plain_placeholder, plain_run.
  induction s as [|c s IH]; simpl; intros H; [reflexivity|].
  apply andb_prop in H. destruct H as [Hc Hs].
  rewrite Hc. apply IH. exact Hs.
Qed.

Section PlainCaret.

Variable lib : urllib.
Variable typing_attrs : option typing_attributes.
Variable shortcuts : list text.
Variable plugins : list plugin.

Let step' := step lib typing_attrs shortcuts plugins.
Let reaches' := reaches lib typing_attrs shortcuts plugins.
Let decide := decide_pill_type lib shortcuts plugins.
Let build := build_input_attributed_with_caret lib typing_attrs shortcuts
               plugins.
Let base := base_attrs typing_attrs.

(** The plain caret of the end of the buffer is the plain index. *)
Lemma step_plain_accounting : forall caret st st',
  step' caret st st' ->
  (no_plain_placeholder (result st) = true ->
   plain_before (result st) (length (result st)) = plain_index st) ->
  no_plain_placeholder (result st') = true ->
  plain_before (result st') (length (result st')) = plain_index st'.
Proof.
  intros caret st st' [Hne Hb] Hacc Hclean.
  destruct (rest st) as [|c tl] eqn:Hr; [contradiction|].
  destruct (body_cases _ _ _ _ _ _ _ _ _ Hr Hb)
    as [[Hc ->]|[Hc (token & rest' & pill & Ht & Hd & ->)]].
  - unfold after_delimiter, append_plain in *. cbn [result plain_index] in *.
    rewrite length_app, plain_before_app, (Hacc (clean_prefix _ _ Hclean)).
    rewrite plain_before_plain_run
      by (cbn [forallb]; rewrite (is_delim_not_OBJ _ Hc); reflexivity).
    reflexivity.
  - rewrite Hr in Ht. destruct (read_token_head _ _ _ _ Hc Ht) as [tok' ->].
    destruct pill as [[raw display]|].
    + destruct (decide_pill_type_some _ _ _ _ _ _ _ Hd) as [-> _].
      unfold after_token, build_tag_attributed in *.
      cbn [result plain_index] in *.
      rewrite length_app, plain_before_app,
        (Hacc (clean_prefix _ _ Hclean)).
      reflexivity.
    + unfold after_token, append_plain in *. cbn [result plain_index] in *.
      rewrite length_app, plain_before_app,
        (Hacc (clean_prefix _ _ Hclean)).
      rewrite plain_before_plain_run
        by (apply (clean_plain_run (base_attrs typing_attrs));
            apply (clean_suffix _ _ Hclean)).
      unfold plain_run. rewrite length_map, Nat.min_id. reflexivity.
Qed.

Lemma reaches_plain_accounting : forall caret t st,
  reaches' caret (initial t) st ->
  no_plain_placeholder (result st) = true ->
  plain_before (result st) (length (result st)) = plain_index st.
Proof.
  intros caret t st H.
  apply (reaches_invariant lib typing_attrs shortcuts plugins caret
           (fun s => no_plain_placeholder (result s) = true ->
                     plain_before (result s) (length (result s))
                     = plain_index s))
    with (st := initial t); [|exact H|reflexivity].
  intros s s' Hs Hacc. apply (step_plain_accounting caret s s' Hs Hacc).
Qed.

End PlainCaret.

(** ** Where the caret is latched *)

Section Latch.

Variable lib : urllib.
Variable typing_attrs : option typing_attributes.
Variable shortcuts : list text.
Variable plugins : list plugin.

Let step' := step lib typing_attrs shortcuts plugins.
Let reaches' := reaches lib typing_attrs shortcuts plugins.
Let decide := decide_pill_type lib shortcuts plugins.
Let build := build_input_attributed_with_caret lib typing_attrs shortcuts
               plugins.

(** The round that latches the caret: after a delimiter the caret is
    right after it; in a token the caret is in its closed span. *)
Lemma latch_cases : forall caret s s1,
  step' caret s s1 -> caret_set s = false -> caret_set s1 = true ->
  (exists c tl,
     rest s = c :: tl /\ is_delim c = true
     /\ s1 = after_delimiter typing_attrs caret s c tl
     /\ caret = (plain_index s + 1)%Z
     /\ caret_attr_index s1 = (alength (result s) + 1)%Z)
  \/ (exists c tl token rest' pill,
        rest s = c :: tl /\ is_delim c = false
        /\ read_token (rest s) = (token, rest')
        /\ decide token (hd_error rest') = Return pill
        /\ s1 = after_token typing_attrs caret s token rest' pill
        /\ (plain_index s <= caret <= plain_index s + len token)%Z
        /\ (1 <= len token)%Z
        /\ caret_attr_index s1
           = match pill with
             | Some _ => (alength (result s) + 1)%Z
             | None => (alength (result s) + (caret - plain_index s))%Z
             end).
Proof.
  intros caret s s1 [Hne Hb] Hunset Hset.
  destruct (rest s) as [|c tl] eqn:Hr; [contradiction|].
  destruct (body_cases _ _ _ _ _ _ _ _ _ Hr Hb)
    as [[Hc ->]|[Hc (token & rest' & pill & Ht & Hd & ->)]].
  - left. exists c, tl. unfold after_delimiter in *.
    cbn [caret_set caret_attr_index] in *. rewrite Hunset in *.
    cbn [negb andb] in *.
    destruct (Z.eqb_spec caret (plain_index s + 1)); [|discriminate].
    repeat split; assumption.
  - right. exists c, tl, token, rest', pill.
    assert (Htok : (1 <= len token)%Z).
    { rewrite Hr in Ht. destruct (read_token_head _ _ _ _ Hc Ht) as [tok' ->].
      unfold len. simpl length. lia. }
    assert (Hin : (plain_index s <= caret <= plain_index s + len token)%Z
                  /\ caret_attr_index
                       (after_token typing_attrs caret s token rest' pill)
                     = match pill with
                       | Some _ => (alength (result s) + 1)%Z
                       | None => (alength (result s)
                                  + (caret - plain_index s))%Z
                       end).
    { destruct pill as [[raw display]|]; unfold after_token in *;
        cbn [caret_set caret_attr_index] in *; rewrite Hunset in *;
        cbn [negb andb] in *;
        (destruct (Z.leb_spec (plain_index s) caret); cbn [andb] in *;
         [|discriminate]);
        (destruct (Z.leb_spec caret (plain_index s + len token));
         [|discriminate]);
        (split; [lia | reflexivity]). }
    destruct Hin as [Hin Hv].
    rewrite Hr in Ht. repeat split; try assumption; try reflexivity; lia.
Qed.

(** A caret at the plain index the pass ends on is returned at the end of
    the buffer, when the buffer holds characters of the Basic Multilingual
    Plane only. *)
Lemma caret_at_plain_end : forall caret t stf,
  reaches' caret (initial t) stf -> rest stf = [] ->
  bmp_buffer (result stf) = true ->
  build (plain_index stf) t
  = Some (Return (result stf, alength (result stf))).
Proof.
  intros caret t stf Hreach Hnil Hbmp.
  assert (Hinit : same_text_state (initial t) (initial t)) by (repeat split).
  destruct (reaches_lockstep lib typing_attrs shortcuts plugins caret
              (plain_index stf) _ _ _ Hreach Hinit)
    as (stf' & Hreach' & Hrest & Hplain & Hres).
  unfold build.
  rewrite (build_of_reaches lib typing_attrs shortcuts plugins
             (plain_index stf) t stf' Hreach') by congruence.
  do 2 f_equal. unfold clamp_caret. rewrite <- Hres. f_equal.
  destruct (caret_set stf') eqn:E.
  - destruct (latch_round lib typing_attrs shortcuts plugins _ _ _
                Hreach' eq_refl E) as (s & s1 & H1 & H2 & H3 & H4 & H5).
    destruct (reaches_keeps _ _ _ _ _ _ _ H3) as [[b Hgrow] Hkeep].
    destruct (Hkeep H5) as [_ Hidx].
    destruct (reaches_plain_index lib typing_attrs shortcuts plugins _ _ _ H3)
      as [Hle Heq].
    assert (Hbmp1 : bmp_buffer (result s1) = true).
    { rewrite Hres, Hgrow in Hbmp. apply (bmp_prefix _ _ Hbmp). }
    assert (Hend : plain_index s1 = plain_index stf'
                   /\ caret_attr_index s1 = alength (result s1)).
    { destruct (latch_cases _ _ _ H2 H4 H5)
        as [(c & tl & Hr & Hc & -> & Hcaret & Hv)
           |(c & tl & token & rest' & pill & Hr & Hc & Ht & Hd & -> & Hin
             & Htok & Hv)].
      - rewrite Hv. unfold after_delimiter, append_plain in *.
        cbn [plain_index result] in *.
        rewrite alength_app, (alength_delimiter _ _ Hc).
        split; [lia | reflexivity].
      - rewrite Hv.
        assert (Hp : plain_index
                       (after_token typing_attrs (plain_index stf) s token
                          rest' pill)
                     = (plain_index s + len token)%Z)
          by (destruct pill as [[raw display]|]; reflexivity).
        rewrite Hp in *. split; [lia|].
        destruct pill as [[raw display]|];
          unfold after_token, append_plain in *;
          cbn [result] in *; rewrite alength_app.
        + rewrite alength_pill. reflexivity.
        + rewrite (alength_plain_run _ _ (bmp_suffix _ _ Hbmp1)). lia. }
    destruct Hend as [Hp Hv].
    pose proof (Heq Hp) as Es. subst stf'.
    rewrite Hres, Hv. apply clamp_below. lia.
  - apply clamp_below. lia.
Qed.

End Latch.

(** ** From the rendered caret back to the plain caret *)

Lemma Rendered_expand : forall base t b, Rendered base t b -> expand b = t.
Proof.
  intros base t b H. induction H as [|c t b H IH|c tok display t b Hc Hn H IH].
  - reflexivity.
  - unfold expand in *. simpl. rewrite IH. reflexivity.
  - unfold expand in *. cbn [flat_map is_pill pill_char attachment tag].
    rewrite IH. reflexivity.
Qed.

Lemma Rendered_length : forall base t b,
  Rendered base t b -> (length b <= length t)%nat.
Proof.
  intros base t b H. induction H as [|c t b H IH|c tok display t b Hc Hn H IH].
  - simpl. lia.
  - cbn [length]. lia.
  - cbn [app length]. rewrite length_app. lia.
Qed.

Section CaretImage.

Variable lib : urllib.
Variable typing_attrs : option typing_attributes.
Variable shortcuts : list text.
Variable plugins : list plugin.

Let reaches' := reaches lib typing_attrs shortcuts plugins.
Let decide := decide_pill_type lib shortcuts plugins.
Let build := build_input_attributed_with_caret lib typing_attrs shortcuts
               plugins.

(** The plain length in front of the rendered caret, in a buffer of
    characters of the Basic Multilingual Plane: the plain caret itself, or
    the end of the token of the pill that latched it, or the end of the
    text when no round latched it. *)
Lemma caret_image : forall caret t buf idx,
  build caret t = Some (Return (buf, idx)) ->
  bmp_buffer buf = true ->
  no_plain_placeholder buf = true ->
  plain_before buf (Z.to_nat idx) = caret
  \/ (exists s c tl token rest' raw display stf,
        reaches' caret (initial t) s
        /\ rest s = c :: tl /\ is_delim c = false
        /\ read_token (rest s) = (token, rest')
        /\ decide token (hd_error rest') = Return (Some (raw, display))
        /\ caret_set s = false
        /\ (plain_index s <= caret <= plain_index s + len token)%Z
        /\ (1 <= len token)%Z
        /\ reaches' caret
             (after_token typing_attrs caret s token rest'
                (Some (raw, display))) stf
        /\ rest stf = [] /\ buf = result stf
        /\ idx = (alength (result s) + 1)%Z
        /\ plain_before buf (Z.to_nat idx)
           = (plain_index s + len token)%Z)
  \/ (exists stf,
        reaches' caret (initial t) stf /\ rest stf = []
        /\ caret_set stf = false /\ buf = result stf
        /\ idx = alength buf
        /\ plain_before buf (Z.to_nat idx) = plain_index stf).
Proof.
  intros caret t buf idx Hb Hbmp Hclean.
  destruct (build_returns _ _ _ _ _ _ _ _ Hb) as (stf & Hreach & Hnil & Hclamp).
  unfold clamp_caret in Hclamp. injection Hclamp as Hbuf Hidx. subst buf.
  pose proof (alength_nonneg (result stf)) as Hlen.
  destruct (caret_set stf) eqn:Hset.
  2:{ right. right. exists stf.
      rewrite clamp_below in Hidx by lia. subst idx.
      repeat split; try assumption.
      rewrite (alength_bmp _ Hbmp), Nat2Z.id.
      apply (reaches_plain_accounting lib typing_attrs shortcuts plugins
               caret t stf Hreach Hclean). }
  destruct (latch_round lib typing_attrs shortcuts plugins _ _ _
              Hreach eq_refl Hset) as (s & s1 & H1 & H2 & H3 & H4 & H5).
  assert (Hreach1 : reaches' caret (initial t) s1).
  { eapply reaches_trans; [exact H1|].
    eapply reaches_step; [exact H2 | apply reaches_refl]. }
  destruct (caret_inv_reaches _ _ _ _ _ _ _ Hreach1 (caret_inv_initial _ t))
    as [_ Hinv1].
  destruct (Hinv1 H5) as [[Hv0 Hv1] _].
  destruct (reaches_keeps _ _ _ _ _ _ _ H3) as [[b Hres] Hkeep].
  destruct (Hkeep H5) as [_ Hv].
  assert (Hidx' : idx = caret_attr_index s1).
  { rewrite <- Hidx, Hv. apply clamp_below.
    rewrite Hres, alength_app. pose proof (alength_nonneg b). lia. }
  clear Hidx. subst idx.
  assert (Hbmp1 : bmp_buffer (result s1) = true)
    by (rewrite Hres in Hbmp; apply (bmp_prefix _ _ Hbmp)).
  assert (Hprefix : plain_before (result stf)
                      (Z.to_nat (caret_attr_index s1))
                    = plain_before (result s1)
                        (Z.to_nat (caret_attr_index s1))).
  { rewrite Hres. apply plain_before_prefix.
    rewrite (alength_bmp _ Hbmp1) in Hv1. lia. }
  assert (Hclean1 : no_plain_placeholder (result s1) = true)
    by (rewrite Hres in Hclean; apply (clean_prefix _ _ Hclean)).
  pose proof (reaches_plain_accounting lib typing_attrs shortcuts plugins
                caret t s H1) as Hacc.
  destruct (latch_cases lib typing_attrs shortcuts plugins _ _ _ H2 H4 H5)
    as [(c & tl & Hr & Hc & Es1 & Hcaret & Hval)
       |(c & tl & token & rest' & pill & Hr & Hc & Ht & Hd & Es1 & Hin
         & Htok & Hval)].
  - left. rewrite Hprefix, Hval.
    assert (Hres1 : result s1 = result s ++ plain_run (base_attrs typing_attrs) [c])
      by (rewrite Es1; reflexivity).
    rewrite Hres1 in *.
    replace (Z.to_nat (alength (result s) + 1))
      with (length (result s) + 1)%nat
      by (rewrite (alength_bmp _ (bmp_prefix _ _ Hbmp1)); lia).
    rewrite plain_before_app, (Hacc (clean_prefix _ _ Hclean1)).
    rewrite plain_before_plain_run
      by (cbn [forallb]; rewrite (is_delim_not_OBJ _ Hc); reflexivity).
    simpl. lia.
  - destruct pill as [[raw display]|].
    + right. left.
      destruct (decide_pill_type_some _ _ _ _ _ _ _ Hd) as [-> _].
      exists s, c, tl, token, rest', token, display, stf.
      rewrite <- Es1.
      repeat split; try assumption; try lia.
      rewrite Hprefix, Hval.
      assert (Hres1 : result s1
                      = result s ++ build_tag_attributed token display)
        by (rewrite Es1; reflexivity).
      rewrite Hres1 in *.
      replace (Z.to_nat (alength (result s) + 1))
        with (length (result s) + 1)%nat
        by (rewrite (alength_bmp _ (bmp_prefix _ _ Hbmp1)); lia).
      rewrite plain_before_app, (Hacc (clean_prefix _ _ Hclean1)).
      f_equal. unfold plain_before, build_tag_attributed.
      cbn [firstn fold_left]. unfold caret_plain_step. cbn [ch tag].
      replace (char_eqb OBJ OBJ) with true by reflexivity.
      destruct token as [|x token]; [unfold len in Htok; simpl in Htok; lia|].
      reflexivity.
    + left. rewrite Hprefix, Hval.
      assert (Hres1 : result s1
                      = result s ++ plain_run (base_attrs typing_attrs) token)
        by (rewrite Es1; reflexivity).
      rewrite Hres1 in *.
      replace (Z.to_nat (alength (result s) + (caret - plain_index s)))
        with (length (result s) + Z.to_nat (caret - plain_index s))%nat
        by (rewrite (alength_bmp _ (bmp_prefix _ _ Hbmp1)); lia).
      rewrite plain_before_app, (Hacc (clean_prefix _ _ Hclean1)).
      rewrite plain_before_plain_run
        by (apply (clean_plain_run (base_attrs typing_attrs));
            apply (clean_suffix _ _ Hclean1)).
      unfold len in Hin. lia.
Qed.

End CaretImage.

(** ** The pass and the plain caret of the host *)

Lemma utf16_length_app : forall a b,
  utf16_length (a ++ b) = (utf16_length a + utf16_length b)%nat.
Proof.
  intros a b. unfold utf16_length. rewrite map_app, list_sum_app. reflexivity.
Qed.

Lemma utf16_length_cons : forall c t,
  utf16_length (c :: t) = (utf16_units c + utf16_length t)%nat.
Proof. reflexivity. Qed.

Lemma Rendered_units : forall base t b,
  Rendered base t b -> (alength b <= Z.of_nat (utf16_length t))%Z.
Proof.
  intros base t b H. induction H as [|c t b H IH|c tok display t b Hc Hn H IH].
  - reflexivity.
  - rewrite alength_cons, utf16_length_cons. cbn [plain_char ch]. lia.
  - rewrite alength_cons. cbn [pill_char ch]. change (utf16_units OBJ) with 1%nat.
    rewrite utf16_length_app, utf16_length_cons.
    pose proof (utf16_units_bounds c). lia.
Qed.

Lemma firstn_succ_nth : forall (l : attributed) n,
  firstn (S n) l
  = firstn n l ++ match nth_error l n with Some u => [u] | None => [] end.
Proof.
  induction l as [|x l IH]; intros n.
  - destruct n; reflexivity.
  - destruct n as [|n]; [reflexivity|].
    cbn [firstn nth_error app]. rewrite <- IH. reflexivity.
Qed.

(** On a storage of characters of the Basic Multilingual Plane the plain
    caret that the rebuild counts for a location is the plain length of
    the characters in front of it. *)
Lemma caret_plain_of_bmp : forall storage n,
  bmp_buffer storage = true ->
  caret_plain_of storage n = plain_before storage n.
Proof.
  intros storage n Hbmp. induction n as [|n IH]; [reflexivity|].
  unfold caret_plain_of, plain_before in *.
  rewrite seq_S, fold_left_app, IH, firstn_succ_nth, fold_left_app.
  cbn [Nat.add fold_left].
  destruct (nth_error storage n) as [u|] eqn:Hu; [|reflexivity].
  rewrite (read_at_bmp _ _ _ (bmp_firstn _ _ Hbmp) Hu). reflexivity.
Qed.

(** X13. The caret that the pass returns lies in the buffer it returns;
    the buffer has no more characters than the text, and no more UTF-16
    units. *)
Theorem render_result_bounds :
  forall lib typing_attrs shortcuts plugins caret t buf idx,
  build_input_attributed_with_caret lib typing_attrs shortcuts plugins
    caret t = Some (Return (buf, idx)) ->
  (0 <= idx <= alength buf)%Z
  /\ (length buf <= length t)%nat
  /\ (alength buf <= Z.of_nat (utf16_length t))%Z.
Proof.
  intros lib typing_attrs shortcuts plugins caret t buf idx Hb.
  split; [eapply build_caret_in_range; exact Hb|].
  apply build_rendered in Hb.
  split; [eapply Rendered_length; exact Hb | eapply Rendered_units; exact Hb].
Qed.

Lemma render_result_bounds_witness :
  (0 <= 1 <= 7)%Z /\ (7 <= 11)%nat /\ (7 <= 11)%Z.
Proof.
  apply (render_result_bounds lenient_urllib None sample_shortcuts
           sample_plugins 3 (of_string "/blog hello")
           (pill_char (of_string "/blog") (of_string "/blog")
            :: plain_run None (of_string " hello")) 1).
  vm_compute. reflexivity.
Defined.

(** X14. The pass loses no character: the buffer it returns, each pill
    replaced by the raw text it stores, is the text. *)
Theorem rendered_buffer_expands_to_text :
  forall lib typing_attrs shortcuts plugins caret t buf idx,
  build_input_attributed_with_caret lib typing_attrs shortcuts plugins
    caret t = Some (Return (buf, idx)) ->
  expand buf = t.
Proof.
  intros lib typing_attrs shortcuts plugins caret t buf idx Hb.
  apply build_rendered in Hb. eapply Rendered_expand. exact Hb.
Qed.

Lemma rendered_buffer_expands_to_text_witness :
  exists buf idx,
    build_input_attributed_with_caret lenient_urllib None sample_shortcuts
      sample_plugins 0 glued_text = Some (Return (buf, idx))
    /\ expand buf = glued_text.
Proof.
  eexists. eexists. split; [vm_compute; reflexivity|].
  eapply (rendered_buffer_expands_to_text lenient_urllib None
            sample_shortcuts sample_plugins 0 glued_text).
  vm_compute. reflexivity.
Defined.

(** X15. On a buffer the pass returns, with characters of the Basic
    Multilingual Plane only and no plain U+FFFC among them, the plain
    caret that the rebuild counts for the end of the buffer is the length
    of the text. *)
Theorem plain_caret_of_rendered_end :
  forall lib typing_attrs shortcuts plugins caret t buf idx,
  build_input_attributed_with_caret lib typing_attrs shortcuts plugins
    caret t = Some (Return (buf, idx)) ->
  bmp_buffer buf = true ->
  no_plain_placeholder buf = true ->
  caret_plain_of buf (Z.to_nat (alength buf)) = len t.
Proof.
  intros lib typing_attrs shortcuts plugins caret t buf idx Hb Hbmp Hclean.
  rewrite (caret_plain_of_bmp _ _ Hbmp), (alength_bmp _ Hbmp), Nat2Z.id.
  destruct (build_returns _ _ _ _ _ _ _ _ Hb) as (stf & Hreach & Hnil & Hclamp).
  unfold clamp_caret in Hclamp. injection Hclamp as Hbuf _. subst buf.
  rewrite (reaches_plain_accounting lib typing_attrs shortcuts plugins
             caret t stf Hreach Hclean).
  pose proof (reaches_text_accounting lib typing_attrs shortcuts plugins
                caret t stf Hreach) as Hacc.
  rewrite Hnil in Hacc. unfold len in *. simpl in Hacc. lia.
Qed.

Lemma plain_caret_of_rendered_end_witness :
  caret_plain_of
    (pill_char (of_string "/blog") (of_string "/blog")
     :: plain_run None (of_string " hello")) 7
  = 11%Z.
Proof.
  apply (plain_caret_of_rendered_end lenient_urllib None sample_shortcuts
           sample_plugins 3 (of_string "/blog hello")
           (pill_char (of_string "/blog") (of_string "/blog")
            :: plain_run None (of_string " hello")) 1);
    vm_compute; reflexivity.
Defined.

(** X16. A caret that is negative or past the end of the text is returned
    at the end of the buffer; so is a caret at the end of the text when
    the buffer holds characters of the Basic Multilingual Plane only. *)
Theorem caret_outside_text_maps_to_end :
  forall lib typing_attrs shortcuts plugins caret t buf idx,
  (caret < 0 \/ len t <= caret)%Z ->
  (caret = len t -> bmp_buffer buf = true) ->
  build_input_attributed_with_caret lib typing_attrs shortcuts plugins
    caret t = Some (Return (buf, idx)) ->
  idx = alength buf.
Proof.
  intros lib typing_attrs shortcuts plugins caret t buf idx Hout Hbmp Hb.
  destruct (build_returns _ _ _ _ _ _ _ _ Hb) as (stf & Hreach & Hnil & Hclamp).
  pose proof (reaches_text_accounting lib typing_attrs shortcuts plugins
                caret t stf Hreach) as Hacc.
  rewrite Hnil in Hacc. unfold len at 1 in Hacc. simpl in Hacc.
  destruct (caret_set stf) eqn:Hset.
  - pose proof (reaches_latched_nonneg lib typing_attrs shortcuts plugins
                  caret t stf Hreach Hset) as Hnonneg.
    destruct (caret_inv_reaches _ _ _ _ _ _ _ Hreach (caret_inv_initial _ t))
      as [_ Hinv].
    destruct (Hinv Hset) as [_ Hle].
    assert (Hcaret : caret = plain_index stf) by lia.
    assert (Hbuf : buf = result stf)
      by (unfold clamp_caret in Hclamp; congruence).
    assert (Hw : bmp_buffer (result stf) = true)
      by (rewrite <- Hbuf; apply Hbmp; lia).
    pose proof (caret_at_plain_end lib typing_attrs shortcuts plugins
                  caret t stf Hreach Hnil Hw) as Hend.
    rewrite <- Hcaret in Hend. rewrite Hb in Hend.
    injection Hend as -> ->. reflexivity.
  - unfold clamp_caret in Hclamp. rewrite Hset in Hclamp.
    injection Hclamp as <- <-. apply clamp_below. lia.
Qed.

Lemma caret_outside_text_maps_to_end_witness : 7%Z = alength
    (pill_char (of_string "/blog") (of_string "/blog")
     :: plain_run None (of_string " hello")).
Proof.
  apply (caret_outside_text_maps_to_end lenient_urllib None sample_shortcuts
           sample_plugins (-4) (of_string "/blog hello"));
    [left; lia | intros _; reflexivity | vm_compute; reflexivity].
Defined.

Section Stability.

Variable lib : urllib.
Variable typing_attrs : option typing_attributes.
Variable shortcuts : list text.
Variable plugins : list plugin.

Let reaches' := reaches lib typing_attrs shortcuts plugins.
Let build := build_input_attributed_with_caret lib typing_attrs shortcuts
               plugins.

(** The caret at the end of the token of a pill is returned right after
    the pill, like every caret that the pill latches. *)
Lemma caret_at_pill_end : forall caret t s c tl token rest' raw display stf,
  reaches' caret (initial t) s ->
  rest s = c :: tl -> is_delim c = false ->
  read_token (rest s) = (token, rest') ->
  decide_pill_type lib shortcuts plugins token (hd_error rest')
  = Return (Some (raw, display)) ->
  (1 <= len token)%Z ->
  reaches' caret
    (after_token typing_attrs caret s token rest' (Some (raw, display))) stf ->
  rest stf = [] ->
  build (plain_index s + len token)%Z t
  = Some (Return (result stf, (alength (result s) + 1)%Z)).
Proof.
  intros caret t s c tl token rest' raw display stf
         Hreach Hr Hc Ht Hd Htok Hfrom Hnil.
  set (caret2 := (plain_index s + len token)%Z).
  assert (Hinit : same_text_state (initial t) (initial t)) by (repeat split).
  destruct (reaches_lockstep lib typing_attrs shortcuts plugins caret caret2
              _ _ _ Hreach Hinit) as (s' & Hreach' & Hrest & Hplain & Hres).
  assert (Hunset : caret_set s' = false).
  { destruct (caret_set s') eqn:E; [|reflexivity].
    destruct (caret_inv_reaches _ _ _ _ _ _ _ Hreach'
                (caret_inv_initial _ t)) as [_ Hinv].
    destruct (Hinv E) as [_ Hle]. unfold caret2 in Hle. lia. }
  assert (Hbody : body lib typing_attrs shortcuts plugins caret2 s'
                  = Return (after_token typing_attrs caret2 s' token rest'
                              (Some (raw, display)))).
  { rewrite (body_token lib typing_attrs shortcuts plugins caret2 s' c tl
               token rest') by congruence.
    rewrite Hd. reflexivity. }
  assert (Hsame1 : same_text_state
                     (after_token typing_attrs caret s token rest'
                        (Some (raw, display)))
                     (after_token typing_attrs caret2 s' token rest'
                        (Some (raw, display)))).
  { unfold after_token, same_text_state. cbn [rest plain_index result].
    rewrite Hplain, Hres. repeat split. }
  destruct (reaches_lockstep lib typing_attrs shortcuts plugins caret caret2
              _ _ _ Hfrom Hsame1) as (stf' & Hfrom' & Hrestf & _ & Hresf).
  assert (Hall : reaches' caret2 (initial t) stf').
  { eapply reaches_trans; [exact Hreach'|].
    eapply reaches_step; [|exact Hfrom'].
    split; [rewrite <- Hrest, Hr; discriminate | exact Hbody]. }
  unfold build.
  rewrite (build_of_reaches lib typing_attrs shortcuts plugins caret2 t stf'
             Hall) by congruence.
  destruct (reaches_keeps _ _ _ _ _ _ _ Hfrom') as [[b Hgrow] Hkeep].
  assert (Hlatched : caret_set (after_token typing_attrs caret2 s' token rest'
                                  (Some (raw, display))) = true
                     /\ caret_attr_index
                          (after_token typing_attrs caret2 s' token rest'
                             (Some (raw, display)))
                        = (alength (result s) + 1)%Z).
  { unfold after_token. cbn [caret_set caret_attr_index].
    rewrite Hunset, <- Hplain, <- Hres. cbn [negb andb].
    replace (plain_index s <=? caret2)%Z with true
      by (symmetry; apply Z.leb_le; unfold caret2; lia).
    replace (caret2 <=? plain_index s + len token)%Z with true
      by (symmetry; apply Z.leb_le; unfold caret2; lia).
    split; reflexivity. }
  destruct Hlatched as [Hset Hval].
  destruct (Hkeep Hset) as [Hsetf Hvalf].
  do 2 f_equal. unfold clamp_caret. rewrite Hsetf, Hvalf, Hval, <- Hresf.
  f_equal. apply clamp_below.
  rewrite Hresf, Hgrow. unfold after_token, build_tag_attributed.
  cbn [result]. rewrite <- Hres, !alength_app.
  pose proof (alength_nonneg b). rewrite alength_cons. cbn [ch].
    change (utf16_units OBJ) with 1%nat. change (alength []) with 0%Z. lia.
Qed.

End Stability.

(** X17. The rendered caret is stable.  On a buffer with characters of the
    Basic Multilingual Plane only and no plain U+FFFC among them, the
    plain caret that the rebuild counts for the returned caret sends the
    pass, on the same text, to the same buffer and the same caret. *)
Theorem caret_round_trip_stable :
  forall lib typing_attrs shortcuts plugins caret t buf idx,
  build_input_attributed_with_caret lib typing_attrs shortcuts plugins
    caret t = Some (Return (buf, idx)) ->
  bmp_buffer buf = true ->
  no_plain_placeholder buf = true ->
  build_input_attributed_with_caret lib typing_attrs shortcuts plugins
    (caret_plain_of buf (Z.to_nat idx)) t = Some (Return (buf, idx)).
Proof.
  intros lib typing_attrs shortcuts plugins caret t buf idx Hb Hbmp Hclean.
  rewrite (caret_plain_of_bmp _ _ Hbmp).
  destruct (caret_image lib typing_attrs shortcuts plugins caret t buf idx
              Hb Hbmp Hclean)
    as [->|[(s & c & tl & token & rest' & raw & display & stf & H1 & Hr & Hc
            & Ht & Hd & _ & _ & Htok & Hfrom & Hnil & -> & -> & ->)
           |(stf & Hreach & Hnil & _ & -> & -> & ->)]].
  - exact Hb.
  - eapply caret_at_pill_end; eassumption.
  - eapply caret_at_plain_end; eassumption.
Qed.

Lemma caret_round_trip_stable_witness :
  build_input_attributed_with_caret lenient_urllib None sample_shortcuts
    sample_plugins 5 (of_string "/blog hello")
  = Some (Return (pill_char (of_string "/blog") (of_string "/blog")
                  :: plain_run None (of_string " hello"), 1%Z)).
Proof.
  apply (caret_round_trip_stable lenient_urllib None sample_shortcuts
           sample_plugins 3 (of_string "/blog hello")
           (pill_char (of_string "/blog") (of_string "/blog")
            :: plain_run None (of_string " hello")) 1);
    vm_compute; reflexivity.
Defined.

(** X18. A view that shows what the pass returned, with characters of the
    Basic Multilingual Plane only, no plain U+FFFC and every pill at the
    start or right after a delimiter, is left as it is by the rebuild:
    same storage, same caret. *)
Theorem rebuild_fixed_point :
  forall lib typing_attrs shortcuts plugins caret t buf idx,
  build_input_attributed_with_caret lib typing_attrs shortcuts plugins
    caret t = Some (Return (buf, idx)) ->
  bmp_buffer buf = true ->
  no_plain_placeholder buf = true ->
  pills_follow_delims true buf = true ->
  _rebuild_buffer_with_pills lib typing_attrs shortcuts plugins
    buf (Z.to_nat idx) = Some (Return (buf, idx)).
Proof.
  intros lib typing_attrs shortcuts plugins caret t buf idx Hb Hbmp Hclean Hpf.
  unfold _rebuild_buffer_with_pills.
  rewrite (extract_build _ _ _ _ _ _ _ _ Hb Hbmp Hclean Hpf).
  rewrite (caret_plain_of_bmp _ _ Hbmp).
  destruct (caret_image lib typing_attrs shortcuts plugins caret t buf idx
              Hb Hbmp Hclean)
    as [->|[(s & c & tl & token & rest' & raw & display & stf & H1 & Hr & Hc
            & Ht & Hd & _ & _ & Htok & Hfrom & Hnil & -> & -> & ->)
           |(stf & Hreach & Hnil & _ & -> & -> & ->)]].
  - exact Hb.
  - eapply caret_at_pill_end; eassumption.
  - eapply caret_at_plain_end; eassumption.
Qed.

Lemma rebuild_fixed_point_witness :
  exists buf idx,
    build_input_attributed_with_caret lenient_urllib None sample_shortcuts
      sample_plugins 9 recognized_text = Some (Return (buf, idx))
    /\ _rebuild_buffer_with_pills lenient_urllib None sample_shortcuts
         sample_plugins buf (Z.to_nat idx) = Some (Return (buf, idx)).
Proof.
  eexists. eexists. split; [vm_compute; reflexivity|].
  apply (rebuild_fixed_point lenient_urllib None sample_shortcuts
           sample_plugins 9 recognized_text);
    vm_compute; reflexivity.
Defined.

(** X19. The caret does not drift to the left: for a caret in the text,
    on a buffer with characters of the Basic Multilingual Plane only and
    no plain U+FFFC among them, the plain caret that the rebuild counts
    for the returned caret is at or after the caret, and in the text. *)
Theorem caret_never_drifts_left :
  forall lib typing_attrs shortcuts plugins caret t buf idx,
  (0 <= caret <= len t)%Z ->
  build_input_attributed_with_caret lib typing_attrs shortcuts plugins
    caret t = Some (Return (buf, idx)) ->
  bmp_buffer buf = true ->
  no_plain_placeholder buf = true ->
  (caret <= caret_plain_of buf (Z.to_nat idx) <= len t)%Z.
Proof.
  intros lib typing_attrs shortcuts plugins caret t buf idx Hin Hb Hbmp Hclean.
  rewrite (caret_plain_of_bmp _ _ Hbmp).
  destruct (caret_image lib typing_attrs shortcuts plugins caret t buf idx
              Hb Hbmp Hclean)
    as [->|[(s & c & tl & token & rest' & raw & display & stf & H1 & Hr & Hc
            & Ht & Hd & _ & Hspan & Htok & Hfrom & Hnil & _ & _ & ->)
           |(stf & Hreach & Hnil & _ & _ & _ & ->)]].
  - lia.
  - split; [lia|].
    assert (Hstep : step lib typing_attrs shortcuts plugins caret s
                      (after_token typing_attrs caret s token rest'
                         (Some (raw, display)))).
    { split; [rewrite Hr; discriminate|].
      rewrite (body_token lib typing_attrs shortcuts plugins caret s c tl
                 token rest' Hr Hc Ht).
      rewrite Hd. reflexivity. }
    assert (Hreach : reaches lib typing_attrs shortcuts plugins caret
                       (initial t)
                       (after_token typing_attrs caret s token rest'
                          (Some (raw, display)))).
    { eapply reaches_trans; [exact H1|].
      eapply reaches_step; [exact Hstep | apply reaches_refl]. }
    pose proof (reaches_text_accounting _ _ _ _ _ _ _ Hreach) as Hacc.
    unfold after_token in Hacc. cbn [plain_index rest] in Hacc.
    pose proof (len_nonneg rest'). lia.
  - pose proof (reaches_text_accounting _ _ _ _ _ _ _ Hreach) as Hacc.
    rewrite Hnil in Hacc. unfold len at 1 in Hacc. simpl in Hacc. lia.
Qed.

Lemma caret_never_drifts_left_witness :
  (3 <= caret_plain_of
          (pill_char (of_string "/blog") (of_string "/blog")
           :: plain_run None (of_string " hello")) 1
   <= 11)%Z.
Proof.
  apply (caret_never_drifts_left lenient_urllib None sample_shortcuts
           sample_plugins 3 (of_string "/blog hello")
           (pill_char (of_string "/blog") (of_string "/blog")
            :: plain_run None (of_string " hello")) 1);
    [vm_compute; split; discriminate | vm_compute; reflexivity
     | vm_compute; reflexivity | vm_compute; reflexivity].
Defined.

(** ** The extraction, part by part *)

Lemma ends_with_delim_app : forall a b,
  b <> [] -> ends_with_delim (a ++ b) = ends_with_delim b.
Proof.
  intros a b Hb. unfold ends_with_delim. rewrite rev_app_distr.
  destruct (rev b) as [|x r] eqn:E; [|reflexivity].
  apply (f_equal (@rev char)) in E. rewrite rev_involutive in E.
  simpl in E. contradiction.
Qed.

Lemma separated_app : forall pieces more,
  more <> [] \/ separated pieces = true ->
  separated (pieces ++ more) = separated more.
Proof.
  intros pieces more H. unfold separated in *. rewrite rev_app_distr.
  destruct (rev more) as [|x r] eqn:E; [|reflexivity].
  apply (f_equal (@rev text)) in E. rewrite rev_involutive in E.
  simpl in E. subst more. simpl.
  destruct H as [H|H]; [contradiction | exact H].
Qed.

Lemma extract_char_prefix : forall pieces more u next_char,
  more <> [] \/ separated pieces = true ->
  extract_char (pieces ++ more) u next_char
  = pieces ++ extract_char more u next_char.
Proof.
  intros pieces more u next_char H. unfold extract_char.
  destruct (char_eqb (ch u) OBJ); [|rewrite app_assoc; reflexivity].
  destruct (tag u) as [tag_text|]; [|reflexivity].
  rewrite !leading_space, (separated_app _ _ H).
  destruct next_char as [nxt|]; [destruct (negb (is_delim (ch nxt)))|];
    rewrite <- ?app_assoc; reflexivity.
Qed.

Lemma extract_char_grows : forall more u next_char,
  more <> [] -> extract_char more u next_char <> [].
Proof.
  intros more u next_char H.
  destruct (extract_char_extends more u next_char) as [x ->].
  destruct more; [contradiction | discriminate].
Qed.

(** The pieces gathered so far stay in front, and what is appended does
    not depend on them once something was appended or they end on a
    delimiter. *)
Lemma extract_from_prefix : forall units pieces more,
  more <> [] \/ separated pieces = true ->
  extract_from (pieces ++ more) units = pieces ++ extract_from more units.
Proof.
  induction units as [|u units IH]; intros pieces more H; [reflexivity|].
  cbn [extract_from]. rewrite (extract_char_prefix _ _ _ _ H).
  apply IH. destruct H as [H|H]; [|].
  - left. apply extract_char_grows. exact H.
  - destruct more as [|m more]; [|left; apply extract_char_grows; discriminate].
    destruct (extract_char [] u (hd_error units)) eqn:E;
      [right; exact H | left; discriminate].
Qed.

(** Units that end on a character that is no placeholder are extracted
    without a look at what follows them. *)
Lemma extract_from_app : forall units u rest pieces,
  char_eqb (ch u) OBJ = false ->
  extract_from pieces ((units ++ [u]) ++ rest)
  = extract_from (extract_from pieces (units ++ [u])) rest.
Proof.
  induction units as [|v units IH]; intros u rest pieces Hu.
  - cbn [app extract_from]. unfold extract_char. rewrite Hu. reflexivity.
  - cbn [app extract_from].
    replace (hd_error ((units ++ [u]) ++ rest)) with (hd_error (units ++ [u]))
      by (destruct units; reflexivity).
    apply IH. exact Hu.
Qed.

Lemma extract_from_snoc : forall units u pieces,
  char_eqb (ch u) OBJ = false ->
  extract_from pieces (units ++ [u])
  = extract_from pieces units ++ [[ch u]]
  \/ exists x, extract_from pieces (units ++ [u]) = x ++ [[ch u]].
Proof.
  induction units as [|v units IH]; intros u pieces Hu.
  - right. exists pieces. cbn [app extract_from]. unfold extract_char.
    rewrite Hu. reflexivity.
  - right. cbn [app extract_from].
    destruct (IH u (extract_char pieces v (hd_error (units ++ [u]))) Hu)
      as [H|[x H]]; rewrite H; eauto.
Qed.

Lemma to_plain_extract : forall storage,
  bmp_buffer storage = true ->
  _plain_text_from_view false storage = concat (extract_from [] storage).
Proof.
  intros storage H. unfold _plain_text_from_view.
  rewrite (pieces_after_all _ H). reflexivity.
Qed.

(** On a storage of characters of the Basic Multilingual Plane a UTF-16
    index is the index of a character. *)
Lemma take_units_bmp : forall storage n,
  bmp_buffer storage = true -> take_units n storage = firstn n storage.
Proof.
  induction storage as [|u storage IH]; intros n H.
  - destruct n; reflexivity.
  - destruct n as [|n]; [reflexivity|].
    cbn [bmp_buffer forallb] in H. apply andb_prop in H. destruct H as [Hu H].
    cbn [take_units firstn]. unfold utf16_units. rewrite Hu.
    cbn [Nat.leb]. rewrite Nat.sub_succ, Nat.sub_0_r, (IH n H). reflexivity.
Qed.

Lemma drop_units_bmp : forall storage n,
  bmp_buffer storage = true -> drop_units n storage = skipn n storage.
Proof.
  induction storage as [|u storage IH]; intros n H.
  - destruct n; reflexivity.
  - destruct n as [|n]; [reflexivity|].
    cbn [bmp_buffer forallb] in H. apply andb_prop in H. destruct H as [Hu H].
    cbn [drop_units skipn]. unfold utf16_units. rewrite Hu.
    cbn [Nat.leb]. rewrite Nat.sub_succ, Nat.sub_0_r, (IH n H). reflexivity.
Qed.

Lemma bmp_skipn : forall n b,
  bmp_buffer b = true -> bmp_buffer (skipn n b) = true.
Proof.
  intros n b H. rewrite <- (firstn_skipn n b) in H.
  apply (bmp_suffix _ _ H).
Qed.

(** Where the scan of the fragment stops. *)
Lemma scan_left_start : forall t c,
  (c <= length t)%nat ->
  let start := scan_left (rev (firstn c t)) false c in
  (start <= c)%nat
  /\ (start = 0%nat
      \/ exists pre d, firstn start t = pre ++ [d] /\ is_delim d = true).
Proof.
  intros t c Hc start. unfold start.
  split; [apply scan_left_le|].
  destruct (scan_left_split (rev (firstn c t)) false)
    as (passed & kept & Hsplit & Hs & Hk).
  rewrite length_rev, length_firstn, Nat.min_l in Hs by exact Hc.
  rewrite Hs.
  destruct Hk as [->|(d & kept' & -> & Hd)]; [left; reflexivity|].
  right. exists (rev kept'), d. split; [|exact Hd].
  apply (f_equal (@rev char)) in Hsplit.
  rewrite rev_involutive, rev_app_distr in Hsplit. cbn [rev] in Hsplit.
  assert (Hpre : firstn (length (d :: kept')) (firstn c t)
                 = rev kept' ++ [d]).
  { rewrite Hsplit.
    replace (length (d :: kept')) with (length (rev kept' ++ [d]))
      by (rewrite length_app, length_rev; simpl; lia).
    rewrite firstn_app, Nat.sub_diag, firstn_all. cbn [firstn].
    apply app_nil_r. }
  rewrite firstn_firstn in Hpre.
  rewrite Nat.min_l in Hpre; [exact Hpre|].
  apply (f_equal (@length char)) in Hsplit.
  rewrite length_firstn, !length_app, length_rev in Hsplit.
  simpl in *. lia.
Qed.

Lemma view_string_firstn : forall storage n,
  firstn n (view_string storage) = view_string (firstn n storage).
Proof. intros storage n. unfold view_string. apply firstn_map. Qed.

Lemma view_string_snoc : forall units pre d,
  view_string units = pre ++ [d] ->
  exists units' u, units = units' ++ [u] /\ ch u = d.
Proof.
  intros units pre d H.
  destruct (rev units) as [|u r] eqn:E.
  - apply (f_equal (@rev achar)) in E. rewrite rev_involutive in E.
    simpl in E. subst units. destruct pre; discriminate.
  - apply (f_equal (@rev achar)) in E. rewrite rev_involutive in E.
    simpl in E. subst units. exists (rev r), u. split; [reflexivity|].
    unfold view_string in H. rewrite map_app in H. cbn [map] in H.
    apply app_inj_tail in H. apply H.
Qed.

(** What was extracted from units that end on a delimiter needs no space
    after it. *)
Lemma extract_before_fragment : forall units,
  units = [] \/ (exists units' u, units = units' ++ [u]
                                  /\ is_delim (ch u) = true) ->
  separated (extract_from [] units) = true
  /\ forall rest, extract_from [] (units ++ rest)
                  = extract_from (extract_from [] units) rest.
Proof.
  intros units [->|(units' & u & -> & Hd)]; [split; reflexivity|].
  pose proof (is_delim_not_OBJ _ Hd) as Hu.
  split; [|intros rest; apply extract_from_app; exact Hu].
  assert (H : exists x, extract_from [] (units' ++ [u]) = x ++ [[ch u]])
    by (destruct (extract_from_snoc units' u [] Hu) as [H|H]; eauto).
  destruct H as [x ->]. unfold separated. rewrite rev_app_distr.
  cbn [rev app]. unfold ends_with_delim. cbn [rev app]. exact Hd.
Qed.

(** What a pill appends, and what is extracted after it. *)
Lemma extract_pill_then : forall u raw post,
  char_eqb (ch u) OBJ = true -> tag u = Some raw ->
  extract_from [] (u :: post)
  = [raw]
    ++ match post with
       | [] => []
       | nxt :: _ => if is_delim (ch nxt) then [] else [[SPACE]]
       end
    ++ extract_from [] post.
Proof.
  intros u raw post Hu Ht. cbn [extract_from].
  unfold extract_char at 1. rewrite Hu, Ht. cbn [rev app].
  destruct post as [|nxt post]; [reflexivity|].
  cbn [hd_error]. destruct (is_delim (ch nxt)) eqn:Hd; cbn [negb].
  - cbn [extract_from app]. unfold extract_char at 1.
    rewrite (is_delim_not_OBJ _ Hd).
    rewrite (extract_from_prefix post [raw] [[ch nxt]])
      by (left; discriminate).
    unfold extract_char at 1. rewrite (is_delim_not_OBJ _ Hd).
    reflexivity.
  - pose proof (extract_from_prefix (nxt :: post) ([raw] ++ [[SPACE]]) []
                  (or_intror eq_refl)) as H.
    exact H.
Qed.

(** The pieces gathered before a pill get one space when they end on
    anything but a delimiter, and nothing else changes. *)
Lemma extract_pill_in_context : forall pieces u raw post,
  char_eqb (ch u) OBJ = true -> tag u = Some raw ->
  extract_from pieces (u :: post)
  = (pieces ++ (if separated pieces then [] else [[SPACE]]))
    ++ extract_from [] (u :: post).
Proof.
  intros pieces u raw post Hu Ht. cbn [extract_from].
  unfold extract_char. rewrite Hu, Ht, leading_space. cbn [rev app].
  set (lead := pieces ++ (if separated pieces then [] else [[SPACE]])).
  destruct (hd_error post) as [nxt|]; [destruct (negb (is_delim (ch nxt)))|];
    rewrite <- ?app_assoc;
    apply extract_from_prefix; left; discriminate.
Qed.

(** X20.  On a storage of characters of the Basic Multilingual Plane,
    [_insert_tag] with the caret inside the storage replaces the fragment
    before the caret by one pill and puts the caret right after that
    pill.  Extracted again, the new storage reads as what stood before
    the fragment, the raw tag, one space if a character that is no
    delimiter follows the caret, and what stood after the caret: the typed
    fragment is gone and nothing is put before the raw tag. *)
Theorem insert_tag_replaces_fragment :
  forall storage location raw_tag display_text,
  bmp_buffer storage = true ->
  (location <= length storage)%nat ->
  let fragment :=
    _current_fragment (view_string storage) (Z.of_nat location) in
  let replace_start := (location - length fragment)%nat in
  let after := skipn location storage in
  let trail := match after with
               | [] => []
               | nxt :: _ => if is_delim (ch nxt) then [] else [SPACE]
               end in
  exists storage',
    _insert_tag storage location raw_tag display_text
    = Some (storage', S replace_start)
    /\ nth_error storage' replace_start
       = Some (pill_char raw_tag display_text)
    /\ length storage' = (length storage - length fragment + 1)%nat
    /\ _plain_text_from_view false storage'
       = _plain_text_from_view false (firstn replace_start storage)
         ++ raw_tag ++ trail ++ _plain_text_from_view false after.
Proof.
  intros storage location raw_tag display_text Hbmp Hloc.
  intros fragment replace_start after trail.
  assert (Hlen : length (view_string storage) = length storage)
    by (unfold view_string; apply length_map).
  assert (Hc : Z.to_nat (Z.max 0 (Z.min (Z.of_nat location)
                                        (len (view_string storage))))
               = location) by (unfold len; lia).
  set (start := scan_left (rev (firstn location (view_string storage)))
                          false location).
  assert (Hfrag : fragment
                  = firstn (location - start)
                           (skipn start (view_string storage))).
  { unfold fragment. rewrite _current_fragment_unfold. cbv zeta.
    rewrite Hc. reflexivity. }
  destruct (scan_left_start (view_string storage) location)
    as [Hle Hstart]; [lia|]. fold start in Hle, Hstart.
  assert (Hfl : length fragment = (location - start)%nat).
  { rewrite Hfrag, length_firstn, length_skipn. lia. }
  assert (Hrs : replace_start = start) by (unfold replace_start; lia).
  assert (Hend : (replace_start + length fragment)%nat = location) by lia.
  assert (Hbpre : bmp_buffer (firstn replace_start storage) = true)
    by (apply bmp_firstn; exact Hbmp).
  assert (Hbpost : bmp_buffer after = true)
    by (apply bmp_skipn; exact Hbmp).
  assert (Hbnew : bmp_buffer (firstn replace_start storage
                              ++ pill_char raw_tag display_text :: after)
                  = true).
  { rewrite bmp_buffer_app, Hbpre. cbn [bmp_buffer forallb pill_char ch andb].
    replace (OBJ <? 65536)%N with true by reflexivity. exact Hbpost. }
  exists (firstn replace_start storage
          ++ pill_char raw_tag display_text :: after).
  split; [|split; [|split]].
  - unfold _insert_tag. fold fragment. fold replace_start.
    rewrite Hend, (alength_bmp _ Hbmp).
    destruct (Z.leb_spec (Z.of_nat location) (Z.of_nat (length storage)));
      [|lia].
    rewrite (take_units_bmp _ _ Hbmp), (drop_units_bmp _ _ Hbmp).
    reflexivity.
  - rewrite nth_error_app2 by (rewrite length_firstn; lia).
    rewrite length_firstn.
    replace (replace_start - Nat.min replace_start (length storage))%nat
      with 0%nat by lia.
    reflexivity.
  - rewrite length_app, length_firstn. cbn [length]. unfold after.
    rewrite length_skipn. lia.
  - rewrite (to_plain_extract _ Hbnew), (to_plain_extract _ Hbpre),
      (to_plain_extract _ Hbpost).
    destruct (extract_before_fragment (firstn replace_start storage))
      as [Hsep Happ].
    { rewrite Hrs. destruct Hstart as [->|(pre & d & Hpre & Hd)];
        [left; reflexivity|].
      right. rewrite view_string_firstn in Hpre.
      destruct (view_string_snoc _ _ _ Hpre) as (units' & u & Hu & Hch).
      exists units', u. split; [exact Hu|]. rewrite Hch. exact Hd. }
    rewrite Happ.
    pose proof (extract_from_prefix (pill_char raw_tag display_text :: after)
                  (extract_from [] (firstn replace_start storage)) []
                  (or_intror Hsep)) as H.
    rewrite app_nil_r in H.
    rewrite H, (extract_pill_then _ raw_tag) by reflexivity.
    rewrite !concat_app. cbn [concat]. rewrite app_nil_r.
    unfold trail. destruct after as [|nxt after'];
      [reflexivity|].
    destruct (is_delim (ch nxt)); reflexivity.
Qed.

Lemma insert_tag_replaces_fragment_witness :
  (6 <= length typed_fragment_buffer)%nat
  /\ exists storage',
       _insert_tag typed_fragment_buffer 6 (of_string "@clipboard")
                   (of_string "clipboard")
       = Some (storage', 4%nat)
       /\ _plain_text_from_view false storage' = of_string "hi @clipboard x".
Proof.
  assert (H : (6 <= length typed_fragment_buffer)%nat) by (vm_compute; lia).
  split; [exact H|].
  destruct (insert_tag_replaces_fragment typed_fragment_buffer 6
              (of_string "@clipboard") (of_string "clipboard") eq_refl H)
    as (storage' & Hins & _ & _ & Hplain).
  exists storage'. split; [exact Hins | exact Hplain].
Defined.

Lemma extract_from_rounds : forall pre units,
  bmp_buffer (pre ++ units) = true ->
  extract_from [] (pre ++ units)
  = extract_from (pieces_after (pre ++ units) (length pre)) units.
Proof.
  intros pre units Hbmp. rewrite <- (pieces_after_all _ Hbmp).
  unfold pieces_after. rewrite length_app, seq_app, fold_left_app.
  apply extract_step_shift. exact Hbmp.
Qed.

Lemma separated_concat : forall pieces,
  separated pieces = true ->
  concat pieces = [] \/ ends_with_delim (concat pieces) = true.
Proof.
  intros pieces H. unfold separated in H.
  destruct (rev pieces) as [|l r] eqn:E.
  - apply (f_equal (@rev text)) in E. rewrite rev_involutive in E.
    subst pieces. left. reflexivity.
  - apply (f_equal (@rev text)) in E. rewrite rev_involutive in E.
    subst pieces. right. cbn [rev]. rewrite concat_app. cbn [concat].
    rewrite app_nil_r. rewrite ends_with_delim_app; [exact H|].
    intros ->. discriminate.
Qed.

(** X21.  On a storage of characters of the Basic Multilingual Plane
    every pill of the codec is delimited in the extracted text: its raw
    text comes after the pieces gathered before it, with one space added
    unless they are empty or end on a delimiter, so that what stands
    before the raw text is empty or ends on a delimiter; and what stands
    after the raw text is empty or starts with a delimiter. *)
Theorem extracted_tag_is_delimited :
  forall pre u post raw,
  bmp_buffer (pre ++ u :: post) = true ->
  ch u = OBJ -> tag u = Some raw ->
  let storage := pre ++ u :: post in
  let pieces := pieces_after storage (length pre) in
  let before :=
    concat (pieces ++ (if separated pieces then [] else [[SPACE]])) in
  exists rest,
    _plain_text_from_view false storage = before ++ raw ++ rest
    /\ (before = [] \/ ends_with_delim before = true)
    /\ (rest = [] \/ in_delims (hd_error rest) = true)
    /\ (post = [] -> rest = []).
Proof.
  intros pre u post raw Hbmp Hc Ht storage pieces before.
  assert (Hu : char_eqb (ch u) OBJ = true) by (rewrite Hc; reflexivity).
  exists (concat (match post with
                  | [] => []
                  | nxt :: _ => if is_delim (ch nxt) then [] else [[SPACE]]
                  end ++ extract_from [] post)).
  split; [|split; [|split]].
  - unfold storage at 1. rewrite (to_plain_extract _ Hbmp).
    rewrite (extract_from_rounds _ _ Hbmp). fold storage. fold pieces.
    rewrite (extract_pill_in_context pieces u raw post Hu Ht).
    rewrite (extract_pill_then u raw post Hu Ht).
    rewrite !concat_app. cbn [concat]. rewrite app_nil_r.
    unfold before. rewrite !concat_app. reflexivity.
  - unfold before. destruct (separated pieces) eqn:Hsep.
    + rewrite app_nil_r. apply separated_concat. exact Hsep.
    + right. rewrite concat_app. cbn [concat]. rewrite app_nil_r.
      rewrite ends_with_delim_app by discriminate. reflexivity.
  - destruct post as [|nxt post']; [left; reflexivity|].
    right. destruct (is_delim (ch nxt)) eqn:Hd; [|reflexivity].
    cbn [app extract_from]. unfold extract_char.
    rewrite (is_delim_not_OBJ _ Hd). cbn [app].
    pose proof (extract_from_prefix post' [[ch nxt]] []
                  (or_intror (eq_trans eq_refl Hd))) as H.
    rewrite app_nil_r in H. rewrite H. cbn [app concat hd_error in_delims].
    exact Hd.
  - intros ->. reflexivity.
Qed.

Lemma extracted_tag_is_delimited_witness :
  exists rest,
    _plain_text_from_view false adjacent_pills_buffer
    = (120%N :: [SPACE]) ++ quoted_tag "/a" ++ rest
    /\ in_delims (hd_error rest) = true.
Proof.
  destruct (extracted_tag_is_delimited [plain_char None 120%N]
              (pill_char (quoted_tag "/a") (of_string "a"))
              [pill_char (of_string "/blog") (of_string "/blog")]
              (quoted_tag "/a") eq_refl eq_refl eq_refl)
    as (rest & Hplain & _ & [Hrest|Hrest] & _).
  - exfalso. subst rest. vm_compute in Hplain. discriminate.
  - exists rest. split; [exact Hplain | exact Hrest].
Defined.

Lemma concat_singletons : forall units : attributed,
  concat (map (fun u => [ch u]) units) = view_string units.
Proof.
  induction units as [|u units IH]; [reflexivity|].
  cbn [map concat app]. rewrite IH. reflexivity.
Qed.

Lemma ch_read_at : forall storage idx c, ch (read_at storage idx c) = c.
Proof.
  intros storage idx c. unfold read_at.
  destruct (attributes_at storage idx); reflexivity.
Qed.

(** Without a placeholder no round looks at the attributes. *)
Lemma pieces_after_plain : forall storage,
  forallb (fun u => negb (char_eqb (ch u) OBJ)) storage = true ->
  forall n,
    pieces_after storage n = map (fun u => [ch u]) (firstn n storage).
Proof.
  intros storage H n. induction n as [|n IH]; [reflexivity|].
  rewrite pieces_after_S, IH, firstn_succ_nth, map_app. unfold extract_step.
  destruct (nth_error storage n) as [u|] eqn:Hu;
    [|cbn [map]; rewrite app_nil_r; reflexivity].
  rewrite forallb_forall in H. specialize (H u (nth_error_In _ _ Hu)).
  apply negb_true_iff in H.
  unfold extract_char. rewrite ch_read_at, H. reflexivity.
Qed.

(** X22.  A storage that holds no U+FFFC is extracted as its own
    characters: no space is added anywhere, and only [strip_ends] changes
    the text, by stripping it. *)
Theorem plain_storage_extracts_itself :
  forall storage strip_ends,
  forallb (fun u => negb (char_eqb (ch u) OBJ)) storage = true ->
  _plain_text_from_view strip_ends storage
  = if strip_ends then strip (view_string storage) else view_string storage.
Proof.
  intros storage strip_ends H. unfold _plain_text_from_view.
  rewrite (pieces_after_plain storage H (length storage)), firstn_all.
  rewrite concat_singletons. reflexivity.
Qed.

Lemma plain_storage_extracts_itself_witness :
  _plain_text_from_view false typed_fragment_buffer = of_string "hi @cl x".
Proof.
  exact (plain_storage_extracts_itself typed_fragment_buffer false eq_refl).
Defined.

Lemma dropwhile_suffix : forall f s,
  exists x, s = x ++ dropwhile f s /\ forallb f x = true.
Proof.
  intros f s. induction s as [|c s (x & IH & Hx)]; [exists []; auto|].
  cbn [dropwhile]. destruct (f c) eqn:E; [|exists []; auto].
  exists (c :: x). cbn [app forallb]. rewrite <- IH, E, Hx. auto.
Qed.

Lemma dropwhile_head : forall f s c,
  hd_error (dropwhile f s) = Some c -> f c = false.
Proof.
  intros f s c. induction s as [|a s IH]; [discriminate|].
  cbn [dropwhile]. destruct (f a) eqn:E; [exact IH|].
  cbn [hd_error]. intros [= <-]. exact E.
Qed.

(** X23.  With [strip_ends], as when the text is submitted, the extracted
    text neither starts nor ends with a whitespace character, whatever the
    storage holds, and it is the text extracted without [strip_ends] less
    whitespace at its two ends; a space the extraction itself put after a
    last pill is removed with the rest. *)
Theorem stripped_text_has_no_outer_space :
  forall storage,
  let sent := _plain_text_from_view true storage in
  (forall c, hd_error sent = Some c -> isspace c = false)
  /\ (forall c, hd_error (rev sent) = Some c -> isspace c = false)
  /\ exists left_ right_,
       _plain_text_from_view false storage = left_ ++ sent ++ right_
       /\ forallb isspace left_ = true /\ forallb isspace right_ = true.
Proof.
  intros storage sent. unfold sent, _plain_text_from_view.
  set (joined := concat (pieces_after storage (length storage))).
  unfold strip.
  destruct (dropwhile_suffix isspace joined) as (l & Hl & Hlsp).
  set (a := dropwhile isspace joined) in *.
  destruct (dropwhile_suffix isspace (rev a)) as (x & Hx & Hxsp).
  set (b := dropwhile isspace (rev a)) in *.
  assert (Ha : a = rev b ++ rev x).
  { rewrite <- (rev_involutive a), Hx, rev_app_distr. reflexivity. }
  split; [|split].
  - intros c Hc. apply (dropwhile_head isspace joined c). fold a.
    rewrite Ha. destruct (rev b); [discriminate | exact Hc].
  - intros c Hc. rewrite rev_involutive in Hc.
    exact (dropwhile_head isspace (rev a) c Hc).
  - exists l, (rev x). split; [|split].
    + rewrite <- Ha. exact Hl.
    + exact Hlsp.
    + rewrite forallb_rev. exact Hxsp.
Qed.

(** ** The history view *)

Lemma Shown_plain_run : forall shortcuts plugins tok t b,
  Shown shortcuts plugins t b ->
  Shown shortcuts plugins (tok ++ t) (plain_run None tok ++ b).
Proof.
  intros shortcuts plugins tok t b H.
  induction tok as [|c tok IH]; [exact H|].
  cbn [app plain_run map]. apply Shown_plain. exact IH.
Qed.

Lemma Shown_no_tag : forall shortcuts plugins t b,
  Shown shortcuts plugins t b ->
  forallb (fun u => match tag u with None => true | Some _ => false end) b
  = true.
Proof.
  intros shortcuts plugins t b H.
  induction H; cbn [forallb plain_char make_pill_attachment tag andb]; auto.
Qed.

Lemma Shown_length : forall shortcuts plugins t b,
  Shown shortcuts plugins t b -> (length b <= length t)%nat.
Proof.
  intros shortcuts plugins t b H. induction H; cbn [length].
  - lia.
  - lia.
  - rewrite length_app. cbn [length]. lia.
Qed.

Section HistoryRuns.

Variable shortcuts : list text.
Variable plugins : list plugin.
Variable t : text.

(** The token the history view reads at a boundary. *)
Lemma history_token : forall i c,
  at_boundary t i ->
  nth_error t i = Some c -> is_delim c = false ->
  exists tok end_,
    find_token_range t (Z.of_nat i) = (i, end_)
    /\ end_ = scan_right (skipn i t) false i
    /\ skipn i t = (c :: tok) ++ skipn end_ t
    /\ firstn (end_ - i) (skipn i t) = c :: tok
    /\ (i < end_ <= length t)%nat
    /\ (skipn end_ t = [] \/ in_delims (hd_error (skipn end_ t)) = true)
    /\ at_boundary t end_.
Proof.
  intros i c Hb Hc Hd.
  assert (Hi : (i < length t)%nat)
    by (apply nth_error_Some; rewrite Hc; discriminate).
  rewrite find_token_range_unfold. cbv zeta.
  replace (Z.to_nat (Z.max 0 (Z.min (Z.of_nat i) (len t)))) with i
    by (unfold len; lia).
  assert (Hstart : scan_left (rev (firstn i t)) false i = i).
  { destruct Hb as [->|[(pre & d & Hpre & Hdd)|[Hb|(d & Hn & Hdd)]]].
    - reflexivity.
    - rewrite Hpre, rev_app_distr. cbn [rev app].
      apply scan_left_stop. right. eauto.
    - lia.
    - rewrite Hc in Hn. injection Hn as ->. congruence. }
  rewrite Hstart.
  destruct (scan_right_quotes (skipn i t) false i)
    as (n & Hn & Hle & _ & Hend).
  rewrite length_skipn in Hle, Hend.
  assert (Hskip : skipn i t = c :: skipn (S i) t).
  { rewrite <- (firstn_skipn i t) in Hc at 1.
    rewrite nth_error_app2 in Hc by (rewrite length_firstn; lia).
    rewrite length_firstn, Nat.min_l, Nat.sub_diag in Hc by lia.
    destruct (skipn i t) as [|x r] eqn:E; [discriminate|].
    cbn [nth_error] in Hc. injection Hc as ->.
    replace (S i) with (1 + i)%nat by lia.
    rewrite <- skipn_skipn, E. reflexivity. }
  assert (Hpos : (1 <= n)%nat).
  { destruct n as [|n]; [|lia]. exfalso.
    destruct Hend as [Hdn _]; [lia|].
    rewrite Hskip in Hdn. cbn [nth] in Hdn. congruence. }
  set (end_ := scan_right (skipn i t) false i) in *.
  assert (Htok : firstn (end_ - i) (skipn i t)
                 = c :: firstn (n - 1) (skipn (S i) t)).
  { rewrite Hn. replace (i + n - i)%nat with (S (n - 1)) by lia.
    rewrite Hskip. reflexivity. }
  assert (Hrest : skipn (end_ - i) (skipn i t) = skipn end_ t).
  { rewrite skipn_skipn. f_equal. lia. }
  exists (firstn (n - 1) (skipn (S i) t)), end_.
  split; [reflexivity|]. split; [reflexivity|].
  split; [|split; [exact Htok|split; [lia|]]].
  - rewrite <- Htok, <- Hrest. symmetry. apply firstn_skipn.
  - destruct (Nat.eq_dec n (length t - i)) as [E|E].
    + assert (Hall : skipn end_ t = [])
        by (apply skipn_all2; lia).
      split; [left; exact Hall|].
      right. right. left. lia.
    + destruct Hend as [Hdn _]; [lia|].
      assert (Hnth : nth_error t end_ = Some (nth n (skipn i t) 0%N)).
      { rewrite Hn. rewrite <- (firstn_skipn i t) at 1.
        rewrite nth_error_app2 by (rewrite length_firstn; lia).
        rewrite length_firstn, Nat.min_l by lia.
        replace (i + n - i)%nat with n by lia.
        apply nth_error_nth'. rewrite length_skipn. lia. }
      split.
      * right. rewrite <- (firstn_skipn end_ t) in Hnth at 1.
        rewrite nth_error_app2 in Hnth by (rewrite length_firstn; lia).
        rewrite length_firstn, Nat.min_l, Nat.sub_diag in Hnth by lia.
        destruct (skipn end_ t) as [|x r]; [discriminate|].
        cbn [nth_error] in Hnth. injection Hnth as ->.
        cbn [hd_error in_delims]. exact Hdn.
      * right. right. right. eauto.
Qed.

(** What a round of the history view does. *)
Lemma history_body_cases : forall st c,
  at_boundary t (h_i st) ->
  nth_error t (h_i st) = Some c ->
  exists st' piece rest,
    history_body shortcuts plugins t st = Return st'
    /\ h_result st' = h_result st ++ piece
    /\ (h_i st < h_i st' <= length t)%nat
    /\ at_boundary t (h_i st')
    /\ h_i st' = (if is_delim c then S (h_i st)
                  else scan_right (skipn (h_i st) t) false (h_i st))
    /\ skipn (h_i st') t = rest
    /\ forall b, Shown shortcuts plugins rest b ->
                 Shown shortcuts plugins (skipn (h_i st) t) (piece ++ b).
Proof.
  intros st c Hb Hc.
  assert (Hi : (h_i st < length t)%nat)
    by (apply nth_error_Some; rewrite Hc; discriminate).
  unfold history_body.
  destruct (_collect_prefixes plugins) as [[normal_prefixes path_like] po].
  rewrite Hc. destruct (is_delim c) eqn:Hd.
  - eexists _, [plain_char None c], _. cbn [h_i h_result].
    split; [reflexivity|]. cbn [h_i h_result].
    split; [reflexivity|]. split; [lia|].
    assert (Hskip : skipn (h_i st) t = c :: skipn (S (h_i st)) t).
    { rewrite <- (firstn_skipn (h_i st) t) in Hc at 1.
      rewrite nth_error_app2 in Hc by (rewrite length_firstn; lia).
      rewrite length_firstn, Nat.min_l, Nat.sub_diag in Hc by lia.
      destruct (skipn (h_i st) t) as [|x r] eqn:E; [discriminate|].
      cbn [nth_error] in Hc. injection Hc as ->.
      replace (S (h_i st)) with (1 + h_i st)%nat by lia.
      rewrite <- skipn_skipn, E. reflexivity. }
    split; [|split; [reflexivity|split; [reflexivity|]]].
    + right. left. exists (firstn (h_i st) t), c. split; [|exact Hd].
      rewrite <- (firstn_skipn (h_i st) t) at 1. rewrite Hskip.
      replace (firstn (h_i st) t ++ c :: skipn (S (h_i st)) t)
        with ((firstn (h_i st) t ++ [c]) ++ skipn (S (h_i st)) t)
        by (rewrite <- app_assoc; reflexivity).
      replace (S (h_i st)) with (length (firstn (h_i st) t ++ [c])) at 1
        by (rewrite length_app, length_firstn; simpl; lia).
      rewrite firstn_app, Nat.sub_diag, firstn_all. cbn [firstn].
      apply app_nil_r.
    + intros b Hshown. rewrite Hskip. cbn [app].
      apply Shown_plain. exact Hshown.
  - destruct (history_token (h_i st) c Hb Hc Hd)
      as (tok & end_ & Hrange & Hend & Hskip & Htok & Hbounds & Hrest & Hb').
    rewrite Hrange, Htok.
    destruct (text_in (c :: tok) shortcuts) eqn:Hs;
      [|destruct (startswith [AT] (c :: tok)
                  && (any_startswith (c :: tok) normal_prefixes
                      || any_startswith (c :: tok) path_like)) eqn:Ht].
    + eexists _, [make_pill_attachment (c :: tok)], _. cbn [h_i h_result].
      split; [reflexivity|]. cbn [h_i h_result].
    split; [reflexivity|]. split; [lia|].
      split; [exact Hb'|]. split; [exact Hend|]. split; [reflexivity|].
      intros b Hshown. rewrite Hskip.
      apply Shown_pill; auto.
    + destruct (display_string_for_tag_returns (c :: tok) plugins)
        as [label Hlabel].
      rewrite Hlabel. cbn [bind].
      eexists _, [make_pill_attachment label], _. cbn [h_i h_result].
      split; [reflexivity|]. cbn [h_i h_result].
    split; [reflexivity|]. split; [lia|].
      split; [exact Hb'|]. split; [exact Hend|]. split; [reflexivity|].
      intros b Hshown. rewrite Hskip.
      apply andb_prop in Ht. destruct Ht as [Hat _].
      apply Shown_pill; auto.
    + eexists _, (plain_run None (c :: tok)), _. cbn [h_i h_result].
      split; [reflexivity|]. cbn [h_i h_result].
    split; [reflexivity|]. split; [lia|].
      split; [exact Hb'|]. split; [exact Hend|]. split; [reflexivity|].
      intros b Hshown. rewrite Hskip.
      apply Shown_plain_run. exact Hshown.
Qed.

(** With as many rounds as characters are left, the loop returns. *)
Lemma history_loop_returns : forall fuel st,
  at_boundary t (h_i st) ->
  (h_i st <= length t)%nat ->
  (length t - h_i st <= fuel)%nat ->
  exists stf b,
    history_loop shortcuts plugins t fuel st = Some (Return stf)
    /\ h_result stf = h_result st ++ b
    /\ Shown shortcuts plugins (skipn (h_i st) t) b.
Proof.
  induction fuel as [|fuel IH]; intros st Hb Hle Hfuel.
  - exists st, []. cbn [history_loop].
    destruct (Nat.ltb_spec (h_i st) (length t)); [lia|].
    rewrite app_nil_r, skipn_all2 by lia.
    split; [reflexivity|]. split; [reflexivity | constructor].
  - cbn [history_loop].
    destruct (Nat.ltb_spec (h_i st) (length t)) as [Hlt|Hge].
    + destruct (nth_error t (h_i st)) as [c|] eqn:Hc;
        [|apply nth_error_None in Hc; lia].
      destruct (history_body_cases st c Hb Hc)
        as (st' & piece & rest & Hbody & Hres & Hi & Hb' & _ & Hrest
            & Hshown).
      rewrite Hbody.
      destruct (IH st' Hb') as (stf & b & Hloop & Hresf & Hsh); [lia|lia|].
      exists stf, (piece ++ b). split; [exact Hloop|].
      split; [rewrite Hresf, Hres, <- app_assoc; reflexivity|].
      apply Hshown. rewrite <- Hrest. exact Hsh.
    + exists st, []. rewrite app_nil_r, skipn_all2 by lia.
      split; [reflexivity|]. split; [reflexivity | constructor].
Qed.

End HistoryRuns.

(** X24.  [render_text_with_pills] returns on every text, whatever the
    plugins do: it never raises and its loop ends within as many rounds as
    the text has characters.  What it returns has the shape [Shown]: the
    text with some tokens replaced by one attachment each, where such a
    token is a shortcut or starts with [@]; no character of it stores a
    raw text, and it is no longer than the text. *)
Theorem history_render_returns : forall shortcuts plugins t,
  exists buf,
    render_text_with_pills shortcuts plugins t = Some (Return buf)
    /\ Shown shortcuts plugins t buf
    /\ forallb (fun u => match tag u with None => true | Some _ => false end)
               buf = true
    /\ (length buf <= length t)%nat.
Proof.
  intros shortcuts plugins t.
  destruct (history_loop_returns shortcuts plugins t (length t)
              {| h_i := 0; h_result := [] |})
    as (stf & b & Hloop & Hres & Hshown).
  - left. reflexivity.
  - cbn [h_i]. lia.
  - cbn [h_i]. lia.
  - cbn [h_i h_result app skipn] in *.
    exists b. unfold render_text_with_pills. rewrite Hloop, Hres.
    split; [reflexivity|]. split; [exact Hshown|].
    split; [exact (Shown_no_tag _ _ _ _ Hshown)
           | exact (Shown_length _ _ _ _ Hshown)].
Qed.

(** Outside quotes the forward scan does not pass a delimiter. *)
Lemma scan_right_quote_free : forall a d rest e,
  forallb (fun c => negb (char_eqb c QUOTE)) a = true ->
  is_delim d = true ->
  (scan_right (a ++ d :: rest) false e <= e + length a)%nat.
Proof.
  induction a as [|c a IH]; intros d rest e Ha Hd.
  - cbn [app scan_right]. rewrite (is_delim_not_QUOTE _ Hd), Hd.
    cbn [negb andb length]. lia.
  - cbn [forallb] in Ha. apply andb_prop in Ha. destruct Ha as [Hc Ha].
    apply negb_true_iff in Hc. cbn [app scan_right length]. rewrite Hc.
    destruct (is_delim c && negb false); [lia|].
    specialize (IH d rest (S e) Ha Hd). lia.
Qed.

Section HistoryLastToken.

Variable shortcuts : list text.
Variable plugins : list plugin.
Variables pre w : text.

Hypothesis Hpre :
  pre = [] \/ exists pre' d, pre = pre' ++ [d] /\ is_delim d = true.
Hypothesis Hquote : forallb (fun c => negb (char_eqb c QUOTE)) pre = true.
Hypothesis Hw : forallb is_word_char w = true.
Hypothesis Hne : w <> [].

(** The rounds over a text that holds no quote and ends on a delimiter
    end where the last token starts. *)
Lemma history_reaches_prefix : forall k st,
  (h_i st <= length pre)%nat ->
  at_boundary (pre ++ w) (h_i st) ->
  (length pre - h_i st <= k)%nat ->
  exists st',
    h_i st' = length pre
    /\ (exists b, h_result st' = h_result st ++ b)
    /\ forall fuel,
         (length (pre ++ w) - h_i st <= fuel)%nat ->
         exists fuel',
           (length (pre ++ w) - h_i st' <= fuel')%nat
           /\ history_loop shortcuts plugins (pre ++ w) fuel st
              = history_loop shortcuts plugins (pre ++ w) fuel' st'.
Proof.
  induction k as [|k IH]; intros st Hle Hb Hk.
  - exists st. split; [lia|]. split; [exists []; symmetry; apply app_nil_r|].
    intros fuel Hfuel. exists fuel. split; [exact Hfuel | reflexivity].
  - destruct (Nat.eq_dec (h_i st) (length pre)) as [E|E].
    { exists st. split; [exact E|].
      split; [exists []; symmetry; apply app_nil_r|].
      intros fuel Hfuel. exists fuel. split; [exact Hfuel | reflexivity]. }
    assert (Hlt : (h_i st < length pre)%nat) by lia.
    destruct Hpre as [->|(pre' & d & Epre & Hd)]; [simpl in Hlt; lia|].
    assert (Hlen : length pre = S (length pre'))
      by (rewrite Epre, length_app; simpl; lia).
    assert (Hlent : length (pre ++ w) = (length pre + length w)%nat)
      by apply length_app.
    destruct (nth_error (pre ++ w) (h_i st)) as [c|] eqn:Hc;
      [|apply nth_error_None in Hc; lia].
    destruct (history_body_cases shortcuts plugins (pre ++ w) st c Hb Hc)
      as (st1 & piece & rest & Hbody & Hres & Hi & Hb1 & Hidx & _ & _).
    assert (Hle1 : (h_i st1 <= length pre)%nat).
    { rewrite Hidx. destruct (is_delim c); [lia|].
      assert (Hskip : skipn (h_i st) (pre ++ w)
                      = skipn (h_i st) pre' ++ d :: w).
      { rewrite Epre, <- app_assoc. cbn [app].
        rewrite skipn_app.
        replace (h_i st - length pre')%nat with 0%nat by lia.
        reflexivity. }
      rewrite Hskip.
      assert (Hq : forallb (fun c => negb (char_eqb c QUOTE))
                           (skipn (h_i st) pre') = true).
      { apply forallb_skipn. rewrite Epre, forallb_app in Hquote.
        apply andb_prop in Hquote. apply Hquote. }
      pose proof (scan_right_quote_free _ d w (h_i st) Hq Hd) as Hs.
      rewrite length_skipn in Hs. lia. }
    destruct (IH st1 Hle1 Hb1) as (st' & Hi' & [b Hb'] & Hrun); [lia|].
    exists st'. split; [exact Hi'|]. split.
    + exists (piece ++ b). rewrite Hb', Hres, <- app_assoc. reflexivity.
    + intros fuel Hfuel. destruct fuel as [|fuel]; [lia|].
      destruct (Hrun fuel) as (fuel' & Hf' & Hloop); [lia|].
      exists fuel'. split; [exact Hf'|].
      cbn [history_loop].
      destruct (Nat.ltb_spec (h_i st) (length (pre ++ w))); [|lia].
      rewrite Hbody. exact Hloop.
Qed.

(** The range of the last token. *)
Lemma last_token_range :
  find_token_range (pre ++ w) (Z.of_nat (length pre))
  = (length pre, length (pre ++ w)).
Proof.
  rewrite find_token_range_unfold. cbv zeta.
  replace (Z.to_nat (Z.max 0 (Z.min (Z.of_nat (length pre))
                                    (len (pre ++ w)))))
    with (length pre) by (unfold len; rewrite length_app; lia).
  rewrite firstn_app, Nat.sub_diag, firstn_all. cbn [firstn].
  rewrite app_nil_r, skipn_app, Nat.sub_diag, skipn_all. cbn [skipn app].
  f_equal.
  - apply scan_left_stop.
    destruct Hpre as [->|(pre' & d & -> & Hd)]; [left; reflexivity|].
    right. rewrite rev_app_distr. cbn [rev app]. eauto.
  - rewrite <- (app_nil_r w) at 1.
    rewrite scan_right_through by (apply word_chars_pass; exact Hw).
    cbn [scan_right]. rewrite length_app. reflexivity.
Qed.

(** When the round of the last token appends [piece], the history view
    returns a buffer that ends with [piece]. *)
Lemma history_last_round : forall piece,
  (forall st, h_i st = length pre ->
     history_body shortcuts plugins (pre ++ w) st
     = Return {| h_i := length (pre ++ w);
                 h_result := h_result st ++ piece |}) ->
  exists buf,
    render_text_with_pills shortcuts plugins (pre ++ w)
    = Some (Return (buf ++ piece)).
Proof.
  intros piece Hbody.
  destruct (history_reaches_prefix (length pre) {| h_i := 0; h_result := [] |})
    as (st' & Hi' & [b Hb'] & Hrun).
  - cbn [h_i]. lia.
  - left. reflexivity.
  - cbn [h_i]. lia.
  - cbn [h_i h_result app] in *.
    destruct (Hrun (length (pre ++ w))) as (fuel' & Hf' & Hloop); [lia|].
    exists b. unfold render_text_with_pills. rewrite Hloop.
    assert (Hwl : (0 < length w)%nat)
      by (destruct w; [contradiction | simpl; lia]).
    rewrite length_app in Hf'.
    destruct fuel' as [|fuel']; [lia|].
    cbn [history_loop]. rewrite Hi'.
    destruct (Nat.ltb_spec (length pre) (length (pre ++ w)))
      as [_|Hge]; [|rewrite length_app in Hge; lia].
    rewrite (Hbody st' Hi'), Hb'.
    destruct fuel'; cbn [history_loop h_i h_result];
      rewrite Nat.ltb_irrefl; reflexivity.
Qed.

(** The round of the last token. *)
Lemma history_body_at_word : forall st,
  h_i st = length pre ->
  history_body shortcuts plugins (pre ++ w) st
  = let '(normal_prefixes, path_like, _prefix_only) :=
      _collect_prefixes plugins in
    if text_in w shortcuts then
      Return {| h_i := length (pre ++ w);
                h_result := h_result st ++ [make_pill_attachment w] |}
    else if startswith [AT] w
            && (any_startswith w normal_prefixes
                || any_startswith w path_like) then
      disp <- display_string_for_tag w plugins ;;
      Return {| h_i := length (pre ++ w);
                h_result := h_result st ++ [make_pill_attachment disp] |}
    else
      Return {| h_i := length (pre ++ w);
                h_result := h_result st ++ plain_run None w |}.
Proof.
  intros st Hi. unfold history_body.
  destruct (_collect_prefixes plugins) as [[normal_prefixes path_like] po].
  rewrite Hi.
  assert (Hhead : exists c w', w = c :: w' /\ is_delim c = false).
  { clear Hi. destruct w as [|c w']; [contradiction|].
    exists c, w'. split; [reflexivity|].
    cbn [forallb] in Hw. apply andb_prop in Hw. destruct Hw as [Hc _].
    unfold is_word_char in Hc. apply andb_prop in Hc.
    destruct Hc as [Hc _]. apply negb_true_iff in Hc. exact Hc. }
  destruct Hhead as (c & w' & Ew & Hd).
  assert (Hn : nth_error (pre ++ w) (length pre) = Some c)
    by (rewrite Ew; apply nth_error_middle).
  rewrite Hn, Hd, last_token_range.
  replace (firstn (length (pre ++ w) - length pre)
                  (skipn (length pre) (pre ++ w))) with w; [reflexivity|].
  rewrite skipn_app, Nat.sub_diag, skipn_all, length_app. cbn [skipn app].
  replace (length pre + length w - length pre)%nat with (length w) by lia.
  symmetry. apply firstn_all.
Qed.

End HistoryLastToken.

(** X25.  The history view shows a shortcut as a pill also when it is the
    last token of the text, with nothing after it: for a text without
    quotes that is empty or ends on a delimiter, followed by a shortcut
    made of characters that are neither delimiters nor quotes, the buffer
    returned ends with the attachment that shows the shortcut.  The
    rendering of the input field leaves such a token as typed. *)
Theorem history_converts_shortcut_at_end :
  forall shortcuts plugins pre w,
  (pre = [] \/ exists pre' d, pre = pre' ++ [d] /\ is_delim d = true) ->
  forallb (fun c => negb (char_eqb c QUOTE)) pre = true ->
  forallb is_word_char w = true ->
  w <> [] ->
  text_in w shortcuts = true ->
  exists buf,
    render_text_with_pills shortcuts plugins (pre ++ w)
    = Some (Return (buf ++ [make_pill_attachment w])).
Proof.
  intros shortcuts plugins pre w Hpre Hquote Hw Hne Hs.
  apply (history_last_round shortcuts plugins pre w Hpre Hquote Hw Hne).
  intros st Hi.
  rewrite (history_body_at_word shortcuts plugins pre w Hpre Hquote Hw Hne
             st Hi).
  destruct (_collect_prefixes plugins) as [[normal_prefixes path_like] po].
  rewrite Hs. reflexivity.
Qed.

Lemma history_converts_shortcut_at_end_witness :
  exists buf,
    render_text_with_pills sample_shortcuts sample_plugins
      (of_string "see " ++ of_string "/blog")
    = Some (Return (buf ++ [make_pill_attachment (of_string "/blog")])).
Proof.
  apply (history_converts_shortcut_at_end sample_shortcuts sample_plugins
           (of_string "see ") (of_string "/blog")).
  - right. exists (of_string "see"), SPACE. split; reflexivity.
  - reflexivity.
  - reflexivity.
  - discriminate.
  - reflexivity.
Defined.

(** X26.  For the history view a token is a tag as soon as it starts with
    [@] and with a prefix of a plugin, a normal one or a path prefix: as
    the last token of a text without quotes, and when it is no shortcut,
    it is shown as one attachment under the label [display_string_for_tag]
    gives it.  Neither an exact match with the prefix nor a delimiter after
    the token is asked for, and prefixes that end with [://] count like the
    others. *)
Theorem history_shows_prefixed_token :
  forall shortcuts plugins pre w,
  (pre = [] \/ exists pre' d, pre = pre' ++ [d] /\ is_delim d = true) ->
  forallb (fun c => negb (char_eqb c QUOTE)) pre = true ->
  forallb is_word_char w = true ->
  text_in w shortcuts = false ->
  startswith [AT] w = true ->
  any_startswith w (flat_map prefixes_of plugins)
  || any_startswith w (flat_map PATH_PREFIXES plugins) = true ->
  exists buf label,
    display_string_for_tag w plugins = Return label
    /\ render_text_with_pills shortcuts plugins (pre ++ w)
       = Some (Return (buf ++ [make_pill_attachment label])).
Proof.
  intros shortcuts plugins pre w Hpre Hquote Hw Hs Hat Hprefix.
  assert (Hne : w <> []) by (intros ->; discriminate).
  destruct (display_string_for_tag_returns w plugins) as [label Hlabel].
  destruct (history_last_round shortcuts plugins pre w Hpre Hquote Hw Hne
              [make_pill_attachment label]) as [buf Hbuf].
  - intros st Hi.
    rewrite (history_body_at_word shortcuts plugins pre w Hpre Hquote Hw Hne
             st Hi).
    rewrite collect_prefixes_spec, Hs, Hat, Hprefix, Hlabel. reflexivity.
  - exists buf, label. split; [exact Hlabel | exact Hbuf].
Qed.

Lemma history_shows_prefixed_token_witness :
  exists buf,
    render_text_with_pills sample_shortcuts sample_plugins
      (of_string "see " ++ of_string "@http://")
    = Some (Return (buf ++ [make_pill_attachment (of_string "http://")])).
Proof.
  destruct (history_shows_prefixed_token sample_shortcuts sample_plugins
              (of_string "see ") (of_string "@http://"))
    as (buf & label & Hlabel & Hbuf).
  - right. exists (of_string "see"), SPACE. split; reflexivity.
  - reflexivity.
  - reflexivity.
  - reflexivity.
  - reflexivity.
  - reflexivity.
  - exists buf. rewrite Hbuf.
    vm_compute in Hlabel. injection Hlabel as <-. reflexivity.
Defined.

Lemma char_in_In : forall c s, In c s -> char_in c s = true.
Proof.
  intros c s H. unfold char_in. apply existsb_exists.
  exists c. split; [exact H | apply char_eqb_eq; reflexivity].
Qed.

Lemma no_shortcut_fits_suffix : forall shortcuts a t,
  no_shortcut_fits shortcuts (a ++ t) = true ->
  no_shortcut_fits shortcuts t = true.
Proof.
  intros shortcuts a t H. unfold no_shortcut_fits in *.
  rewrite forallb_forall in *. intros s Hs. specialize (H s Hs).
  rewrite existsb_exists in *. destruct H as (c & Hc & Hn).
  exists c. split; [exact Hc|].
  apply negb_true_iff in Hn. apply negb_true_iff.
  unfold char_in in *. rewrite existsb_app in Hn.
  apply orb_false_elim in Hn. apply Hn.
Qed.

Lemma no_shortcut_fits_token : forall shortcuts tok t,
  no_shortcut_fits shortcuts (tok ++ t) = true ->
  text_in tok shortcuts = false.
Proof.
  intros shortcuts tok t H.
  destruct (text_in tok shortcuts) eqn:E; [|reflexivity].
  apply text_in_In in E. unfold no_shortcut_fits in H.
  rewrite forallb_forall in H. specialize (H tok E).
  apply existsb_exists in H. destruct H as (c & Hc & Hn).
  apply negb_true_iff in Hn.
  rewrite char_in_In in Hn by (apply in_or_app; left; exact Hc).
  discriminate.
Qed.

(** A text that holds no [@] and no shortcut is shown as it is. *)
Lemma Shown_unchanged : forall shortcuts plugins t b,
  Shown shortcuts plugins t b ->
  char_in AT t = false ->
  no_shortcut_fits shortcuts t = true ->
  b = plain_run None t.
Proof.
  intros shortcuts plugins t b H. induction H; intros Hat Hs.
  - reflexivity.
  - cbn [plain_run map]. unfold plain_char. f_equal. apply IHShown.
    + unfold char_in in *. cbn [existsb] in Hat.
      apply orb_false_elim in Hat. apply Hat.
    + exact (no_shortcut_fits_suffix shortcuts [c] t Hs).
  - exfalso. destruct H1 as [[Hin _]|[Hstart _]].
    + rewrite (no_shortcut_fits_token _ _ _ Hs) in Hin. discriminate.
    + cbn [startswith] in Hstart. apply andb_prop in Hstart.
      destruct Hstart as [Hc _]. apply char_eqb_eq in Hc. subst c.
      cbn [app] in Hat. unfold char_in in Hat. cbn [existsb] in Hat.
      apply orb_false_elim in Hat. destruct Hat as [Hat _].
      assert (E : char_eqb AT AT = true) by reflexivity.
      rewrite E in Hat. discriminate.
Qed.

(** X27.  The history view shows a text unchanged when it holds no [@]
    and every shortcut holds a character that the text does not hold:
    whatever the plugins, the buffer returned has the characters of the
    text, one for one and in order, and no attachment.  The token ranges
    the loop takes from [find_token_range] neither skip nor repeat a
    character. *)
Theorem history_shows_plain_text_unchanged :
  forall shortcuts plugins t,
  char_in AT t = false ->
  no_shortcut_fits shortcuts t = true ->
  render_text_with_pills shortcuts plugins t
  = Some (Return (plain_run None t)).
Proof.
  intros shortcuts plugins t Hat Hs.
  destruct (history_loop_returns shortcuts plugins t (length t)
              {| h_i := 0; h_result := [] |})
    as (stf & b & Hloop & Hres & Hshown).
  - left. reflexivity.
  - cbn [h_i]. lia.
  - cbn [h_i]. lia.
  - cbn [h_i h_result app skipn] in *.
    unfold render_text_with_pills. rewrite Hloop, Hres.
    rewrite (Shown_unchanged _ _ _ _ Hshown Hat Hs). reflexivity.
Qed.

Lemma history_shows_plain_text_unchanged_witness :
  render_text_with_pills sample_shortcuts sample_plugins
    (of_string "say 'a b' twice")
  = Some (Return (plain_run None (of_string "say 'a b' twice"))).
Proof.
  apply (history_shows_plain_text_unchanged sample_shortcuts sample_plugins
           (of_string "say 'a b' twice")); reflexivity.
Defined.

(** ** [_caret_on_first_line] *)

